(** * ConvNet2D_numpy: a shallow embedding of the NumPy layer engine

    The development follows [src/models/ConvNet2D_numpy.py] class by class.
    NumPy arrays are records of a shape and a total index function; the
    [float64] entries are idealised as exact numbers: rationals ([Q])
    wherever the code only adds, multiplies, divides, compares and takes
    maxima (so every definition runs), and real numbers where it calls
    [np.exp] or [np.sqrt].  Python exceptions are values of an error monad. *)

From Stdlib Require Import List Arith ZArith QArith Qround Qminmax Lia Bool String.
From Stdlib Require Import Reals Qreals Lra.
Import ListNotations.

Set Implicit Arguments.

(* ================================================================== *)
(** * Python run-time: exceptions, loops, the module namespace *)
(* ================================================================== *)

Module Py.

Inductive exn : Set :=
| NameError
| TypeError
| ValueError
| IndexError
| AttributeError
| AssertionError
| ZeroDivisionError.

Inductive result (A : Type) : Type :=
| Ok (a : A)
| Raise (e : exn).

Arguments Ok {A} a.
Arguments Raise {A} e.

Definition bind {A B : Type} (m : result A) (k : A -> result B) : result B :=
  match m with
  | Ok a => k a
  | Raise e => Raise e
  end.

(** [assert cond] *)
Definition assert (cond : bool) : result unit :=
  if cond then Ok tt else Raise AssertionError.

(** [for x in xs: s = body(x, s)], leaving the loop at the first exception. *)
Fixpoint for_ {S : Type} (xs : list nat) (s : S) (body : nat -> S -> result S)
  : result S :=
  match xs with
  | [] => Ok s
  | x :: xs' => bind (body x s) (fun s' => for_ xs' s' body)
  end.

(** [range(n)] *)
Definition range (n : nat) : list nat := seq 0 n.

(** [xs[i]] on a Python list. *)
Definition getitem {A : Type} (xs : list A) (i : nat) : result A :=
  match nth_error xs i with
  | Some x => Ok x
  | None => Raise IndexError
  end.

(** What a global name of the module can be bound to. *)
Inductive gval : Type :=
| GModule
| GClass
| GFunction (fn : Q -> Q)
| GArray (shape : list nat).

Definition globals := list (string * gval).

(** The names bound at module level by the source file: the [import] and the
    four [class] statements.  [ReLU] and [softmax] are attributes of classes
    and [X] is a parameter of other methods: none of them is a global. *)
Definition module_globals : globals :=
  [ ("np", GModule); ("ConvNet2D", GClass); ("Conv2d", GClass);
    ("Pooling", GClass); ("FullyConnected", GClass) ]%string.

Fixpoint assoc (name : string) (G : globals) : option gval :=
  match G with
  | [] => None
  | (n, v) :: G' => if String.eqb n name then Some v else assoc name G'
  end.

(** Reading a name that is not a local variable: the globals of the module
    are searched; none of the names read this way is a builtin. *)
Definition load_global (G : globals) (name : string) : result gval :=
  match assoc name G with
  | Some v => Ok v
  | None => Raise NameError
  end.

(** [v(x)] for a float [x]: the classes need more arguments and a module
    is not callable. *)
Definition call1 (v : gval) (x : Q) : result Q :=
  match v with
  | GFunction fn => Ok (fn x)
  | _ => Raise TypeError
  end.

(** [v.shape[1]] *)
Definition shape1 (v : gval) : result nat :=
  match v with
  | GArray shape => getitem shape 1
  | _ => Raise AttributeError
  end.

End Py.

Import Py.

Declare Scope py_scope.
Delimit Scope py_scope with py.
Notation "x <- m ;; k" := (Py.bind m (fun x => k))
  (at level 61, m at next level, right associativity) : py_scope.
Notation "' pat <- m ;; k" := (Py.bind m (fun x => match x with pat => k end))
  (at level 61, pat pattern, m at next level, right associativity) : py_scope.

Local Open Scope py_scope.

(* ================================================================== *)
(** * NumPy arrays *)
(* ================================================================== *)

Module Nd.

Local Open Scope Q_scope.

(** A dense array is its shape and its entries; entries are only ever read
    at indices inside the shape. *)
Record array2 (A : Type) : Type := mk2 {
  shape2 : nat * nat;
  at2 : nat -> nat -> A
}.

Record array3 : Type := mk3 {
  shape3 : nat * nat * nat;
  at3 : nat -> nat -> nat -> Q
}.

Record array4 : Type := mk4 {
  shape4 : nat * nat * nat * nat;
  at4 : nat -> nat -> nat -> nat -> Q
}.

(** [sum(f(0), ..., f(n-1))] *)
Fixpoint sum_n (n : nat) (f : nat -> Q) : Q :=
  match n with
  | O => 0
  | S k => sum_n k f + f k
  end.

Definition Qnat (n : nat) : Q := inject_Z (Z.of_nat n).

(** ** Basic slicing: [a:b] on an axis of length [n] (all three non-negative)
    keeps the indices [a <= r < min b n]. *)
Definition slen (a b n : nat) : nat := (Nat.min b n - Nat.min a n)%nat.

(** ** Broadcasting of one axis *)
Definition bdim (a b : nat) : result nat :=
  if (a =? b)%nat then Ok a
  else if (a =? 1)%nat then Ok b
  else if (b =? 1)%nat then Ok a
  else Raise ValueError.

(** Broadcasting the axis of an operand to the axis of an in-place target. *)
Definition bto (src dst : nat) : result unit :=
  if (src =? dst)%nat || (src =? 1)%nat then Ok tt else Raise ValueError.

(** The index read on an axis of length [d] for the broadcast index [i]. *)
Definition bidx (d i : nat) : nat := if (d =? 1)%nat then O else i.

(** ** Allocation *)
Definition zeros4 (shape : nat * nat * nat * nat) : array4 :=
  mk4 shape (fun _ _ _ _ => 0).

(** [np.zeros((m, n_H, n_W, n_C))] with computed (signed) sizes. *)
Definition np_zeros4 (m : nat) (n_H n_W : Z) (n_C : nat) : result array4 :=
  if ((n_H <? 0) || (n_W <? 0))%Z then Raise ValueError
  else Ok (zeros4 (m, Z.to_nat n_H, Z.to_nat n_W, n_C)).

(** [np.full((f, f), v)] *)
Definition full2 (f : nat) (v : Q) : array2 Q := mk2 (f, f) (fun _ _ => v).

(** ** Reading *)

(** [T[i]] *)
Definition getitem0 (T : array4) (i : nat) : result array3 :=
  let '(m, H, W, C) := shape4 T in
  if (i <? m)%nat then Ok (mk3 (H, W, C) (at4 T i)) else Raise IndexError.

(** [T[i, h, w, c]] *)
Definition get4 (T : array4) (i h w c : nat) : result Q :=
  let '(m, H, W, C) := shape4 T in
  if ((i <? m) && (h <? H) && (w <? W) && (c <? C))%nat
  then Ok (at4 T i h w c) else Raise IndexError.

(** [a[vs:ve, hs:he, :]] *)
Definition slice3 (a : array3) (vs ve hs he : nat) : array3 :=
  let '(H, W, C) := shape3 a in
  mk3 (slen vs ve H, slen hs he W, C)
      (fun r q k => at3 a (vs + r) (hs + q) k).

(** [a[vs:ve, hs:he, c]] *)
Definition slice3c (a : array3) (vs ve hs he c : nat) : result (array2 Q) :=
  let '(H, W, C) := shape3 a in
  if (c <? C)%nat
  then Ok (mk2 (slen vs ve H, slen hs he W)
               (fun r q => at3 a (vs + r) (hs + q) c))
  else Raise IndexError.

(** [T[i, vs:ve, hs:he, c]] *)
Definition slice4c (T : array4) (i vs ve hs he c : nat) : result (array2 Q) :=
  a <- getitem0 T i ;; slice3c a vs ve hs he c.

(** [T[:, :, :, c]] *)
Definition lastaxis (T : array4) (c : nat) : result array3 :=
  let '(d0, d1, d2, d3) := shape4 T in
  if (c <? d3)%nat
  then Ok (mk3 (d0, d1, d2) (fun i j k => at4 T i j k c))
  else Raise IndexError.

(** [a[pad:-pad, pad:-pad, :]] for [pad > 0] *)
Definition unpad3 (a : array3) (pad : nat) : array3 :=
  let '(H, W, C) := shape3 a in
  mk3 (slen pad (H - pad) H, slen pad (W - pad) W, C)
      (fun r q k => at3 a (pad + r) (pad + q) k).

(** ** Element-wise arithmetic with broadcasting *)

Definition zip3 (op : Q -> Q -> Q) (x y : array3) : result array3 :=
  let '(x0, x1, x2) := shape3 x in
  let '(y0, y1, y2) := shape3 y in
  d0 <- bdim x0 y0 ;;
  d1 <- bdim x1 y1 ;;
  d2 <- bdim x2 y2 ;;
  Ok (mk3 (d0, d1, d2)
          (fun i j k => op (at3 x (bidx x0 i) (bidx x1 j) (bidx x2 k))
                           (at3 y (bidx y0 i) (bidx y1 j) (bidx y2 k)))).

(** [np.multiply(x, y)] *)
Definition multiply3 : array3 -> array3 -> result array3 := zip3 Qmult.

(** [x + y] *)
Definition add3 : array3 -> array3 -> result array3 := zip3 Qplus.

(** [a * v] for a scalar [v] *)
Definition scale3 (a : array3) (v : Q) : array3 :=
  mk3 (shape3 a) (fun i j k => at3 a i j k * v).

(** [np.sum(a)] *)
Definition sum3 (a : array3) : Q :=
  let '(d0, d1, d2) := shape3 a in
  sum_n d0 (fun i => sum_n d1 (fun j => sum_n d2 (fun k => at3 a i j k))).

(** The entries of a matrix, row by row. *)
Definition elems2 (a : array2 Q) : list Q :=
  let '(rows, cols) := shape2 a in
  flat_map (fun r => map (at2 a r) (seq 0 cols)) (seq 0 rows).

(** [np.max(a)]: a reduction without identity, refused on an empty array. *)
Definition max2 (a : array2 Q) : result Q :=
  match elems2 a with
  | [] => Raise ValueError
  | x :: xs => Ok (fold_left Qmax xs x)
  end.

(** [np.mean(a)].  On an empty array NumPy answers [nan] with a warning;
    exact rationals have no such value and the quotient by zero is [0]. *)
Definition mean2 (a : array2 Q) : Q :=
  let '(rows, cols) := shape2 a in
  sum_n rows (fun r => sum_n cols (fun q => at2 a r q)) / Qnat (rows * cols).

(** [a == v] *)
Definition eq2 (a : array2 Q) (v : Q) : array2 bool :=
  mk2 (shape2 a) (fun r q => Qeq_bool (at2 a r q) v).

(** [v * mask] for a float [v] and a Boolean array: [True] counts as [1]. *)
Definition scale_mask (v : Q) (mask : array2 bool) : array2 Q :=
  mk2 (shape2 mask) (fun r q => v * (if at2 mask r q then 1 else 0)).

(** ** Writing *)

(** [T[i, h, w, c] = v] *)
Definition set4 (T : array4) (i h w c : nat) (v : Q) : result array4 :=
  let '(m, H, W, C) := shape4 T in
  if ((i <? m) && (h <? H) && (w <? W) && (c <? C))%nat
  then Ok (mk4 (m, H, W, C)
               (fun i' h' w' c' =>
                  if ((i' =? i) && (h' =? h) && (w' =? w) && (c' =? c))%nat
                  then v else at4 T i' h' w' c'))
  else Raise IndexError.

(** [vs <= r < vs + n] *)
Definition within (vs n r : nat) : bool := ((vs <=? r) && (r <? vs + n))%nat.

(** [T[i, vs:ve, hs:he, c] += R] *)
Definition iadd_slice4c (T : array4) (i vs ve hs he c : nat) (R : array2 Q)
  : result array4 :=
  let '(m, H, W, C) := shape4 T in
  let '(r0, r1) := shape2 R in
  if negb ((i <? m) && (c <? C))%nat then Raise IndexError else
  let th := slen vs ve H in
  let tw := slen hs he W in
  _ <- bto r0 th ;;
  _ <- bto r1 tw ;;
  Ok (mk4 (m, H, W, C)
          (fun i' r q c' =>
             if ((i' =? i) && (c' =? c))%nat && within vs th r && within hs tw q
             then at4 T i' r q c' + at2 R (bidx r0 (r - vs)) (bidx r1 (q - hs))
             else at4 T i' r q c')).

(** [T[i][vs:ve, hs:he, :] += R], the update being made through the view
    [T[i]] and so landing in [T]. *)
Definition iadd_slice4 (T : array4) (i vs ve hs he : nat) (R : array3)
  : result array4 :=
  let '(m, H, W, C) := shape4 T in
  let '(r0, r1, r2) := shape3 R in
  if negb (i <? m)%nat then Raise IndexError else
  let th := slen vs ve H in
  let tw := slen hs he W in
  _ <- bto r0 th ;;
  _ <- bto r1 tw ;;
  _ <- bto r2 C ;;
  Ok (mk4 (m, H, W, C)
          (fun i' r q k =>
             if (i' =? i)%nat && within vs th r && within hs tw q
             then at4 T i' r q k
                  + at3 R (bidx r0 (r - vs)) (bidx r1 (q - hs)) (bidx r2 k)
             else at4 T i' r q k)).

(** [T[:, :, :, c] += R] *)
Definition iadd_lastaxis (T : array4) (c : nat) (R : array3) : result array4 :=
  let '(d0, d1, d2, d3) := shape4 T in
  let '(r0, r1, r2) := shape3 R in
  if negb (c <? d3)%nat then Raise IndexError else
  _ <- bto r0 d0 ;;
  _ <- bto r1 d1 ;;
  _ <- bto r2 d2 ;;
  Ok (mk4 (d0, d1, d2, d3)
          (fun i j k c' =>
             if (c' =? c)%nat
             then at4 T i j k c' + at3 R (bidx r0 i) (bidx r1 j) (bidx r2 k)
             else at4 T i j k c')).

(** [T[:, :, :, c] += v] for a scalar [v] *)
Definition iadd_lastaxis_scalar (T : array4) (c : nat) (v : Q) : result array4 :=
  let '(d0, d1, d2, d3) := shape4 T in
  if negb (c <? d3)%nat then Raise IndexError else
  Ok (mk4 (d0, d1, d2, d3)
          (fun i j k c' =>
             if (c' =? c)%nat then at4 T i j k c' + v else at4 T i j k c')).

(** [T[i, :, :, :] = R] *)
Definition setitem0 (T : array4) (i : nat) (R : array3) : result array4 :=
  let '(m, H, W, C) := shape4 T in
  let '(r0, r1, r2) := shape3 R in
  if negb (i <? m)%nat then Raise IndexError else
  _ <- bto r0 H ;;
  _ <- bto r1 W ;;
  _ <- bto r2 C ;;
  Ok (mk4 (m, H, W, C)
          (fun i' r q k =>
             if (i' =? i)%nat
             then at3 R (bidx r0 r) (bidx r1 q) (bidx r2 k)
             else at4 T i' r q k)).

End Nd.

Import Nd.

(* ================================================================== *)
(** * class Conv2d *)
(* ================================================================== *)

Module Conv2d.

Local Open Scope Q_scope.

(** [{"stride": stride, "pad": padding}] *)
Record hparameters : Type := mk_hparameters {
  stride : nat;
  pad : nat
}.

Record t : Type := mk {
  in_channels : nat;
  kernel_size : nat;
  n_filters : nat;
  hparams : hparameters;
  W : array4;      (* (f, f, n_C_prev, n_C) *)
  b : array4       (* (1, 1, 1, n_C) *)
}.

(** The state of [np.random]: the samples still to be drawn. *)
Definition RandomState : Type := nat -> Q.

(** [np.random.randn(d0, d1, d2, d3)] *)
Definition randn4 (g : RandomState) (d0 d1 d2 d3 : nat) : array4 * RandomState :=
  (mk4 (d0, d1, d2, d3)
       (fun i j k l => g (((i * d1 + j) * d2 + k) * d3 + l)%nat),
   fun n => g (d0 * d1 * d2 * d3 + n)%nat).

(** An actual argument of a call. *)
Inductive arg : Type :=
| AArray (a : array4)
| AInt (n : nat)
| AStr (s : string).

(** [Conv2d(in_channels, out_channels, kernel_size, stride, padding_mode,
    padding)]; [padding_mode] is accepted and never read. *)
Definition __init__ (in_channels out_channels kernel_size stride : nat)
  (padding_mode : arg) (padding : nat) (g : RandomState) : t * RandomState :=
  let '(W, g) := randn4 g kernel_size kernel_size in_channels out_channels in
  let '(b, g) := randn4 g 1 1 1 out_channels in
  (mk in_channels kernel_size out_channels (mk_hparameters stride padding) W b,
   g).

(** [np.pad(X, ((0,0), (pad,pad), (pad,pad), (0,0)), 'constant',
    constant_values=(0,0))] with [pad] read from [self.hparameters]. *)
Definition zero_pad (self : t) (X : array4) : array4 :=
  let p := pad (hparams self) in
  let '(m, H, W, C) := shape4 X in
  mk4 (m, H + 2 * p, W + 2 * p, C)%nat
      (fun i r q c =>
         if within p H r && within p W q
         then at4 X i (r - p) (q - p) c else 0).

(** The call [self.zero_pad(args...)]: the method is declared
    [zero_pad(self, X)] and takes exactly one argument besides [self]. *)
Definition call_zero_pad (self : t) (args : list arg) : result array4 :=
  match args with
  | [AArray X] => Ok (zero_pad self X)
  | [_] => Raise ValueError
  | _ => Raise TypeError
  end.

(** [np.sum(np.multiply(slice, W) + b)] *)
Definition conv_single_step (slice W b : array3) : result Q :=
  p <- multiply3 slice W ;;
  s <- add3 p b ;;
  Ok (sum3 s).

(** [np.maximum(0, Z)] *)
Definition ReLU (Z : Q) : Q := Qmax 0 Z.

(** [int(np.floor((n_prev - f + 2 * pad) / stride) + 1)] *)
Definition out_dim (n_prev f pad stride : nat) : result Z :=
  if (stride =? 0)%nat then Raise ZeroDivisionError
  else Ok (Qfloor (inject_Z (Z.of_nat n_prev - Z.of_nat f + 2 * Z.of_nat pad)
                   / inject_Z (Z.of_nat stride)) + 1)%Z.

(** [(A_prev, W.copy(), b.copy(), hparameters.copy())] *)
Definition conv_cache : Type := array4 * array4 * array4 * hparameters.

Definition forward (G : globals) (self : t) (A_prev : array4)
  : result (array4 * (conv_cache * array4)) :=
  let '(m, n_H_prev, n_W_prev, _) := shape4 A_prev in
  let '(_, f, n_C_prev, n_C) := shape4 (W self) in
  let stride := stride (hparams self) in
  let pad := pad (hparams self) in
  n_H <- out_dim n_H_prev f pad stride ;;
  n_W <- out_dim n_W_prev f pad stride ;;
  Z <- np_zeros4 m n_H n_W n_C ;;
  A <- np_zeros4 m n_H n_W n_C ;;
  A_prev_pad <- call_zero_pad self [AArray A_prev] ;;
  ZA <- for_ (range m) (Z, A) (fun i ZA =>
    A_prev_pad_i <- getitem0 A_prev_pad i ;;
    for_ (range (Z.to_nat n_H)) ZA (fun h ZA =>
      let vert_start := (h * stride)%nat in
      let vert_end := (vert_start + f)%nat in
      for_ (range (Z.to_nat n_W)) ZA (fun w ZA =>
        let horiz_start := (w * stride)%nat in
        let horiz_end := (horiz_start + f)%nat in
        for_ (range n_C) ZA (fun c ZA =>
          let '(Z, A) := ZA in
          let a_slice_prev :=
            slice3 A_prev_pad_i vert_start vert_end horiz_start horiz_end in
          weights <- lastaxis (W self) c ;;
          biases <- lastaxis (b self) c ;;
          z <- conv_single_step a_slice_prev weights biases ;;
          Z <- set4 Z i h w c z ;;
          relu <- load_global G "ReLU" ;;
          z <- get4 Z i h w c ;;
          a <- call1 relu z ;;
          A <- set4 A i h w c a ;;
          Ok (Z, A))))) ;;
  let '(Z, A) := ZA in
  let conv_cache := (A_prev, W self, b self, hparams self) in
  let activation_cache := Z in
  Ok (A, (conv_cache, activation_cache)).

(** What a caller can hand to [backward] as [cache]: the pair returned by
    [forward], or its first component. *)
Inductive cache_arg : Type :=
| FromForward (c : conv_cache * array4)
| ConvCache (c : conv_cache).

(** [(A_prev, W, b, hparameters) = cache] *)
Definition unpack4 (cache : cache_arg) : result conv_cache :=
  match cache with
  | ConvCache c => Ok c
  | FromForward _ => Raise ValueError
  end.

Definition backward (self : t) (dA : array4) (cache : cache_arg)
  : result (array4 * array4 * array4) :=
  c <- unpack4 cache ;;
  let '(A_prev, W, b, hparameters) := c in
  let '(_, n_H_prev, n_W_prev, _) := shape4 A_prev in
  let '(_, f, n_C_prev, _) := shape4 W in
  let stride := stride hparameters in
  let pad := pad hparameters in
  let '(m, n_H, n_W, n_C) := shape4 dA in
  let dA_prev := zeros4 (m, n_H_prev, n_W_prev, n_C_prev) in
  let dW := zeros4 (f, f, n_C_prev, n_C) in
  let db := zeros4 (1, 1, 1, n_C)%nat in
  A_prev_pad <- call_zero_pad self [AArray A_prev; AInt pad] ;;
  dA_prev_pad <- call_zero_pad self [AArray dA_prev; AInt pad] ;;
  st <- for_ (range m) (dA_prev, dA_prev_pad, dW, db) (fun i st =>
    let '(dA_prev, dA_prev_pad, dW, db) := st in
    a_prev_pad_i <- getitem0 A_prev_pad i ;;
    _ <- getitem0 dA_prev_pad i ;;
    acc <- for_ (range n_H) (dA_prev_pad, dW, db) (fun h acc =>
      let vert_start := (h * stride)%nat in
      let vert_end := (h * stride + f)%nat in
      for_ (range n_W) acc (fun w acc =>
        let horiz_start := (w * stride)%nat in
        let horiz_end := (w * stride + f)%nat in
        for_ (range n_C) acc (fun c acc =>
          let '(dA_prev_pad, dW, db) := acc in
          let a_slice :=
            slice3 a_prev_pad_i vert_start vert_end horiz_start horiz_end in
          Wc <- lastaxis W c ;;
          g <- get4 dA i h w c ;;
          dA_prev_pad <- iadd_slice4 dA_prev_pad i vert_start vert_end
                           horiz_start horiz_end (scale3 Wc g) ;;
          g <- get4 dA i h w c ;;
          dW <- iadd_lastaxis dW c (scale3 a_slice g) ;;
          g <- get4 dA i h w c ;;
          db <- iadd_lastaxis_scalar db c g ;;
          Ok (dA_prev_pad, dW, db)))) ;;
    let '(dA_prev_pad, dW, db) := acc in
    da_prev_pad_i <- getitem0 dA_prev_pad i ;;
    dA_prev <- (if (pad =? 0)%nat
                then setitem0 dA_prev i da_prev_pad_i
                else setitem0 dA_prev i (unpad3 da_prev_pad_i pad)) ;;
    Ok (dA_prev, dA_prev_pad, dW, db)) ;;
  let '(dA_prev, _, dW, db) := st in
  Ok (dA_prev, dW, db).

End Conv2d.

(* ================================================================== *)
(** * class Pooling *)
(* ================================================================== *)

Module Pooling.

Local Open Scope Q_scope.

(** [{"f": f, "stride": stride}] *)
Record hparameters : Type := mk_hparameters {
  f : nat;
  stride : nat
}.

Record t : Type := mk {
  hparams : hparameters;
  mode : string
}.

Definition __init__ (f stride : nat) (mode : string) : result t :=
  _ <- assert (String.eqb mode "max" || String.eqb mode "average") ;;
  Ok (mk (mk_hparameters f stride) mode).

(** The call [Pooling(args...)] with positional integer arguments:
    [__init__(self, f, stride, mode='max')] requires [f] and [stride]. *)
Definition call (args : list nat) : result t :=
  match args with
  | [f; stride] => __init__ f stride "max"
  | _ => Raise TypeError
  end.

(** [int(x)]: truncation towards zero. *)
Definition int (x : Q) : Z := if Qle_bool 0 x then Qfloor x else Qceiling x.

(** [int(1 + (n_prev - f) / stride)] *)
Definition out_dim (n_prev f stride : nat) : result Z :=
  if (stride =? 0)%nat then Raise ZeroDivisionError
  else Ok (int (1 + inject_Z (Z.of_nat n_prev - Z.of_nat f)
                    / inject_Z (Z.of_nat stride))).

Definition cache : Type := array4 * hparameters.

Definition forward (self : t) (A_prev : array4) : result (array4 * cache) :=
  let '(m, n_H_prev, n_W_prev, n_C_prev) := shape4 A_prev in
  let f := f (hparams self) in
  let stride := stride (hparams self) in
  n_H <- out_dim n_H_prev f stride ;;
  n_W <- out_dim n_W_prev f stride ;;
  let n_C := n_C_prev in
  A <- np_zeros4 m n_H n_W n_C ;;
  A <- for_ (range m) A (fun i A =>
    for_ (range (Z.to_nat n_H)) A (fun h A =>
      let vert_start := (h * stride)%nat in
      let vert_end := (h * stride + f)%nat in
      for_ (range (Z.to_nat n_W)) A (fun w A =>
        let horiz_start := (w * stride)%nat in
        let horiz_end := (w * stride + f)%nat in
        for_ (range n_C) A (fun c A =>
          a_prev_slice <- slice4c A_prev i vert_start vert_end
                            horiz_start horiz_end c ;;
          if String.eqb (mode self) "max" then
            v <- max2 a_prev_slice ;;
            set4 A i h w c v
          else if String.eqb (mode self) "average" then
            set4 A i h w c (mean2 a_prev_slice)
          else Ok A)))) ;;
  Ok (A, (A_prev, hparams self)).

(** One iteration of the innermost loop of [backward].  With [f = 0] the
    quotient [da / (f * f)] is [inf] or [nan] in NumPy, with a warning;
    exact rationals give [0] there. *)
Definition backward_step (self : t) (dA : array4) (a_prev_i : array3)
  (f stride i h w c : nat) (dA_prev : array4) : result array4 :=
  let vert_start := (h * stride)%nat in
  let vert_end := (h * stride + f)%nat in
  let horiz_start := (w * stride)%nat in
  let horiz_end := (w * stride + f)%nat in
  if String.eqb (mode self) "max" then
    a_prev_slice <- slice3c a_prev_i vert_start vert_end
                      horiz_start horiz_end c ;;
    mx <- max2 a_prev_slice ;;
    let mask := eq2 a_prev_slice mx in
    g <- get4 dA i h w c ;;
    iadd_slice4c dA_prev i vert_start vert_end horiz_start horiz_end c
                 (scale_mask g mask)
  else if String.eqb (mode self) "average" then
    da <- get4 dA i h w c ;;
    let average := da / Qnat (f * f) in
    iadd_slice4c dA_prev i vert_start vert_end horiz_start horiz_end c
                 (full2 f average)
  else Ok dA_prev.

Definition backward (self : t) (dA : array4) (cache : cache) : result array4 :=
  let '(A_prev, hparameters) := cache in
  let f := f hparameters in
  let stride := stride hparameters in
  let '(m, n_H, n_W, n_C) := shape4 dA in
  let dA_prev := zeros4 (shape4 A_prev) in
  for_ (range m) dA_prev (fun i dA_prev =>
    a_prev_i <- getitem0 A_prev i ;;
    for_ (range n_H) dA_prev (fun h dA_prev =>
      for_ (range n_W) dA_prev (fun w dA_prev =>
        for_ (range n_C) dA_prev (fun c dA_prev =>
          backward_step self dA a_prev_i f stride i h w c dA_prev)))).

End Pooling.

(* ================================================================== *)
(** * Matrices *)
(* ================================================================== *)

Module Mat.

Local Open Scope Q_scope.

(** Element-wise binary operation with broadcasting. *)
Definition zip2 {A : Type} (op : A -> A -> A) (x y : array2 A)
  : result (array2 A) :=
  let '(x0, x1) := shape2 x in
  let '(y0, y1) := shape2 y in
  d0 <- bdim x0 y0 ;;
  d1 <- bdim x1 y1 ;;
  Ok (mk2 (d0, d1)
          (fun i j => op (at2 x (bidx x0 i) (bidx x1 j))
                         (at2 y (bidx y0 i) (bidx y1 j)))).

Definition map2 {A B : Type} (fn : A -> B) (x : array2 A) : array2 B :=
  mk2 (shape2 x) (fun i j => fn (at2 x i j)).

(** [x.T] *)
Definition transpose2 {A : Type} (x : array2 A) : array2 A :=
  let '(r, c) := shape2 x in mk2 (c, r) (fun i j => at2 x j i).

(** [np.dot(x, y)] *)
Definition dot2 (x y : array2 Q) : result (array2 Q) :=
  let '(x0, x1) := shape2 x in
  let '(y0, y1) := shape2 y in
  if (x1 =? y0)%nat
  then Ok (mk2 (x0, y1) (fun i j => sum_n x1 (fun k => at2 x i k * at2 y k j)))
  else Raise ValueError.

(** [np.sum(x, axis=1, keepdims=True)] *)
Definition sum_axis1 (x : array2 Q) : array2 Q :=
  let '(r, c) := shape2 x in
  mk2 (r, 1%nat) (fun i _ => sum_n c (fun j => at2 x i j)).

(** [x / m] for an integer [m].  NumPy answers [inf] or [nan] with a warning
    when [m] is [0]; exact rationals give [0] there. *)
Definition div_scalar (x : array2 Q) (m : nat) : array2 Q :=
  map2 (fun v => v / Qnat m) x.

(** ** Real-valued reductions *)

Fixpoint sumR_n (n : nat) (f : nat -> R) : R :=
  match n with
  | O => 0%R
  | S k => (sumR_n k f + f k)%R
  end.

(** [max(f(0), ..., f(n))] *)
Fixpoint max_upto (n : nat) (f : nat -> R) : R :=
  match n with
  | O => f O
  | S k => Rmax (max_upto k f) (f (S k))
  end.

(** [np.max(x, axis=0, keepdims=True)]: refused when there is no row. *)
Definition max_axis0 (x : array2 R) : result (array2 R) :=
  let '(r, c) := shape2 x in
  match r with
  | O => Raise ValueError
  | S k => Ok (mk2 (1%nat, c) (fun _ j => max_upto k (fun i => at2 x i j)))
  end.

(** ** float64 where it leaves the real line *)

(** The largest finite float64, and the smallest positive one. *)
Definition DBL_MAX : R := ((2 - / 2 ^ 52) * 2 ^ 1023)%R.
Definition DBL_TRUE_MIN : R := (/ 2 ^ 1074)%R.

(** A float64 as far as its range goes: a real number, [inf] or [nan].
    Rounding inside the range is not modelled.  The values met here are
    never negative, so that [-inf] does not arise. *)
Inductive float : Type :=
| Fin (r : R)
| Inf
| NaN.

(** [np.exp(x)]: [inf] past the largest float64, [0.0] below half the
    smallest. *)
Definition np_exp (x : R) : float :=
  if Rlt_dec DBL_MAX (exp x) then Inf
  else if Rlt_dec (exp x) (DBL_TRUE_MIN / 2) then Fin 0
  else Fin (exp x).

(** [a + b] *)
Definition fadd (a b : float) : float :=
  match a, b with
  | NaN, _ | _, NaN => NaN
  | Fin x, Fin y => if Rlt_dec DBL_MAX (x + y) then Inf else Fin (x + y)
  | _, _ => Inf
  end.

(** [a / b]: [0 / 0] and [inf / inf] are [nan], [x / 0] is [inf]. *)
Definition fdiv (a b : float) : float :=
  match a, b with
  | NaN, _ | _, NaN => NaN
  | Inf, Inf => NaN
  | Inf, Fin _ => Inf
  | Fin _, Inf => Fin 0
  | Fin x, Fin y =>
      if Req_dec_T y 0 then (if Req_dec_T x 0 then NaN else Inf)
      else if Rlt_dec DBL_MAX (x / y) then Inf
      else Fin (x / y)
  end.

Fixpoint fsum_n (n : nat) (f : nat -> float) : float :=
  match n with
  | O => Fin 0
  | S k => fadd (fsum_n k f) (f k)
  end.

(** [np.sum(x, axis=0, keepdims=True)] *)
Definition sum_axis0 (x : array2 float) : array2 float :=
  let '(r, c) := shape2 x in
  mk2 (1%nat, c) (fun _ j => fsum_n r (fun i => at2 x i j)).

(** [np.sum(x)] *)
Definition sum2R (x : array2 R) : R :=
  let '(r, c) := shape2 x in
  sumR_n r (fun i => sumR_n c (fun j => at2 x i j)).

End Mat.

Import Mat.

(* ================================================================== *)
(** * class FullyConnected *)
(* ================================================================== *)

Module FullyConnected.

Local Open Scope Q_scope.

Record t : Type := mk {
  input_dim : nat;
  output_dim : nat;
  W : array2 Q;     (* (n_y, n_x) *)
  b : array2 Q      (* (n_y, 1) *)
}.

(** Methods run against the layer object: they may read and replace its
    attributes, and may raise. *)
Definition M (A : Type) : Type := t -> result A * t.

Definition ret {A : Type} (a : A) : M A := fun self => (Ok a, self).

Definition bindM {A B : Type} (m : M A) (k : A -> M B) : M B :=
  fun self =>
    match m self with
    | (Ok a, self') => k a self'
    | (Raise e, self') => (Raise e, self')
    end.

Definition lift {A : Type} (r : result A) : M A := fun self => (r, self).

(** [self.W], [self.b] *)
Definition get_W : M (array2 Q) := fun self => (Ok (W self), self).
Definition get_b : M (array2 Q) := fun self => (Ok (b self), self).

(** [self.W = W'], which no method of the class performs; it is what an
    update inside the layer would be. *)
Definition set_W (W' : array2 Q) : M unit :=
  fun self => (Ok tt, mk (input_dim self) (output_dim self) W' (b self)).

Notation "x <-- m ;; k" := (bindM m (fun x => k))
  (at level 61, m at next level, right associativity).

(** [(X, W, b)] *)
Definition linear_cache : Type := array2 Q * array2 Q * array2 Q.

Definition forward_linear (X : array2 Q) : M (array2 Q * linear_cache) :=
  W <-- get_W ;;
  d <-- lift (dot2 W X) ;;
  b <-- get_b ;;
  Z <-- lift (zip2 Qplus d b) ;;
  ret (Z, (X, W, b)).

(** [exps = np.exp(X - np.max(X, axis=0, keepdims=True));
     exps / np.sum(exps, axis=0, keepdims=True)], on finite logits. *)
Definition softmax (X : array2 R) : result (array2 float) :=
  mx <- max_axis0 X ;;
  d <- zip2 Rminus X mx ;;
  let exps := map2 np_exp d in
  zip2 fdiv exps (sum_axis0 exps).

Definition backward (AL Y : array2 Q) (caches : linear_cache * array2 Q)
  (learning_rate : Q) : M (array2 Q * array2 Q * array2 Q) :=
  let m := snd (shape2 AL) in
  let '(linear_cache, activation_cache) := caches in
  let '(X, W, b) := linear_cache in
  let Z := activation_cache in
  dAL <-- lift (zip2 Qminus AL Y) ;;
  p <-- lift (dot2 dAL (transpose2 X)) ;;
  let dW := div_scalar p m in
  let db := div_scalar (sum_axis1 dAL) m in
  dA_prev <-- lift (dot2 (transpose2 W) dAL) ;;
  ret (dA_prev, dW, db).

(** [v(Z)] for an array [Z]: a function of floats written with NumPy
    operations applies entry by entry; a class or a module does not take an
    array. *)
Definition call_array (v : gval) (Z : array2 Q) : result (array2 Q) :=
  match v with
  | GFunction fn => Ok (map2 fn Z)
  | _ => Raise TypeError
  end.

(** [A = softmax(Z); return A, Z], the name [softmax] being read as a
    global. *)
Definition forward_activation (G : globals) (Z : array2 Q)
  : M (array2 Q * array2 Q) :=
  sm <-- lift (load_global G "softmax") ;;
  A <-- lift (call_array sm Z) ;;
  ret (A, Z).

Definition forward (G : globals) (A_prev : array2 Q)
  : M (array2 Q * (linear_cache * array2 Q)) :=
  r <-- forward_linear A_prev ;;
  let '(Z, linear_cache) := r in
  r' <-- forward_activation G Z ;;
  let '(AL, activation_cache) := r' in
  ret (AL, (linear_cache, activation_cache)).

(** [np.random.randn(d0, d1)] *)
Definition randn (g : Conv2d.RandomState) (d0 d1 : nat)
  : array2 Q * Conv2d.RandomState :=
  (mk2 (d0, d1) (fun i j => g (i * d1 + j)%nat), fun n => g (d0 * d1 + n)%nat).

(** [W = np.random.randn(output_dim, input_dim) * 0.01;
     b = np.zeros((output_dim, 1))] *)
Definition __init__ (input_dim output_dim : nat) (g : Conv2d.RandomState)
  : t * Conv2d.RandomState :=
  let '(r, g) := randn g output_dim input_dim in
  (mk input_dim output_dim
      (map2 (fun v => v * (1 # 100)) r)
      (mk2 (output_dim, 1%nat) (fun _ _ => 0)),
   g).

End FullyConnected.

(* ================================================================== *)
(** * class ConvNet2D *)
(* ================================================================== *)

Module ConvNet2D.

Local Open Scope Q_scope.

Record t : Type := mk {
  in_channels : nat;
  out_channels : nat;
  num_filters : list nat;
  filter_sizes : list nat;
  strides : list nat;
  paddings : list nat;
  pooling : option (list bool);
  pool_size : option (list nat);
  conv_layers : list Conv2d.t;
  pooling_layers : list Pooling.t;
  fc_weights : array2 R;
  fc_biases : array2 Q
}.

(** [np.random.randn(d0, d1)] *)
Definition randn2 (g : Conv2d.RandomState) (d0 d1 : nat)
  : array2 Q * Conv2d.RandomState :=
  (mk2 (d0, d1) (fun i j => g (i * d1 + j)%nat), fun n => g (d0 * d1 + n)%nat).

(** The two [assert] statements that open [__init__]. *)
Definition check_lengths (num_filters filter_sizes strides paddings : list nat)
  (pooling : option (list bool)) (pool_size : option (list nat)) : result unit :=
  _ <- assert ((List.length num_filters =? List.length filter_sizes)%nat
               && (List.length filter_sizes =? List.length strides)%nat
               && (List.length strides =? List.length paddings)%nat) ;;
  match pooling with
  | None => Ok tt
  | Some flags =>
      match pool_size with
      | None => Raise TypeError          (* len(None) *)
      | Some sizes => assert (List.length flags =? List.length sizes)%nat
      end
  end.

(** What the layer loop carries from one iteration to the next:
    [in_channels], [self.conv_layers], [self.pooling_layers] and the state of
    the random generator. *)
Definition loop_state : Type :=
  nat * list Conv2d.t * list Pooling.t * Conv2d.RandomState.

(** The body of [for i in range(len(num_filters))]. *)
Definition add_layer (num_filters filter_sizes strides paddings : list nat)
  (pooling : option (list bool)) (pool_size : option (list nat))
  (i : nat) (st : loop_state) : result loop_state :=
  let '(in_channels, conv_layers, pooling_layers, g) := st in
  nf <- getitem num_filters i ;;
  fs <- getitem filter_sizes i ;;
  sd <- getitem strides i ;;
  pd <- getitem paddings i ;;
  let '(layer, g) :=
    Conv2d.__init__ in_channels nf fs sd (Conv2d.AInt pd) 0 g in
  let conv_layers := conv_layers ++ [layer] in
  nf <- getitem num_filters i ;;
  let in_channels := nf in
  flag <- match pooling with
          | None => Ok false
          | Some flags => getitem flags i
          end ;;
  if flag : bool then
    sz <- match pool_size with
          | None => Raise TypeError
          | Some sizes => getitem sizes i
          end ;;
    player <- Pooling.call [sz] ;;
    Ok (in_channels, conv_layers, pooling_layers ++ [player], g)
  else Ok (in_channels, conv_layers, pooling_layers, g).

(** The constructor.  Its last statements multiply by [np.sqrt(...)], so
    the weights they would build are real numbers. *)
Definition __init__ (G : globals) (in_channels out_channels : nat)
  (num_filters filter_sizes strides paddings : list nat)
  (pooling : option (list bool)) (pool_size : option (list nat))
  (g : Conv2d.RandomState) : result t :=
  let self_in_channels := in_channels in
  _ <- check_lengths num_filters filter_sizes strides paddings
         pooling pool_size ;;
  st <- for_ (range (List.length num_filters)) (in_channels, [], [], g)
          (add_layer num_filters filter_sizes strides paddings
                     pooling pool_size) ;;
  let '(_, conv_layers, pooling_layers, g) := st in
  X <- load_global G "X" ;;
  n <- shape1 X ;;
  let '(r, g) := randn2 g n out_channels in
  X <- load_global G "X" ;;
  n <- shape1 X ;;
  _ <- (if (n =? 0)%nat then Raise ZeroDivisionError else Ok tt) ;;
  let fc_weights := map2 (fun v => (Q2R v * sqrt (2 / INR n))%R) r in
  let fc_biases := mk2 (1%nat, out_channels) (fun _ _ => 0) in
  Ok (mk self_in_channels out_channels num_filters filter_sizes strides
         paddings pooling pool_size conv_layers pooling_layers
         fc_weights fc_biases).

(** The constant [1e-9] that keeps the logarithm away from 0. *)
Definition epsilon : R := (1 / 10 ^ 9)%R.

(** [m = Y.shape[1]; cost = -np.sum(Y * np.log(AL + 1e-9)) / m].  For an
    entry of [AL] at or below [-1e-9] NumPy answers [nan] or [-inf] with a
    warning, and [nan] or [inf] for [m = 0]; the logarithm and the inverse
    of the real numbers are not specified there. *)
Definition compute_cost (AL Y : array2 R) : result R :=
  let m := snd (shape2 Y) in
  p <- zip2 Rmult Y (map2 (fun a => ln (a + epsilon)) AL) ;;
  Ok (- sum2R p / INR m)%R.

End ConvNet2D.

(* ================================================================== *)
(** * Vocabulary of the statements *)
(* ================================================================== *)

Local Open Scope Q_scope.

(** ** Additive updates of an array *)

Definition idx4 : Type := nat -> nat -> nat -> nat -> Q.

(** [T'] has the shape of [T] and its entries are those of [T] plus [d]. *)
Definition adds (T T' : array4) (d : idx4) : Prop :=
  shape4 T' = shape4 T /\
  forall i r q c, at4 T' i r q c == at4 T i r q c + d i r q c.


(** ** Pooling windows *)

(** The window of output position [(h, w)] holds the input cell [(r, q)]. *)
Definition in_window (f stride h w r q : nat) : bool :=
  within (h * stride) f r && within (w * stride) f q.

(** The cells of the window of output position [(h, w)], row by row. *)
Definition window_cells (A_prev : array4) (f stride i h w c : nat) : list Q :=
  flat_map (fun r => map (fun q => at4 A_prev i (h * stride + r) (w * stride + q) c)
                         (seq 0 f))
           (seq 0 f).

Definition list_max (xs : list Q) : Q :=
  match xs with
  | [] => 0
  | x :: xs' => fold_left Qmax xs' x
  end.

Definition window_max (A_prev : array4) (f stride i h w c : nat) : Q :=
  list_max (window_cells A_prev f stride i h w c).

(** What output position [(h, w)] sends to input cell [(r, q)] in max mode:
    the whole upstream value when the cell holds the window's maximum. *)
Definition max_share (A_prev dA : array4) (f stride i h w r q c : nat) : Q :=
  if in_window f stride h w r q
     && Qeq_bool (at4 A_prev i r q c) (window_max A_prev f stride i h w c)
  then at4 dA i h w c else 0.

(** What output position [(h, w)] sends to input cell [(r, q)] in average
    mode. *)
Definition average_share (dA : array4) (f stride i h w r q c : nat) : Q :=
  if in_window f stride h w r q then at4 dA i h w c / Qnat (f * f) else 0.

(** The update made by iteration [(i, h, w, c)] of a pooling backward loop
    whose share function is [share]. *)
Definition step_delta (share : nat -> nat -> nat -> nat -> nat -> nat -> Q)
  (i h w c : nat) : idx4 :=
  fun i' r q c' =>
    if ((i' =? i) && (c' =? c))%nat then share i' h w r q c' else 0.

(** ** The spec's pooling scenarios *)

(** The window [[5,5],[1,2]] as a one-sample, one-channel input. *)
Definition window_5512 : array4 :=
  mk4 (1, 2, 2, 1)%nat
      (fun _ r q _ => match r, q with
                      | O, _ => 5
                      | _, O => 1
                      | _, _ => 2
                      end).

(** The window [[1,2],[3,4]]. *)
Definition window_1234 : array4 :=
  mk4 (1, 2, 2, 1)%nat
      (fun _ r q _ => match r, q with
                      | O, O => 1
                      | O, _ => 2
                      | _, O => 3
                      | _, _ => 4
                      end).

(** A single upstream gradient value. *)
Definition upstream (g : Q) : array4 := mk4 (1, 1, 1, 1)%nat (fun _ _ _ _ => g).

Definition pool_2x2 (mode : string) : Pooling.t :=
  Pooling.mk (Pooling.mk_hparameters 2 2) mode.

(** Two 2x2 windows moved by 1 over a 2x3 input: they share the middle
    column.  Their upstream values are [4] and [8]. *)
Definition pool_2x2_by_1 : Pooling.t :=
  Pooling.mk (Pooling.mk_hparameters 2 1) "average".

Definition upstream_4_8 : array4 :=
  mk4 (1, 1, 2, 1)%nat (fun _ _ w _ => match w with O => 4 | _ => 8 end).

(** ** Convolution *)

(** The dot product of two [(f, f, C)] volumes. *)
Definition dot3 (x y : array3) (f C : nat) : Q :=
  sum_n f (fun i => sum_n f (fun j => sum_n C (fun k =>
    at3 x i j k * at3 y i j k))).

(** ** Construction of the network *)

(** Every one of the first [n] layers has a pooling flag and the flag is
    [False]; vacuous when [pooling] is [None]. *)
Definition no_pooling_requested (pooling : option (list bool)) (n : nat) : bool :=
  match pooling with
  | None => true
  | Some flags =>
      forallb (fun i => match nth_error flags i with
                        | Some false => true
                        | _ => false
                        end)
              (seq 0 n)
  end.

(** The flag of layer [i] is there and is [False], or no flags were given. *)
Definition flag_clear (pooling : option (list bool)) (i : nat) : bool :=
  match pooling with
  | None => true
  | Some flags => match nth_error flags i with
                  | Some false => true
                  | _ => false
                  end
  end.

(** The samples handed to the constructor in the concrete scenarios. *)
Definition zero_samples : Conv2d.RandomState := fun _ => 0.

(** ** A two-channel convolution scenario *)

Definition ones4 (shape : nat * nat * nat * nat) : array4 :=
  mk4 shape (fun _ _ _ _ => 1).

(** One 1x1 filter over two input channels, all weights [1], bias [1],
    stride 1 and no padding. *)
Definition conv_1x1 : Conv2d.t :=
  Conv2d.mk 2 1 1 (Conv2d.mk_hparameters 1 0)
            (ones4 (1, 1, 2, 1)%nat) (ones4 (1, 1, 1, 1)%nat).

(** One sample, one pixel, two channels, both [1]. *)
Definition pixel_11 : array4 := ones4 (1, 1, 1, 2)%nat.

(** The module's names extended with a global [ReLU] bound to
    [Conv2d.ReLU]. *)
Definition globals_with_ReLU : globals :=
  ("ReLU"%string, GFunction Conv2d.ReLU) :: module_globals.

(** ** Output sizes *)

(** [floor((n_prev - f + 2 * pad) / stride) + 1] over the integers. *)
Definition floor_dim (n_prev f pad stride : nat) : Z :=
  ((Z.of_nat n_prev - Z.of_nat f + 2 * Z.of_nat pad) / Z.of_nat stride + 1)%Z.

(** A 3x3 max-pooling window moved by 2. *)
Definition pool_3x3_by_2 : Pooling.t :=
  Pooling.mk (Pooling.mk_hparameters 3 2) "max".

(** ** The spec's fully-connected scenario *)

(** Predicted probabilities [[0.7, 0.3]] for one example. *)
Definition probs_07_03 : array2 Q :=
  mk2 (2, 1)%nat (fun i _ => match i with O => 7 # 10 | _ => 3 # 10 end).

(** The one-hot label [[1, 0]]. *)
Definition label_1_0 : array2 Q :=
  mk2 (2, 1)%nat (fun i _ => match i with O => 1 | _ => 0 end).

(** A cached input of three features and a 2x3 weight snapshot. *)
Definition input_123 : array2 Q := mk2 (3, 1)%nat (fun i _ => Qnat (i + 1)).
Definition weights_2x3 : array2 Q := mk2 (2, 3)%nat (fun i j => Qnat (i + j)).
Definition bias_2 : array2 Q := mk2 (2, 1)%nat (fun _ _ => 0).

Definition fc_3_2 : FullyConnected.t :=
  FullyConnected.mk 3 2 weights_2x3 bias_2.

(** ** The spec's softmax scenario *)

(** The logits [[1000, 1000, 1000]] of one example, one class per row. *)
Definition logits_1000 : array2 R := mk2 (3, 1)%nat (fun _ _ => 1000%R).

(** The maximum of column [j] over the rows [0 .. n-1]. *)
Definition column_max (X : array2 R) (n j : nat) : R :=
  max_upto (n - 1) (fun i => at2 X i j).

(** The real number a float stands for; [0] for [inf] and [nan], which the
    statements rule out by naming the [Fin]. *)
Definition finite_value (a : float) : R :=
  match a with
  | Fin r => r
  | _ => 0%R
  end.

(** ** Arrays written cell by cell *)

Definition cells : Type := nat -> nat -> nat -> nat -> Prop.

(** [T'] has the shape of [T]; it holds [v] at every cell of [P], and at any
    other cell either what [T] held or [v]. *)
Definition fills (v : idx4) (P : cells) (T T' : array4) : Prop :=
  shape4 T' = shape4 T
  /\ (forall i h w c, P i h w c -> at4 T' i h w c = v i h w c)
  /\ (forall i h w c,
        at4 T' i h w c = at4 T i h w c \/ at4 T' i h w c = v i h w c).

(** The cell written by iteration [(i, h, w, c)]. *)
Definition cell_is (i h w c : nat) : cells :=
  fun i' h' w' c' => i' = i /\ h' = h /\ w' = w /\ c' = c.

(** The sum of the window of output position [(h, w)]. *)
Definition window_sum (A_prev : array4) (f stride i h w c : nat) : Q :=
  sum_n f (fun r => sum_n f (fun q =>
    at4 A_prev i (h * stride + r) (w * stride + q) c)).

(** ** Convolution, cell by cell *)

(** The value [Conv2d.forward] computes for output cell [(i, h, w, c)] of an
    input whose padded planes are [Hp] by [Wp]: the result of
    [conv_single_step] on the window, the filter and the bias of the cell. *)
Definition conv_value (self : Conv2d.t) (A_prev : array4)
  (Hp Wp C f stride : nat) (i h w c : nat) : Q :=
  match lastaxis (Conv2d.W self) c, lastaxis (Conv2d.b self) c with
  | Ok weights, Ok biases =>
      match Conv2d.conv_single_step
              (slice3 (mk3 (Hp, Wp, C) (at4 (Conv2d.zero_pad self A_prev) i))
                      (h * stride) (h * stride + f)
                      (w * stride) (w * stride + f))
              weights biases with
      | Ok z => z
      | Raise _ => 0
      end
  | _, _ => 0
  end.

(** The pre-activation and activation volumes are filled together. *)
Definition fills_pair (vZ vA : idx4) (P : cells)
  (s s' : array4 * array4) : Prop :=
  fills vZ P (fst s) (fst s') /\ fills vA P (snd s) (snd s').

(** The spec's end-to-end scenario: a 5x5 one-channel input of ones and a
    single 3x3 filter of ones with bias 0, stride 1, no padding. *)
Definition conv_3x3_ones : Conv2d.t :=
  Conv2d.mk 1 3 1 (Conv2d.mk_hparameters 1 0)
            (ones4 (3, 3, 1, 1)%nat) (zeros4 (1, 1, 1, 1)%nat).

(** A 3x3 filter of ones with bias 0, stride 1 and a padding of 1. *)
Definition conv_3x3_pad_1 : Conv2d.t :=
  Conv2d.mk 1 3 1 (Conv2d.mk_hparameters 1 1)
            (ones4 (3, 3, 1, 1)%nat) (zeros4 (1, 1, 1, 1)%nat).

(** The sum of plane [(i, c)] of a volume, read as [H] by [W]. *)
Definition plane_sum (T : array4) (H W i c : nat) : Q :=
  sum_n H (fun r => sum_n W (fun q => at4 T i r q c)).

(** ** The layers the constructor builds *)

(** The input channels of layer [k]: the network's for the first layer, the
    previous layer's filters for the others. *)
Definition channels_into (in_channels : nat) (num_filters : list nat) (k : nat)
  : nat :=
  match k with
  | O => in_channels
  | S j => nth j num_filters O
  end.

(** Layer [i] is built from entry [i] of the filter, size and stride lists,
    with no padding. *)
Definition layer_as_listed (in_channels : nat)
  (num_filters filter_sizes strides : list nat) (i : nat) (l : Conv2d.t) : Prop :=
  Conv2d.hparams l = Conv2d.mk_hparameters (nth i strides O) O
  /\ shape4 (Conv2d.W l)
     = (nth i filter_sizes O, nth i filter_sizes O,
        channels_into in_channels num_filters i, nth i num_filters O)
  /\ shape4 (Conv2d.b l) = (1, 1, 1, nth i num_filters O)%nat.

(** ** Logits and labels for the softmax and the cost *)

(** The logits [[0, 0, 0]]: those of [logits_1000], each less [1000]. *)
Definition logits_0 : array2 R := mk2 (3, 1)%nat (fun _ _ => 0%R).

(** The logits [[0, 1]] of one example. *)
Definition logits_0_1 : array2 R := mk2 (2, 1)%nat (fun i _ => INR i).

(** The logits [[0, -1000]] of one example. *)
Definition logits_0_minus_1000 : array2 R :=
  mk2 (2, 1)%nat (fun i _ => if (i =? 0)%nat then 0%R else (- 1000)%R).

(** No class at all, for four examples. *)
Definition logits_none : array2 R := mk2 (0, 4)%nat (fun _ _ => 0%R).

(** The one-hot label [[1, 0]] of one example, as floats. *)
Definition one_hot_1_0 : array2 R :=
  mk2 (2, 1)%nat (fun i _ => if (i =? 0)%nat then 1%R else 0%R).

(** The probabilities [[0, 1]]: all the mass on the wrong class. *)
Definition probs_0_1 : array2 R :=
  mk2 (2, 1)%nat (fun i _ => if (i =? 0)%nat then 0%R else 1%R).

(** ** A freshly built fully connected layer *)

(** The samples [1, 2, 3, ...] in place of [np.random]'s. *)
Definition samples_from_1 : Conv2d.RandomState := fun n => Qnat (S n).
(* ================================================================== *)
(** * Loops and sums *)
(* ================================================================== *)

Lemma for_app {S : Type} (xs ys : list nat) (s : S) body :
  for_ (xs ++ ys) s body = Py.bind (for_ xs s body) (fun s' => for_ ys s' body).
Proof.
  revert s; induction xs as [|x xs IH]; intros s; simpl; [reflexivity|].
  destruct (body x s) as [s'|e]; simpl; [apply IH | reflexivity].
Qed.

Lemma range_S (n : nat) : range (S n) = range n ++ [n].
Proof. unfold range. rewrite seq_S. reflexivity. Qed.

(** A loop whose every iteration succeeds and keeps an invariant succeeds
    and keeps it. *)
Lemma for_range_inv {S : Type} (P : nat -> S -> Prop) (n : nat) body (s0 : S) :
  P O s0 ->
  (forall x s, (x < n)%nat -> P x s -> exists s', body x s = Ok s' /\ P (Datatypes.S x) s') ->
  exists s', for_ (range n) s0 body = Ok s' /\ P n s'.
Proof.
  intros H0 Hstep. induction n as [|n IH].
  - exists s0. split; [reflexivity | assumption].
  - destruct IH as [s1 [E1 P1]].
    { intros x s Hx. apply Hstep. lia. }
    destruct (Hstep n s1 (Nat.lt_succ_diag_r n) P1) as [s2 [E2 P2]].
    exists s2. split; [|assumption].
    rewrite range_S, for_app, E1. simpl. rewrite E2. reflexivity.
Qed.

(** A loop leaves at its first raising iteration. *)
Lemma for_range_raise {S : Type} (n : nat) body (s0 : S) (e : exn) :
  (0 < n)%nat -> body O s0 = Raise e -> for_ (range n) s0 body = Raise e.
Proof.
  intros Hn Hb. destruct n as [|n]; [lia|].
  unfold range. simpl. rewrite Hb. reflexivity.
Qed.

(** A loop whose iterations all hand the state back unchanged. *)
Lemma for_range_idle {St : Type} (n : nat) body (s0 : St) :
  (forall x, (x < n)%nat -> body x s0 = Ok s0) -> for_ (range n) s0 body = Ok s0.
Proof.
  intros Hb.
  destruct (@for_range_inv St (fun _ s => s = s0) n body s0 eq_refl)
    as [s [E ->]]; [|exact E].
  intros x s Hx ->. exists s0. split; [apply Hb; exact Hx|reflexivity].
Qed.

Lemma sum_n_ext (n : nat) (f g : nat -> Q) :
  (forall x, (x < n)%nat -> f x == g x) -> sum_n n f == sum_n n g.
Proof.
  induction n as [|n IH]; intros H; simpl; [reflexivity|].
  rewrite IH, (H n) by (intros; try apply H; lia). reflexivity.
Qed.

Lemma sum_n_zero (n : nat) (f : nat -> Q) :
  (forall x, (x < n)%nat -> f x == 0) -> sum_n n f == 0.
Proof.
  induction n as [|n IH]; intros H; simpl; [reflexivity|].
  rewrite IH, (H n) by (intros; try apply H; lia). ring.
Qed.

Lemma sum_n_const (n : nat) (v : Q) : sum_n n (fun _ => v) == Qnat n * v.
Proof.
  induction n as [|n IH]; simpl.
  - unfold Qnat. simpl. ring.
  - rewrite IH. unfold Qnat. rewrite Nat2Z.inj_succ. unfold Z.succ.
    rewrite inject_Z_plus. ring.
Qed.

Lemma sum_n_plus (n : nat) (f g : nat -> Q) :
  sum_n n (fun x => f x + g x) == sum_n n f + sum_n n g.
Proof.
  induction n as [|n IH]; simpl; [ring|]. rewrite IH. ring.
Qed.

Lemma sum_n_if (b : bool) (n : nat) (f : nat -> Q) :
  sum_n n (fun x => if b then f x else 0) == if b then sum_n n f else 0.
Proof.
  destruct b; [reflexivity|]. apply sum_n_zero. reflexivity.
Qed.

(** Only the term at [k] is not zero. *)
Lemma sum_n_single (n k : nat) (f : nat -> Q) :
  (k < n)%nat ->
  (forall x, (x < n)%nat -> x <> k -> f x == 0) ->
  sum_n n f == f k.
Proof.
  induction n as [|n IH]; intros Hk H; [lia|]. simpl.
  destruct (Nat.eq_dec k n) as [->|Hne].
  - rewrite sum_n_zero; [ring|]. intros x Hx. apply H; lia.
  - rewrite IH, (H n) by (intros; try apply H; lia). ring.
Qed.

Lemma sum_n_pick (n k : nat) (v : Q) :
  sum_n n (fun x => if (k =? x)%nat then v else 0)
  == if (k <? n)%nat then v else 0.
Proof.
  destruct (k <? n)%nat eqn:E.
  - apply Nat.ltb_lt in E.
    rewrite (sum_n_single (k := k)); [rewrite Nat.eqb_refl; reflexivity|lia|].
    intros x _ Hx. destruct (Nat.eqb_spec k x); [congruence|reflexivity].
  - apply Nat.ltb_ge in E. apply sum_n_zero. intros x Hx.
    destruct (Nat.eqb_spec k x); [lia|reflexivity].
Qed.

(** A loop of additive updates adds the sum of the updates. *)
Lemma adds_range (n : nat) body (d : nat -> idx4) (T0 : array4) :
  (forall x T, (x < n)%nat -> shape4 T = shape4 T0 ->
     exists T', body x T = Ok T' /\ adds T T' (d x)) ->
  exists T', for_ (range n) T0 body = Ok T' /\
             adds T0 T' (fun i r q c => sum_n n (fun x => d x i r q c)).
Proof.
  intros Hstep.
  apply (for_range_inv
           (fun k T => adds T0 T (fun i r q c => sum_n k (fun x => d x i r q c)))).
  - split; [reflexivity|]. intros; simpl. ring.
  - intros x T Hx [Hs Ha].
    destruct (Hstep x T Hx Hs) as [T' [E [Hs' Ha']]].
    exists T'. split; [assumption|]. split; [congruence|].
    intros i r q c. simpl. rewrite Ha', Ha. ring.
Qed.

(* ================================================================== *)
(** * Slices and windows *)
(* ================================================================== *)

Lemma slen_full (vs f n : nat) : (vs + f <= n)%nat -> slen vs (vs + f) n = f.
Proof. intros H. unfold slen. lia. Qed.

Lemma bidx_within (vs f r : nat) :
  within vs f r = true -> (vs + bidx f (r - vs))%nat = r.
Proof.
  unfold within, bidx. intros H. apply andb_true_iff in H as [H1 H2].
  apply Nat.leb_le in H1. apply Nat.ltb_lt in H2.
  destruct (Nat.eqb_spec f 1); lia.
Qed.

Lemma bto_refl (n : nat) : bto n n = Ok tt.
Proof. unfold bto. rewrite Nat.eqb_refl. reflexivity. Qed.

Lemma window_cells_nonempty A_prev f stride i h w c :
  (1 <= f)%nat -> window_cells A_prev f stride i h w c <> [].
Proof.
  intros Hf. unfold window_cells. destruct f as [|f]; [lia|]. simpl. discriminate.
Qed.

Lemma max2_window (A_prev : array4) (f stride i h w c : nat) :
  (1 <= f)%nat ->
  max2 (mk2 (f, f)
            (fun r q => at4 A_prev i (h * stride + r) (w * stride + q) c))
  = Ok (window_max A_prev f stride i h w c).
Proof.
  intros Hf. unfold max2, window_max, list_max, elems2. simpl.
  fold (window_cells A_prev f stride i h w c).
  pose proof (window_cells_nonempty A_prev stride i h w c Hf) as Hne.
  destruct (window_cells A_prev f stride i h w c); [congruence|reflexivity].
Qed.

Lemma fold_Qmax_ge (xs : list Q) (x : Q) : x <= fold_left Qmax xs x.
Proof.
  revert x; induction xs as [|y xs IH]; intros x; simpl; [apply Qle_refl|].
  eapply Qle_trans; [apply Q.le_max_l | apply IH].
Qed.

Lemma fold_Qmax_upper (xs : list Q) (x y : Q) :
  In y xs -> y <= fold_left Qmax xs x.
Proof.
  revert x; induction xs as [|z xs IH]; intros x Hin; simpl in *; [tauto|].
  destruct Hin as [->|Hin]; [|apply IH; assumption].
  eapply Qle_trans; [apply Q.le_max_r | apply fold_Qmax_ge].
Qed.

Lemma fold_Qmax_attained (xs : list Q) (x : Q) :
  fold_left Qmax xs x = x \/ In (fold_left Qmax xs x) xs.
Proof.
  revert x; induction xs as [|z xs IH]; intros x; simpl; [left; reflexivity|].
  destruct (IH (Qmax x z)) as [E|Hin]; [|right; right; assumption].
  rewrite E. unfold Qmax, GenericMinMax.gmax.
  destruct (x ?= z); [left|right; left|left]; reflexivity.
Qed.

Lemma list_max_upper (xs : list Q) (y : Q) : In y xs -> y <= list_max xs.
Proof.
  destruct xs as [|x xs]; simpl; [tauto|]. intros [->|Hin].
  - apply fold_Qmax_ge.
  - apply fold_Qmax_upper; assumption.
Qed.

Lemma list_max_attained (xs : list Q) : xs <> [] -> In (list_max xs) xs.
Proof.
  destruct xs as [|x xs]; [congruence|]. intros _. simpl.
  destruct (fold_Qmax_attained xs x) as [E|Hin]; [left; symmetry|right]; assumption.
Qed.

Lemma in_window_cells A_prev f stride i h w c r q :
  in_window f stride h w r q = true ->
  In (at4 A_prev i r q c) (window_cells A_prev f stride i h w c).
Proof.
  unfold in_window, within. intros H.
  apply andb_true_iff in H as [Hr Hq].
  apply andb_true_iff in Hr as [Hr1 Hr2]. apply andb_true_iff in Hq as [Hq1 Hq2].
  apply Nat.leb_le in Hr1, Hq1. apply Nat.ltb_lt in Hr2, Hq2.
  unfold window_cells. apply in_flat_map. exists (r - h * stride)%nat. split.
  - apply in_seq. lia.
  - apply in_map_iff. exists (q - w * stride)%nat. split.
    + f_equal; lia.
    + apply in_seq. lia.
Qed.

(* ================================================================== *)
(** * Pooling.backward *)
(* ================================================================== *)

Ltac ltb_true H := rewrite (proj2 (Nat.ltb_lt _ _) H).

Section PoolingBackward.

Variables (self : Pooling.t) (A_prev dA : array4).
Variables (m H W C n_H n_W f stride : nat).

Hypothesis HA : shape4 A_prev = (m, H, W, C).
Hypothesis HdA : shape4 dA = (m, n_H, n_W, C).
Hypothesis Hf : (1 <= f)%nat.
Hypothesis HH : forall h, (h < n_H)%nat -> (h * stride + f <= H)%nat.
Hypothesis HW : forall w, (w < n_W)%nat -> (w * stride + f <= W)%nat.

Lemma get4_dA i h w c :
  (i < m)%nat -> (h < n_H)%nat -> (w < n_W)%nat -> (c < C)%nat ->
  get4 dA i h w c = Ok (at4 dA i h w c).
Proof.
  intros Hi Hh Hw Hc. unfold get4. rewrite HdA.
  ltb_true Hi. ltb_true Hh. ltb_true Hw. ltb_true Hc. reflexivity.
Qed.

Lemma backward_step_max i h w c T :
  Pooling.mode self = "max"%string ->
  (i < m)%nat -> (h < n_H)%nat -> (w < n_W)%nat -> (c < C)%nat ->
  shape4 T = (m, H, W, C) ->
  exists T',
    Pooling.backward_step self dA (mk3 (H, W, C) (at4 A_prev i))
      f stride i h w c T = Ok T'
    /\ adds T T' (step_delta (max_share A_prev dA f stride) i h w c).
Proof.
  intros Hmode Hi Hh Hw Hc HT.
  unfold Pooling.backward_step. rewrite Hmode, String.eqb_refl.
  unfold slice3c. cbn [shape3 at3]. ltb_true Hc.
  rewrite !slen_full by auto. cbn [Py.bind].
  rewrite max2_window by assumption. cbn [Py.bind].
  rewrite get4_dA by assumption. cbn [Py.bind].
  unfold iadd_slice4c. rewrite HT. cbn [scale_mask eq2 shape2 at2].
  ltb_true Hi. ltb_true Hc. cbn [andb negb].
  rewrite !slen_full by auto. rewrite bto_refl. cbn [Py.bind].
  eexists. split; [reflexivity|]. split; [cbn; congruence|].
  intros i' r q c'. cbn [at4]. unfold step_delta, max_share, in_window.
  destruct (Nat.eqb_spec i' i) as [->|]; cbn [andb]; [|ring].
  destruct (Nat.eqb_spec c' c) as [->|]; cbn [andb]; [|ring].
  destruct (within (h * stride) f r) eqn:Er; cbn [andb]; [|ring].
  destruct (within (w * stride) f q) eqn:Eq; cbn [andb]; [|ring].
  rewrite (bidx_within _ _ _ Er), (bidx_within _ _ _ Eq).
  destruct (Qeq_bool _ _); ring.
Qed.

Lemma backward_step_average i h w c T :
  Pooling.mode self = "average"%string ->
  (i < m)%nat -> (h < n_H)%nat -> (w < n_W)%nat -> (c < C)%nat ->
  shape4 T = (m, H, W, C) ->
  exists T',
    Pooling.backward_step self dA (mk3 (H, W, C) (at4 A_prev i))
      f stride i h w c T = Ok T'
    /\ adds T T' (step_delta (average_share dA f stride) i h w c).
Proof.
  intros Hmode Hi Hh Hw Hc HT.
  unfold Pooling.backward_step. rewrite Hmode.
  change (String.eqb "average" "max") with false.
  rewrite String.eqb_refl. cbn iota.
  rewrite get4_dA by assumption. cbn [Py.bind].
  unfold iadd_slice4c. rewrite HT. cbn [full2 shape2 at2].
  ltb_true Hi. ltb_true Hc. cbn [andb negb].
  rewrite !slen_full by auto. rewrite bto_refl. cbn [Py.bind].
  eexists. split; [reflexivity|]. split; [cbn; congruence|].
  intros i' r q c'. cbn [at4]. unfold step_delta, average_share, in_window.
  destruct (Nat.eqb_spec i' i) as [->|]; cbn [andb]; [|ring].
  destruct (Nat.eqb_spec c' c) as [->|]; cbn [andb]; [|ring].
  destruct (within (h * stride) f r) eqn:Er; cbn [andb]; [|ring].
  destruct (within (w * stride) f q) eqn:Eq; cbn [andb]; ring.
Qed.

Lemma step_delta_collapse share i' r q c' :
  (i' < m)%nat -> (c' < C)%nat ->
  sum_n m (fun i => sum_n n_H (fun h => sum_n n_W (fun w => sum_n C (fun c =>
    step_delta share i h w c i' r q c'))))
  == sum_n n_H (fun h => sum_n n_W (fun w => share i' h w r q c')).
Proof.
  intros Hi Hc. rewrite (sum_n_single (k := i')); [|assumption|].
  - apply sum_n_ext; intros h _. apply sum_n_ext; intros w _.
    unfold step_delta. rewrite Nat.eqb_refl. cbn [andb].
    rewrite sum_n_pick. ltb_true Hc. reflexivity.
  - intros i _ Hne. apply sum_n_zero; intros h _.
    apply sum_n_zero; intros w _. apply sum_n_zero; intros c _.
    unfold step_delta. destruct (Nat.eqb_spec i' i); [congruence|reflexivity].
Qed.

(** The four nested loops of [backward], for either mode. *)
Lemma backward_loops share :
  (forall i h w c T,
     (i < m)%nat -> (h < n_H)%nat -> (w < n_W)%nat -> (c < C)%nat ->
     shape4 T = (m, H, W, C) ->
     exists T',
       Pooling.backward_step self dA (mk3 (H, W, C) (at4 A_prev i))
         f stride i h w c T = Ok T'
       /\ adds T T' (step_delta share i h w c)) ->
  exists dA_prev,
    Pooling.backward self dA (A_prev, Pooling.mk_hparameters f stride)
    = Ok dA_prev
    /\ shape4 dA_prev = (m, H, W, C)
    /\ forall i r q c, (i < m)%nat -> (c < C)%nat ->
         at4 dA_prev i r q c
         == sum_n n_H (fun h => sum_n n_W (fun w => share i h w r q c)).
Proof.
  intros Hstep. unfold Pooling.backward. cbn [Pooling.f Pooling.stride].
  rewrite HdA.
  edestruct (@adds_range m) as [T' [E [Hs Ha]]]; [|rewrite E].
  - intros i T Hi HT. cbn [zeros4 shape4] in HT. rewrite HA in HT.
    unfold getitem0. rewrite HA. ltb_true Hi. cbn [Py.bind].
    apply (@adds_range n_H). intros h T1 Hh HT1. rewrite HT in HT1.
    apply (@adds_range n_W). intros w T2 Hw HT2. rewrite HT1 in HT2.
    apply (@adds_range C). intros c T3 Hc HT3. rewrite HT2 in HT3.
    apply Hstep; assumption.
  - exists T'. split; [reflexivity|]. cbn [zeros4 shape4] in Hs.
    split; [congruence|]. intros i r q c Hi Hc.
    rewrite Ha. cbn [zeros4 at4]. rewrite step_delta_collapse by assumption.
    ring.
Qed.

End PoolingBackward.

Lemma within_unique (f stride h h' r : nat) :
  (f <= stride)%nat ->
  within (h * stride) f r = true -> within (h' * stride) f r = true -> h = h'.
Proof.
  unfold within. intros Hfs H1 H2.
  apply andb_true_iff in H1 as [A1 B1]. apply andb_true_iff in H2 as [A2 B2].
  apply Nat.leb_le in A1, A2. apply Nat.ltb_lt in B1, B2.
  destruct (Nat.lt_trichotomy h h') as [L|[E|L]]; [exfalso; nia|exact E|exfalso; nia].
Qed.

(** With windows that do not overlap, only the window holding a cell sends
    it anything. *)
Lemma max_share_disjoint A_prev dA f stride n_H n_W i h w r q c :
  (f <= stride)%nat -> (h < n_H)%nat -> (w < n_W)%nat ->
  in_window f stride h w r q = true ->
  sum_n n_H (fun h' => sum_n n_W (fun w' =>
    max_share A_prev dA f stride i h' w' r q c))
  == if Qeq_bool (at4 A_prev i r q c) (window_max A_prev f stride i h w c)
     then at4 dA i h w c else 0.
Proof.
  intros Hfs Hh Hw Hin.
  pose proof Hin as Hin'. unfold in_window in Hin'.
  apply andb_true_iff in Hin' as [Hr Hq].
  rewrite (sum_n_single (k := h)); [|assumption|].
  - rewrite (sum_n_single (k := w)); [|assumption|].
    + unfold max_share. rewrite Hin. reflexivity.
    + intros w' _ Hne. unfold max_share, in_window.
      destruct (within (w' * stride) f q) eqn:E.
      * exfalso. apply Hne. symmetry. exact (within_unique _ _ _ Hfs Hq E).
      * rewrite andb_false_r. reflexivity.
  - intros h' _ Hne. apply sum_n_zero. intros w' _.
    unfold max_share, in_window.
    destruct (within (h' * stride) f r) eqn:E.
    + exfalso. apply Hne. symmetry. exact (within_unique _ _ _ Hfs Hr E).
    + reflexivity.
Qed.

(** C5.  In max mode [Pooling.backward] succeeds on a cache and an upstream
    gradient of matching shapes; every window maximum is a cell of its
    window bounding the others; each input cell receives, from every window
    that holds it and whose maximum it equals, the whole upstream value of
    that window, ties included and not split; with windows that do not
    overlap, a cell holding the unique maximum of its window receives the
    whole value and every other cell of that window receives zero.  For
    the window [[5,5],[1,2]] and upstream gradient 3 both cells holding 5
    receive 3 and the two others 0. *)
Theorem Pooling_backward_max :
  (forall (self : Pooling.t) (A_prev dA : array4)
      (m H W C n_H n_W f stride : nat),
     Pooling.mode self = "max"%string ->
     shape4 A_prev = (m, H, W, C) ->
     shape4 dA = (m, n_H, n_W, C) ->
     (1 <= f)%nat ->
     (forall h, (h < n_H)%nat -> (h * stride + f <= H)%nat) ->
     (forall w, (w < n_W)%nat -> (w * stride + f <= W)%nat) ->
     exists dA_prev,
       Pooling.backward self dA (A_prev, Pooling.mk_hparameters f stride)
       = Ok dA_prev
       /\ shape4 dA_prev = shape4 A_prev
       /\ (forall i h w c,
             In (window_max A_prev f stride i h w c)
                (window_cells A_prev f stride i h w c)
             /\ forall r q, in_window f stride h w r q = true ->
                  at4 A_prev i r q c <= window_max A_prev f stride i h w c)
       /\ (forall i r q c, (i < m)%nat -> (c < C)%nat ->
             at4 dA_prev i r q c
             == sum_n n_H (fun h => sum_n n_W (fun w =>
                  max_share A_prev dA f stride i h w r q c)))
       /\ ((f <= stride)%nat ->
           forall i h w c, (i < m)%nat -> (h < n_H)%nat -> (w < n_W)%nat ->
             (c < C)%nat ->
             (forall r q, in_window f stride h w r q = true ->
                at4 dA_prev i r q c
                == if Qeq_bool (at4 A_prev i r q c)
                               (window_max A_prev f stride i h w c)
                   then at4 dA i h w c else 0)
             /\ (forall r0 q0,
                   in_window f stride h w r0 q0 = true ->
                   at4 A_prev i r0 q0 c == window_max A_prev f stride i h w c ->
                   (forall r q, in_window f stride h w r q = true ->
                      (r, q) <> (r0, q0) ->
                      ~ at4 A_prev i r q c == window_max A_prev f stride i h w c) ->
                   at4 dA_prev i r0 q0 c == at4 dA i h w c
                   /\ forall r q, in_window f stride h w r q = true ->
                        (r, q) <> (r0, q0) -> at4 dA_prev i r q c == 0)))
  /\
  (exists dA_prev,
     Pooling.backward (pool_2x2 "max") (upstream 3)
       (window_5512, Pooling.mk_hparameters 2 2) = Ok dA_prev
     /\ at4 dA_prev 0 0 0 0 == 3 /\ at4 dA_prev 0 0 1 0 == 3
     /\ at4 dA_prev 0 1 0 0 == 0 /\ at4 dA_prev 0 1 1 0 == 0).
Proof.
  split.
  {
  intros self A_prev dA m H W C n_H n_W f stride Hmode HA HdA Hf HH HW.
  destruct (@backward_loops self A_prev dA m H W C n_H n_W f stride HA HdA
              (max_share A_prev dA f stride)) as [T [E [Hs Hsum]]].
  { intros. eapply backward_step_max; eassumption. }
  exists T. split; [assumption|]. split; [congruence|]. split; [|split].
  - intros i h w c. split.
    + apply list_max_attained. apply window_cells_nonempty. assumption.
    + intros r q Hin. apply list_max_upper. apply in_window_cells. assumption.
  - assumption.
  - intros Hfs i h w c Hi Hh Hw Hc.
    assert (Hcell : forall r q, in_window f stride h w r q = true ->
              at4 T i r q c
              == if Qeq_bool (at4 A_prev i r q c)
                             (window_max A_prev f stride i h w c)
                 then at4 dA i h w c else 0).
    { intros r q Hin. rewrite Hsum by assumption.
      apply max_share_disjoint; assumption. }
    split; [assumption|].
    intros r0 q0 Hin0 Hmax Huniq. split.
    + rewrite Hcell by assumption.
      apply Qeq_bool_iff in Hmax. rewrite Hmax. reflexivity.
    + intros r q Hin Hne. rewrite Hcell by assumption.
      destruct (Qeq_bool _ _) eqn:Eb; [|reflexivity].
      exfalso. apply (Huniq r q Hin Hne). apply Qeq_bool_iff. assumption.
  }
  eexists. split; [vm_compute; reflexivity|].
  repeat split; vm_compute; reflexivity.
Qed.

Lemma Pooling_backward_max_witness :
  Pooling.mode (pool_2x2 "max") = "max"%string
  /\ shape4 window_5512 = (1, 2, 2, 1)%nat
  /\ shape4 (upstream 3) = (1, 1, 1, 1)%nat
  /\ exists dA_prev,
       Pooling.backward (pool_2x2 "max") (upstream 3)
         (window_5512, Pooling.mk_hparameters 2 2) = Ok dA_prev
       /\ shape4 dA_prev = shape4 window_5512
       /\ at4 dA_prev 0 0 0 0
          == sum_n 1 (fun h => sum_n 1 (fun w =>
               max_share window_5512 (upstream 3) 2 2 0 h w 0 0 0)).
Proof.
  split; [reflexivity|]. split; [reflexivity|]. split; [reflexivity|].
  destruct (proj1 Pooling_backward_max (pool_2x2 "max") window_5512 (upstream 3)
              1 2 2 1 1 1 2 2)%nat as [T [E [Hs [_ [Hsum _]]]]];
    try reflexivity; try (intros; lia).
  exists T. split; [exact E|]. split; [exact Hs|].
  apply Hsum; lia.
Defined.

Lemma Qnat_mul (a b : nat) : Qnat (a * b) == Qnat a * Qnat b.
Proof. unfold Qnat. rewrite Nat2Z.inj_mul, inject_Z_mult. reflexivity. Qed.

Lemma Qnat_pos (n : nat) : (1 <= n)%nat -> 0 < Qnat n.
Proof.
  intros H. unfold Qnat. change 0 with (inject_Z 0). rewrite <- Zlt_Qlt. lia.
Qed.

Lemma in_window_offsets (f stride h w r q : nat) :
  (r < f)%nat -> (q < f)%nat ->
  in_window f stride h w (h * stride + r) (w * stride + q) = true.
Proof.
  intros Hr Hq. unfold in_window, within.
  apply andb_true_iff; split; apply andb_true_iff; split;
    try (apply Nat.leb_le; lia); apply Nat.ltb_lt; lia.
Qed.

(** The shares one window sends to its own cells add up to its upstream
    value. *)
Lemma average_share_total (dA : array4) (f stride i h w c : nat) :
  (1 <= f)%nat ->
  sum_n f (fun r => sum_n f (fun q =>
    average_share dA f stride i h w (h * stride + r) (w * stride + q) c))
  == at4 dA i h w c.
Proof.
  intros Hf.
  rewrite (sum_n_ext _ (fun _ => Qnat f * (at4 dA i h w c / Qnat (f * f)))).
  - rewrite sum_n_const, Qnat_mul.
    pose proof (Qnat_pos Hf) as Hpos. field.
    intros E. rewrite E in Hpos. apply (Qlt_irrefl 0). assumption.
  - intros r Hr.
    rewrite (sum_n_ext _ (fun _ => at4 dA i h w c / Qnat (f * f))).
    + apply sum_n_const.
    + intros q Hq. unfold average_share.
      rewrite in_window_offsets by assumption. reflexivity.
Qed.

(** C6.  In average mode [Pooling.backward] succeeds on a cache and an
    upstream gradient of matching shapes; each input cell receives, from
    every window that holds it, that window's upstream value divided by
    [f * f], the contributions of overlapping windows being added up; what
    one window hands to its own cells sums to its upstream value.  For the
    window [[1,2],[3,4]] and upstream gradient 4 every cell receives 1 and
    the four cells together 4; and where two windows with upstream values
    4 and 8 share a column, its cells receive 1 + 2. *)
Theorem Pooling_backward_average :
  (forall (self : Pooling.t) (A_prev dA : array4)
      (m H W C n_H n_W f stride : nat),
     Pooling.mode self = "average"%string ->
     shape4 A_prev = (m, H, W, C) ->
     shape4 dA = (m, n_H, n_W, C) ->
     (1 <= f)%nat ->
     (forall h, (h < n_H)%nat -> (h * stride + f <= H)%nat) ->
     (forall w, (w < n_W)%nat -> (w * stride + f <= W)%nat) ->
     exists dA_prev,
       Pooling.backward self dA (A_prev, Pooling.mk_hparameters f stride)
       = Ok dA_prev
       /\ shape4 dA_prev = shape4 A_prev
       /\ (forall i r q c, (i < m)%nat -> (c < C)%nat ->
             at4 dA_prev i r q c
             == sum_n n_H (fun h => sum_n n_W (fun w =>
                  if in_window f stride h w r q
                  then at4 dA i h w c / Qnat (f * f) else 0)))
       /\ (forall i h w c,
             sum_n f (fun r => sum_n f (fun q =>
               average_share dA f stride i h w
                 (h * stride + r) (w * stride + q) c))
             == at4 dA i h w c))
  /\
  (exists dA_prev,
     Pooling.backward (pool_2x2 "average") (upstream 4)
       (window_1234, Pooling.mk_hparameters 2 2) = Ok dA_prev
     /\ at4 dA_prev 0 0 0 0 == 1 /\ at4 dA_prev 0 0 1 0 == 1
     /\ at4 dA_prev 0 1 0 0 == 1 /\ at4 dA_prev 0 1 1 0 == 1
     /\ at4 dA_prev 0 0 0 0 + at4 dA_prev 0 0 1 0
        + at4 dA_prev 0 1 0 0 + at4 dA_prev 0 1 1 0 == 4)
  /\
  (exists dA_prev,
     Pooling.backward pool_2x2_by_1 upstream_4_8
       (zeros4 (1, 2, 3, 1)%nat, Pooling.mk_hparameters 2 1) = Ok dA_prev
     /\ at4 dA_prev 0 0 0 0 == 1 /\ at4 dA_prev 0 0 1 0 == 1 + 2
     /\ at4 dA_prev 0 0 2 0 == 2).
Proof.
  split.
  - intros self A_prev dA m H W C n_H n_W f stride Hmode HA HdA Hf HH HW.
    destruct (@backward_loops self A_prev dA m H W C n_H n_W f stride HA HdA
                (average_share dA f stride)) as [T [E [Hs Hsum]]].
    { intros. eapply backward_step_average; eassumption. }
    exists T. split; [assumption|]. split; [congruence|]. split.
    + intros i r q c Hi Hc. rewrite Hsum by assumption. reflexivity.
    + intros i h w c. apply average_share_total. assumption.
  - split.
    + eexists. split; [vm_compute; reflexivity|].
      repeat split; vm_compute; reflexivity.
    + eexists. split; [vm_compute; reflexivity|].
      repeat split; vm_compute; reflexivity.
Qed.

Lemma Pooling_backward_average_witness :
  Pooling.mode (pool_2x2 "average") = "average"%string
  /\ shape4 window_1234 = (1, 2, 2, 1)%nat
  /\ shape4 (upstream 4) = (1, 1, 1, 1)%nat
  /\ exists dA_prev,
       Pooling.backward (pool_2x2 "average") (upstream 4)
         (window_1234, Pooling.mk_hparameters 2 2) = Ok dA_prev
       /\ shape4 dA_prev = shape4 window_1234
       /\ at4 dA_prev 0 1 1 0
          == sum_n 1 (fun h => sum_n 1 (fun w =>
               if in_window 2 2 h w 1 1
               then at4 (upstream 4) 0 h w 0 / Qnat (2 * 2) else 0)).
Proof.
  split; [reflexivity|]. split; [reflexivity|]. split; [reflexivity|].
  destruct (proj1 Pooling_backward_average (pool_2x2 "average") window_1234
              (upstream 4) 1 2 2 1 1 1 2 2)%nat as [T [E [Hs [Hsum _]]]];
    try reflexivity; try (intros; lia).
  exists T. split; [exact E|]. split; [exact Hs|].
  apply Hsum; lia.
Defined.

(* ================================================================== *)
(** * Output dimensions *)
(* ================================================================== *)

Lemma inject_Z_pos_neq (s : nat) : (1 <= s)%nat -> ~ inject_Z (Z.of_nat s) == 0.
Proof.
  intros Hs E. unfold Qeq in E. simpl in E. lia.
Qed.

Lemma Conv2d_out_dim_floor (n f pad stride : nat) :
  (1 <= stride)%nat ->
  Conv2d.out_dim n f pad stride = Ok (floor_dim n f pad stride).
Proof.
  intros Hs. unfold Conv2d.out_dim, floor_dim.
  destruct (Nat.eqb_spec stride 0); [lia|].
  rewrite <- Zdiv_Qdiv. reflexivity.
Qed.

Lemma Pooling_out_dim_floor (n f stride : nat) :
  (1 <= stride)%nat -> (f <= n)%nat ->
  Pooling.out_dim n f stride
  = Ok ((Z.of_nat n - Z.of_nat f) / Z.of_nat stride + 1)%Z.
Proof.
  intros Hs Hfn. unfold Pooling.out_dim.
  destruct (Nat.eqb_spec stride 0); [lia|]. f_equal.
  set (a := (Z.of_nat n - Z.of_nat f)%Z). set (s := Z.of_nat stride).
  assert (Ha : (0 <= a)%Z) by (unfold a; lia).
  assert (Hs' : (0 < s)%Z) by (unfold s; lia).
  assert (E : 1 + inject_Z a / inject_Z s == inject_Z (1 * s + a) / inject_Z s).
  { rewrite inject_Z_plus, inject_Z_mult. field.
    apply inject_Z_pos_neq. assumption. }
  assert (Hnn : 0 <= 1 + inject_Z a / inject_Z s).
  { rewrite E.
    apply Qle_trans with (inject_Z (Qfloor (inject_Z (1 * s + a) / inject_Z s)));
      [|apply Qfloor_le].
    rewrite <- Zdiv_Qdiv. change 0 with (inject_Z 0). rewrite <- Zle_Qle.
    apply Z.div_pos; lia. }
  unfold Pooling.int. apply Qle_bool_iff in Hnn. rewrite Hnn.
  rewrite E, <- Zdiv_Qdiv, Z.div_add_l by lia. lia.
Qed.

(** Every window of a computed output position lies inside the input. *)
Lemma window_fits (n f stride h : nat) :
  (1 <= stride)%nat -> (f <= n)%nat ->
  (h < Z.to_nat ((Z.of_nat n - Z.of_nat f) / Z.of_nat stride + 1))%nat ->
  (h * stride + f <= n)%nat.
Proof.
  intros Hs Hfn Hh.
  assert (Hq : (0 <= (Z.of_nat n - Z.of_nat f) / Z.of_nat stride)%Z)
    by (apply Z.div_pos; lia).
  assert (Hm : (Z.of_nat stride * ((Z.of_nat n - Z.of_nat f) / Z.of_nat stride)
                <= Z.of_nat n - Z.of_nat f)%Z)
    by (apply Z.mul_div_le; lia).
  nia.
Qed.

Lemma set4_ok (T : array4) (m H W C i h w c : nat) (v : Q) :
  shape4 T = (m, H, W, C) ->
  (i < m)%nat -> (h < H)%nat -> (w < W)%nat -> (c < C)%nat ->
  exists T', set4 T i h w c v = Ok T' /\ shape4 T' = (m, H, W, C)
             /\ at4 T' i h w c = v.
Proof.
  intros HT Hi Hh Hw Hc. unfold set4. rewrite HT.
  ltb_true Hi. ltb_true Hh. ltb_true Hw. ltb_true Hc. cbn [andb].
  eexists. split; [reflexivity|]. split; [reflexivity|].
  cbn [at4]. rewrite !Nat.eqb_refl. reflexivity.
Qed.

Lemma np_zeros4_ok (m : nat) (n_H n_W : Z) (n_C : nat) :
  (0 <= n_H)%Z -> (0 <= n_W)%Z ->
  np_zeros4 m n_H n_W n_C = Ok (zeros4 (m, Z.to_nat n_H, Z.to_nat n_W, n_C)).
Proof.
  intros H1 H2. unfold np_zeros4.
  destruct (Z.ltb_spec n_H 0); [lia|]. destruct (Z.ltb_spec n_W 0); [lia|].
  reflexivity.
Qed.

Lemma floor_dim_pos (n f stride : nat) :
  (1 <= stride)%nat -> (f <= n)%nat ->
  (1 <= (Z.of_nat n - Z.of_nat f) / Z.of_nat stride + 1)%Z.
Proof.
  intros Hs Hfn.
  assert (0 <= (Z.of_nat n - Z.of_nat f) / Z.of_nat stride)%Z
    by (apply Z.div_pos; lia).
  lia.
Qed.

(** [Pooling.forward] on a window that fits the input: it returns, whatever
    the remainder of the division, an output of the floored size. *)
Lemma Pooling_forward_shape (self : Pooling.t) (A_prev : array4)
  (m H W C : nat) :
  shape4 A_prev = (m, H, W, C) ->
  (1 <= Pooling.stride (Pooling.hparams self))%nat ->
  (1 <= Pooling.f (Pooling.hparams self))%nat ->
  (Pooling.f (Pooling.hparams self) <= H)%nat ->
  (Pooling.f (Pooling.hparams self) <= W)%nat ->
  exists A,
    Pooling.forward self A_prev = Ok (A, (A_prev, Pooling.hparams self))
    /\ shape4 A
       = (m,
          Z.to_nat ((Z.of_nat H - Z.of_nat (Pooling.f (Pooling.hparams self)))
                    / Z.of_nat (Pooling.stride (Pooling.hparams self)) + 1),
          Z.to_nat ((Z.of_nat W - Z.of_nat (Pooling.f (Pooling.hparams self)))
                    / Z.of_nat (Pooling.stride (Pooling.hparams self)) + 1),
          C).
Proof.
  set (f := Pooling.f (Pooling.hparams self)).
  set (stride := Pooling.stride (Pooling.hparams self)).
  intros HA Hs Hf HfH HfW.
  unfold Pooling.forward. rewrite HA. fold f stride.
  rewrite !Pooling_out_dim_floor by assumption. cbn [Py.bind].
  pose proof (floor_dim_pos Hs HfH) as HnH.
  pose proof (floor_dim_pos Hs HfW) as HnW.
  rewrite np_zeros4_ok by lia. cbn [Py.bind].
  set (nH := Z.to_nat ((Z.of_nat H - Z.of_nat f) / Z.of_nat stride + 1)).
  set (nW := Z.to_nat ((Z.of_nat W - Z.of_nat f) / Z.of_nat stride + 1)).
  set (P := fun (_ : nat) (A : array4) => shape4 A = (m, nH, nW, C)).
  edestruct (@for_range_inv array4 P m) as [A [E HP]]; [| |rewrite E].
  - reflexivity.
  - intros i A0 Hi HP0. apply (@for_range_inv array4 P nH); [exact HP0|].
    intros h A1 Hh HP1. apply (@for_range_inv array4 P nW); [exact HP1|].
    intros w A2 Hw HP2. apply (@for_range_inv array4 P C); [exact HP2|].
    intros c A3 Hc HP3. unfold P in HP3.
    unfold slice4c, getitem0. rewrite HA. ltb_true Hi. cbn [Py.bind].
    unfold slice3c. cbn [shape3 at3]. ltb_true Hc.
    pose proof (window_fits Hs HfH Hh) as HwH.
    pose proof (window_fits Hs HfW Hw) as HwW.
    rewrite !slen_full by assumption. cbn [Py.bind].
    destruct (String.eqb (Pooling.mode self) "max").
    + rewrite max2_window by assumption. cbn [Py.bind].
      edestruct (set4_ok) as [T' [E' [Hs' _]]];
        [exact HP3|exact Hi|exact Hh|exact Hw|exact Hc|].
      exists T'. split; [exact E'|exact Hs'].
    + destruct (String.eqb (Pooling.mode self) "average").
      * edestruct (set4_ok) as [T' [E' [Hs' _]]];
          [exact HP3|exact Hi|exact Hh|exact Hw|exact Hc|].
        exists T'. split; [exact E'|exact Hs'].
      * exists A3. split; [reflexivity|exact HP3].
  - exists A. split; [reflexivity|exact HP].
Qed.

(* ================================================================== *)
(** * Conv2d.conv_single_step and Conv2d.forward *)
(* ================================================================== *)

Lemma bdim_refl (n : nat) : bdim n n = Ok n.
Proof. unfold bdim. rewrite Nat.eqb_refl. reflexivity. Qed.

Lemma bdim_1_r (n : nat) : bdim n 1 = Ok n.
Proof.
  unfold bdim. destruct (Nat.eqb_spec n 1); [reflexivity|].
  destruct (Nat.eqb_spec n 1); [congruence|reflexivity].
Qed.

Lemma bidx_lt (d i : nat) : (i < d)%nat -> bidx d i = i.
Proof. unfold bidx. intros H. destruct (Nat.eqb_spec d 1); lia. Qed.

(** [conv_single_step] adds the bias to every entry of the product before
    summing: the bias is counted once per entry of the window. *)
Lemma conv_single_step_bias (slice W b : array3) (f C : nat) :
  shape3 slice = (f, f, C) -> shape3 W = (f, f, C) ->
  shape3 b = (1, 1, 1)%nat ->
  exists z, Conv2d.conv_single_step slice W b = Ok z
            /\ z == dot3 slice W f C + Qnat (f * f * C) * at3 b 0 0 0.
Proof.
  intros Hs HW Hb. unfold Conv2d.conv_single_step, multiply3, add3, zip3.
  rewrite Hs, HW, !bdim_refl. cbn [Py.bind shape3 at3]. rewrite Hb.
  rewrite !bdim_1_r. cbn [Py.bind].
  eexists. split; [reflexivity|]. unfold sum3, dot3. cbn [shape3 at3].
  rewrite !Qnat_mul.
  rewrite (sum_n_ext _ (fun i =>
    sum_n f (fun j => sum_n C (fun k => at3 slice i j k * at3 W i j k))
    + Qnat f * (Qnat C * at3 b 0 0 0))).
  { rewrite sum_n_plus, sum_n_const. ring. }
  intros i Hi.
  rewrite (sum_n_ext _ (fun j =>
    sum_n C (fun k => at3 slice i j k * at3 W i j k) + Qnat C * at3 b 0 0 0)).
  { rewrite sum_n_plus, sum_n_const. ring. }
  intros j Hj.
  rewrite (sum_n_ext _ (fun k => at3 slice i j k * at3 W i j k + at3 b 0 0 0)).
  { rewrite sum_n_plus, sum_n_const. ring. }
  intros k Hk.
  rewrite !(bidx_lt Hi), !(bidx_lt Hj), !(bidx_lt Hk).
  cbn [bidx Nat.eqb]. reflexivity.
Qed.

Lemma window_fits_pad (n f pad stride h : nat) :
  (1 <= stride)%nat -> (f <= n + 2 * pad)%nat ->
  (h < Z.to_nat (floor_dim n f pad stride))%nat ->
  (h * stride + f <= n + 2 * pad)%nat.
Proof.
  intros Hs Hfn Hh. unfold floor_dim in Hh.
  apply window_fits; [assumption|assumption|].
  replace (Z.of_nat (n + 2 * pad) - Z.of_nat f)%Z
    with (Z.of_nat n - Z.of_nat f + 2 * Z.of_nat pad)%Z by lia.
  assumption.
Qed.

Lemma floor_dim_pad_pos (n f pad stride : nat) :
  (1 <= stride)%nat -> (f <= n + 2 * pad)%nat ->
  (1 <= floor_dim n f pad stride)%Z.
Proof.
  intros Hs Hfn. unfold floor_dim.
  assert (0 <= (Z.of_nat n - Z.of_nat f + 2 * Z.of_nat pad) / Z.of_nat stride)%Z
    by (apply Z.div_pos; lia).
  lia.
Qed.

Section Conv2dForward.

Variables (self : Conv2d.t) (A_prev : array4).
Variables (m H Wd C f n_C stride pad : nat).

Local Abbreviation nH := (Z.to_nat (floor_dim H f pad stride)).
Local Abbreviation nW := (Z.to_nat (floor_dim Wd f pad stride)).

Hypothesis HA : shape4 A_prev = (m, H, Wd, C).
Hypothesis HW : shape4 (Conv2d.W self) = (f, f, C, n_C).
Hypothesis Hb : shape4 (Conv2d.b self) = (1, 1, 1, n_C)%nat.
Hypothesis Hstride : Conv2d.stride (Conv2d.hparams self) = stride.
Hypothesis Hpad : Conv2d.pad (Conv2d.hparams self) = pad.
Hypothesis Hs : (1 <= stride)%nat.
Hypothesis HfH : (f <= H + 2 * pad)%nat.
Hypothesis HfW : (f <= Wd + 2 * pad)%nat.

(** The start of one iteration of the innermost loop, up to the write of
    the pre-activation value. *)
Lemma forward_pre_activation (i h w c : nat) (Z : array4) :
  (i < m)%nat -> (h < nH)%nat -> (w < nW)%nat -> (c < n_C)%nat ->
  shape4 Z = (m, nH, nW, n_C) ->
  exists weights biases z Z',
    lastaxis (Conv2d.W self) c = Ok weights
    /\ lastaxis (Conv2d.b self) c = Ok biases
    /\ Conv2d.conv_single_step
         (slice3 (mk3 (H + 2 * pad, Wd + 2 * pad, C)%nat
                      (at4 (Conv2d.zero_pad self A_prev) i))
                 (h * stride) (h * stride + f) (w * stride) (w * stride + f))
         weights biases = Ok z
    /\ set4 Z i h w c z = Ok Z'
    /\ shape4 Z' = (m, nH, nW, n_C)
    /\ get4 Z' i h w c = Ok z.
Proof.
  intros Hi Hh Hw Hc HZ.
  unfold lastaxis. rewrite HW, Hb. ltb_true Hc.
  pose proof (@window_fits_pad H f pad stride h Hs HfH Hh) as HwH.
  pose proof (@window_fits_pad Wd f pad stride w Hs HfW Hw) as HwW.
  edestruct (@conv_single_step_bias) as [z [Ez _]]; [| | |].
  4: {
    edestruct (@set4_ok Z m nH nW n_C i h w c z) as [Z' [EZ [HZ' Hv]]];
      try assumption.
    do 4 eexists. split; [reflexivity|]. split; [reflexivity|].
    split; [exact Ez|]. split; [exact EZ|]. split; [exact HZ'|].
    unfold get4. rewrite HZ'. ltb_true Hi. ltb_true Hh. ltb_true Hw.
    ltb_true Hc. cbn [andb]. rewrite Hv. reflexivity. }
  - unfold slice3. cbn [shape3]. rewrite !slen_full by assumption. reflexivity.
  - reflexivity.
  - reflexivity.
Qed.

Lemma zero_pad_shape :
  shape4 (Conv2d.zero_pad self A_prev) = (m, H + 2 * pad, Wd + 2 * pad, C)%nat.
Proof. unfold Conv2d.zero_pad. rewrite HA, Hpad. reflexivity. Qed.

Lemma getitem0_zero_pad (i : nat) :
  (i < m)%nat ->
  getitem0 (Conv2d.zero_pad self A_prev) i
  = Ok (mk3 (H + 2 * pad, Wd + 2 * pad, C)%nat
            (at4 (Conv2d.zero_pad self A_prev) i)).
Proof.
  intros Hi. unfold getitem0. rewrite zero_pad_shape. ltb_true Hi. reflexivity.
Qed.

Lemma nH_pos : (0 < nH)%nat.
Proof. pose proof (@floor_dim_pad_pos H f pad stride Hs HfH). lia. Qed.

Lemma nW_pos : (0 < nW)%nat.
Proof. pose proof (@floor_dim_pad_pos Wd f pad stride Hs HfW). lia. Qed.

(** With the names the module really binds, the first output cell already
    stops [forward]: [ReLU] is not a global name. *)
Lemma forward_raises_NameError :
  (1 <= m)%nat -> (1 <= n_C)%nat ->
  Conv2d.forward module_globals self A_prev = Raise NameError.
Proof.
  intros Hm HnC. unfold Conv2d.forward. rewrite HA, HW, Hstride, Hpad.
  rewrite !Conv2d_out_dim_floor by assumption. cbn [Py.bind].
  pose proof (@floor_dim_pad_pos H f pad stride Hs HfH) as HnH.
  pose proof (@floor_dim_pad_pos Wd f pad stride Hs HfW) as HnW.
  rewrite !np_zeros4_ok by lia. cbn [Py.bind Conv2d.call_zero_pad].
  erewrite for_range_raise; [reflexivity|lia|].
  rewrite getitem0_zero_pad by lia. cbn [Py.bind].
  apply for_range_raise; [apply nH_pos|].
  apply for_range_raise; [apply nW_pos|].
  apply for_range_raise; [lia|].
  destruct (@forward_pre_activation 0 0 0 0 (zeros4 (m, nH, nW, n_C)))
    as [weights [biases [z [Z' [E1 [E2 [E3 [E4 _]]]]]]]];
    try lia; try apply nH_pos; try apply nW_pos; try reflexivity.
  rewrite E1, E2. cbn [Py.bind]. rewrite E3. cbn [Py.bind].
  rewrite E4. reflexivity.
Qed.

(** Were [ReLU] bound to a function, every iteration would succeed. *)
Lemma forward_shape (G : globals) (relu : Q -> Q) :
  load_global G "ReLU" = Ok (GFunction relu) ->
  exists A Z,
    Conv2d.forward G self A_prev
    = Ok (A, ((A_prev, Conv2d.W self, Conv2d.b self, Conv2d.hparams self), Z))
    /\ shape4 A = (m, nH, nW, n_C) /\ shape4 Z = (m, nH, nW, n_C).
Proof.
  intros HG. unfold Conv2d.forward. rewrite HA, HW, Hstride, Hpad.
  rewrite !Conv2d_out_dim_floor by assumption. cbn [Py.bind].
  pose proof (@floor_dim_pad_pos H f pad stride Hs HfH) as HnH.
  pose proof (@floor_dim_pad_pos Wd f pad stride Hs HfW) as HnW.
  rewrite !np_zeros4_ok by lia. cbn [Py.bind Conv2d.call_zero_pad].
  set (P := fun (_ : nat) (ZA : array4 * array4) =>
              shape4 (fst ZA) = (m, nH, nW, n_C)
              /\ shape4 (snd ZA) = (m, nH, nW, n_C)).
  edestruct (@for_range_inv (array4 * array4) P m) as [[Z A] [E [HZ HA']]];
    [| |rewrite E].
  - split; reflexivity.
  - intros i ZA0 Hi HP0. cbv beta. rewrite getitem0_zero_pad by assumption.
    cbn [Py.bind].
    apply (@for_range_inv _ P nH); [exact HP0|]. intros h ZA1 Hh HP1.
    apply (@for_range_inv _ P nW); [exact HP1|]. intros w ZA2 Hw HP2.
    apply (@for_range_inv _ P n_C); [exact HP2|].
    intros c [Z3 A3] Hc [HZ3 HA3]. cbn [fst snd] in HZ3, HA3. cbv beta iota.
    destruct (@forward_pre_activation i h w c Z3 Hi Hh Hw Hc HZ3)
      as [weights [biases [z [Z' [E1 [E2 [E3 [E4 [HZ' E5]]]]]]]]].
    rewrite E1, E2. cbn [Py.bind]. rewrite E3. cbn [Py.bind].
    rewrite E4. cbn [Py.bind]. rewrite HG. cbn [Py.bind].
    rewrite E5. cbn [Py.bind call1].
    destruct (@set4_ok A3 m nH nW n_C i h w c (relu z) HA3 Hi Hh Hw Hc)
      as [A' [E6 [HA'' _]]].
    rewrite E6. cbn [Py.bind]. exists (Z', A'). split; [reflexivity|].
    split; assumption.
  - cbn [Py.bind]. exists A, Z. split; [reflexivity|]. split; assumption.
Qed.

End Conv2dForward.

(* ================================================================== *)
(** * ConvNet2D.__init__ *)
(* ================================================================== *)

Lemma assert_Ok (cond : bool) : assert cond = Ok tt -> cond = true.
Proof. destruct cond; [reflexivity|discriminate]. Qed.

Lemma getitem_lt {A : Type} (xs : list A) (i : nat) :
  (i < List.length xs)%nat -> exists x, getitem xs i = Ok x.
Proof.
  intros Hi. unfold getitem. destruct (nth_error xs i) eqn:E.
  - eexists; reflexivity.
  - apply nth_error_None in E. lia.
Qed.

Section Init.

Variables (num_filters filter_sizes strides paddings : list nat).
Variables (pooling : option (list bool)) (pool_size : option (list nat)).

Hypothesis Hcheck :
  ConvNet2D.check_lengths num_filters filter_sizes strides paddings
    pooling pool_size = Ok tt.

Local Abbreviation n := (List.length num_filters).

Lemma check_lengths_lists :
  List.length filter_sizes = n /\ List.length strides = n
  /\ List.length paddings = n.
Proof.
  unfold ConvNet2D.check_lengths in Hcheck.
  destruct (assert _) as [[]|e] eqn:E in Hcheck; [|discriminate].
  apply assert_Ok in E.
  apply andb_true_iff in E as [E E3]. apply andb_true_iff in E as [E1 E2].
  apply Nat.eqb_eq in E1, E2, E3. lia.
Qed.

Lemma check_lengths_pooling (flags : list bool) :
  pooling = Some flags ->
  exists sizes, pool_size = Some sizes /\ List.length flags = List.length sizes.
Proof.
  intros Hp. unfold ConvNet2D.check_lengths in Hcheck.
  destruct (assert _) as [[]|e] in Hcheck; [|discriminate].
  cbn [Py.bind] in Hcheck. rewrite Hp in Hcheck.
  destruct pool_size as [sizes|]; [|discriminate].
  apply assert_Ok in Hcheck. apply Nat.eqb_eq in Hcheck.
  exists sizes. split; [reflexivity|assumption].
Qed.

Lemma no_pooling_requested_flags (k : nat) :
  no_pooling_requested pooling k = forallb (flag_clear pooling) (seq 0 k).
Proof.
  unfold no_pooling_requested, flag_clear. destruct pooling as [flags|].
  - reflexivity.
  - symmetry. apply forallb_forall. reflexivity.
Qed.

(** One iteration: it goes through when the layer's flag is clear, and
    otherwise stops on the missing flag or on the call [Pooling(size)]. *)
Lemma add_layer_outcome (i : nat) (st : ConvNet2D.loop_state) :
  (i < n)%nat ->
  let r := ConvNet2D.add_layer num_filters filter_sizes strides paddings
             pooling pool_size i st in
  (flag_clear pooling i = true -> exists st', r = Ok st')
  /\ (flag_clear pooling i = false -> r = Raise TypeError \/ r = Raise IndexError).
Proof.
  intros Hi. destruct check_lengths_lists as [L1 [L2 L3]].
  destruct st as [[[in_channels conv_layers] pooling_layers] g].
  unfold ConvNet2D.add_layer. cbv zeta.
  destruct (@getitem_lt _ num_filters i) as [nf Enf]; [lia|].
  destruct (@getitem_lt _ filter_sizes i) as [fs Efs]; [lia|].
  destruct (@getitem_lt _ strides i) as [sd Esd]; [lia|].
  destruct (@getitem_lt _ paddings i) as [pd Epd]; [lia|].
  rewrite Enf, Efs, Esd, Epd. cbn [Py.bind].
  destruct (Conv2d.__init__ in_channels nf fs sd (Conv2d.AInt pd) 0 g)
    as [layer g'].
  cbn [Py.bind]. unfold flag_clear.
  pose proof check_lengths_pooling as Hp.
  destruct pooling as [flags|].
  - destruct (Hp flags eq_refl) as [sizes [Eps Hlen]].
    rewrite Eps.
    assert (Eflag : getitem flags i
                    = match nth_error flags i with
                      | Some x => Ok x
                      | None => Raise IndexError
                      end) by reflexivity.
    rewrite Eflag.
    destruct (nth_error flags i) as [[|]|] eqn:Ef; cbn [Py.bind].
    + assert (Hlt : (i < List.length sizes)%nat).
      { rewrite <- Hlen. apply nth_error_Some. congruence. }
      destruct (getitem_lt sizes Hlt) as [sz Esz]. rewrite Esz.
      cbn [Py.bind Pooling.call].
      split; [discriminate|]. intros _. left. reflexivity.
    + split; [|discriminate]. intros _. eexists. reflexivity.
    + split; [discriminate|]. intros _. right. reflexivity.
  - cbn [Py.bind]. split; [|discriminate]. intros _. eexists. reflexivity.
Qed.

Lemma layer_loop_outcome (k a : nat) (st : ConvNet2D.loop_state) :
  (a + k <= n)%nat ->
  let r := for_ (seq a k) st
             (ConvNet2D.add_layer num_filters filter_sizes strides paddings
                pooling pool_size) in
  (forallb (flag_clear pooling) (seq a k) = true -> exists st', r = Ok st')
  /\ (forallb (flag_clear pooling) (seq a k) = false ->
      r = Raise TypeError \/ r = Raise IndexError).
Proof.
  revert a st. induction k as [|k IH]; intros a st Hak; cbn zeta.
  - cbn. split; [eexists; reflexivity|discriminate].
  - cbn [seq for_ forallb].
    destruct (@add_layer_outcome a st) as [Hok Hbad]; [lia|].
    destruct (flag_clear pooling a) eqn:Ea; cbn [andb].
    + destruct (Hok eq_refl) as [st' E]. rewrite E. cbn [Py.bind].
      apply IH. lia.
    + split; [discriminate|]. intros _.
      destruct (Hbad eq_refl) as [E|E]; rewrite E; [left|right]; reflexivity.
Qed.

(** The constructor never returns; what it raises is decided by the flags. *)
Lemma init_outcome (in_channels out_channels : nat) (g : Conv2d.RandomState) :
  let r := ConvNet2D.__init__ module_globals in_channels out_channels
             num_filters filter_sizes strides paddings pooling pool_size g in
  (exists e, r = Raise e)
  /\ (no_pooling_requested pooling n = true -> r = Raise NameError)
  /\ (no_pooling_requested pooling n = false ->
      r = Raise TypeError \/ r = Raise IndexError).
Proof.
  cbn zeta. unfold ConvNet2D.__init__. rewrite Hcheck. cbn [Py.bind].
  rewrite no_pooling_requested_flags. unfold range.
  destruct (@layer_loop_outcome n 0 (in_channels, [], [], g)) as [Hok Hbad];
    [lia|].
  unfold ConvNet2D.loop_state in Hok, Hbad.
  destruct (forallb (flag_clear pooling) (seq 0 n)).
  - destruct (Hok eq_refl) as [[[[c1 c2] c3] c4] E]. rewrite E.
    split; [exists NameError; reflexivity|].
    split; [reflexivity|discriminate].
  - destruct (Hbad eq_refl) as [E|E]; rewrite E;
      (split; [eexists; reflexivity|]); (split; [discriminate|]); intros _;
      [left|right]; reflexivity.
Qed.

End Init.

Local Close Scope Q_scope.

(** A mismatch among the four per-layer lists stops the constructor at its
    first [assert]. *)
Lemma ConvNet2D_init_list_mismatch (G : globals) (in_channels out_channels : nat)
  (num_filters filter_sizes strides paddings : list nat)
  (pooling : option (list bool)) (pool_size : option (list nat))
  (g : Conv2d.RandomState) :
  ~ (List.length num_filters = List.length filter_sizes
     /\ List.length filter_sizes = List.length strides
     /\ List.length strides = List.length paddings) ->
  ConvNet2D.__init__ G in_channels out_channels num_filters filter_sizes
    strides paddings pooling pool_size g = Raise AssertionError.
Proof.
  intros Hne. unfold ConvNet2D.__init__, ConvNet2D.check_lengths.
  destruct (Nat.eqb_spec (List.length num_filters) (List.length filter_sizes));
    [|reflexivity].
  destruct (Nat.eqb_spec (List.length filter_sizes) (List.length strides));
    [|reflexivity].
  destruct (Nat.eqb_spec (List.length strides) (List.length paddings));
    [|reflexivity].
  exfalso. apply Hne. repeat split; assumption.
Qed.

(** C3, as stated, fails: with a pooling flag set, the arguments pass both
    assertions and the constructor raises [TypeError], from the call
    [Pooling(pool_size[i])] that lacks [stride], not [NameError]. *)
Lemma ConvNet2D_init_pooling_TypeError :
  ConvNet2D.check_lengths [8; 16] [3; 3] [1; 1] [0; 0]
    (Some [false; true]) (Some [2; 2])%nat = Ok tt
  /\ ConvNet2D.__init__ module_globals 1 10 [8; 16] [3; 3] [1; 1] [0; 0]
       (Some [false; true]) (Some [2; 2])%nat zero_samples = Raise TypeError
  /\ ConvNet2D.__init__ module_globals 1 10 [8; 16] [3; 3] [1; 1] [0; 0]
       (Some [false; true]) (Some [2; 2])%nat zero_samples <> Raise NameError.
Proof.
  split; [reflexivity|].
  assert (E : ConvNet2D.__init__ module_globals 1 10 [8; 16] [3; 3] [1; 1]
                [0; 0] (Some [false; true]) (Some [2; 2])%nat zero_samples
              = Raise TypeError) by reflexivity.
  split; [exact E|]. rewrite E. discriminate.
Qed.

(** C3, amended.  Whenever the arguments pass the two assertions, the
    constructor raises and so builds no instance: [NameError], from the
    undefined name [X], when no pooling layer is requested (no flags, or a
    [False] flag for every layer); otherwise [TypeError] or [IndexError],
    raised inside the layer loop. *)
Theorem ConvNet2D_init_never_returns
  (in_channels out_channels : nat)
  (num_filters filter_sizes strides paddings : list nat)
  (pooling : option (list bool)) (pool_size : option (list nat))
  (g : Conv2d.RandomState) :
  ConvNet2D.check_lengths num_filters filter_sizes strides paddings
    pooling pool_size = Ok tt ->
  (exists e,
     ConvNet2D.__init__ module_globals in_channels out_channels num_filters
       filter_sizes strides paddings pooling pool_size g = Raise e)
  /\ (no_pooling_requested pooling (List.length num_filters) = true ->
      ConvNet2D.__init__ module_globals in_channels out_channels num_filters
        filter_sizes strides paddings pooling pool_size g = Raise NameError)
  /\ (no_pooling_requested pooling (List.length num_filters) = false ->
      ConvNet2D.__init__ module_globals in_channels out_channels num_filters
        filter_sizes strides paddings pooling pool_size g = Raise TypeError
      \/ ConvNet2D.__init__ module_globals in_channels out_channels num_filters
           filter_sizes strides paddings pooling pool_size g
         = Raise IndexError).
Proof.
  intros Hcheck.
  exact (@init_outcome num_filters filter_sizes strides paddings pooling
           pool_size Hcheck in_channels out_channels g).
Qed.

Lemma ConvNet2D_init_never_returns_witness :
  ConvNet2D.check_lengths [8; 16] [3; 3] [1; 1] [0; 0] None None = Ok tt
  /\ ConvNet2D.__init__ module_globals 1 10 [8; 16] [3; 3] [1; 1] [0; 0]
       None None zero_samples = Raise NameError.
Proof.
  split; [reflexivity|].
  apply (ConvNet2D_init_never_returns 1 10 [8; 16] [3; 3] [1; 1] [0; 0]
           None None zero_samples); reflexivity.
Defined.

(** C10 at its failing inputs.  The second assertion compares the flags
    with [pool_size], not with the number of layers: two flags for one
    layer pass both assertions and the whole layer loop, and the call stops
    only on the undefined [X], as it does for a well-formed configuration;
    no flag for one layer passes both assertions as well, and the loop
    stops with [IndexError] on [pooling[0]]. *)
Theorem ConvNet2D_init_flags_length_unchecked (g : Conv2d.RandomState) :
  (ConvNet2D.check_lengths [8] [3] [1] [0]
     (Some [false; false]) (Some [2; 2])%nat = Ok tt
   /\ ConvNet2D.__init__ module_globals 1 10 [8] [3] [1] [0]
        (Some [false; false]) (Some [2; 2])%nat g = Raise NameError
   /\ ConvNet2D.__init__ module_globals 1 10 [8] [3] [1] [0]
        (Some [false]) (Some [2])%nat g = Raise NameError)
  /\ (ConvNet2D.check_lengths [8] [3] [1] [0] (Some []) (Some [])%nat = Ok tt
      /\ ConvNet2D.__init__ module_globals 1 10 [8] [3] [1] [0]
           (Some []) (Some [])%nat g = Raise IndexError).
Proof. repeat split; reflexivity. Qed.

Local Open Scope Q_scope.

(* ================================================================== *)
(** * Conv2d.backward *)
(* ================================================================== *)

(** C2: what the code does.  [backward] never reaches its loops: the pair
    returned by [forward] does not unpack into four names ([ValueError]),
    and on the four-tuple the call [self.zero_pad(A_prev, pad)] passes one
    argument more than [zero_pad(self, X)] takes ([TypeError]). *)
Theorem Conv2d_backward_always_raises (self : Conv2d.t) (dA : array4) :
  (forall c, Conv2d.backward self dA (Conv2d.FromForward c) = Raise ValueError)
  /\ (forall c, Conv2d.backward self dA (Conv2d.ConvCache c) = Raise TypeError).
Proof.
  split; intros c; [reflexivity|].
  destruct c as [[[A_prev W] b] hparameters].
  unfold Conv2d.backward. cbn [Conv2d.unpack4 Py.bind].
  destruct (shape4 A_prev) as [[[m0 n_H_prev] n_W_prev] n_C0].
  destruct (shape4 W) as [[[f0 f] n_C_prev] n_C1].
  destruct (shape4 dA) as [[[m n_H] n_W] n_C].
  reflexivity.
Qed.

(** C1 at its failing input: one pixel with two channels, a 1x1 filter of
    weights [1] and bias [1].  The dot product plus the bias is [3];
    [conv_single_step] returns [4], the bias being counted once per entry
    of the window; [forward] itself raises [NameError] at the call of the
    unbound name [ReLU], and with [ReLU] bound it would cache and return
    [4]. *)
Theorem Conv2d_forward_failing_input :
  Conv2d.forward module_globals conv_1x1 pixel_11 = Raise NameError
  /\ (exists weights biases z,
        lastaxis (Conv2d.W conv_1x1) 0 = Ok weights
        /\ lastaxis (Conv2d.b conv_1x1) 0 = Ok biases
        /\ Conv2d.conv_single_step
             (slice3 (mk3 (1, 1, 2)%nat (at4 pixel_11 0)) 0 1 0 1)
             weights biases = Ok z
        /\ z == 4
        /\ dot3 (mk3 (1, 1, 2)%nat (at4 pixel_11 0)) weights 1 2
           + at3 biases 0 0 0 == 3)
  /\ (exists A cache Z,
        Conv2d.forward globals_with_ReLU conv_1x1 pixel_11 = Ok (A, (cache, Z))
        /\ at4 Z 0 0 0 0 == 4 /\ at4 A 0 0 0 0 == 4).
Proof.
  split; [reflexivity|]. split.
  - do 3 eexists. split; [reflexivity|]. split; [reflexivity|].
    split; [reflexivity|]. split; vm_compute; reflexivity.
  - do 3 eexists. split; [vm_compute; reflexivity|].
    split; vm_compute; reflexivity.
Qed.

(* ================================================================== *)
(** * Output sizes of Conv2d.forward and Pooling.forward *)
(* ================================================================== *)

(** A negative size is refused by [np.zeros], be it the height or the
    width. *)
Lemma Conv2d_forward_negative_dim (G : globals) (self : Conv2d.t)
  (A_prev : array4) (m H Wd C f0 f C' n_C : nat) :
  shape4 A_prev = (m, H, Wd, C) ->
  shape4 (Conv2d.W self) = (f0, f, C', n_C) ->
  (1 <= Conv2d.stride (Conv2d.hparams self))%nat ->
  (floor_dim H f (Conv2d.pad (Conv2d.hparams self))
             (Conv2d.stride (Conv2d.hparams self)) < 0
   \/ floor_dim Wd f (Conv2d.pad (Conv2d.hparams self))
                (Conv2d.stride (Conv2d.hparams self)) < 0)%Z ->
  Conv2d.forward G self A_prev = Raise ValueError.
Proof.
  intros HA HW Hs Hneg. unfold Conv2d.forward. rewrite HA, HW.
  rewrite !Conv2d_out_dim_floor by assumption. cbn [Py.bind].
  unfold np_zeros4.
  destruct (Z.ltb_spec
              (floor_dim H f (Conv2d.pad (Conv2d.hparams self))
                 (Conv2d.stride (Conv2d.hparams self))) 0);
    [reflexivity|].
  destruct (Z.ltb_spec
              (floor_dim Wd f (Conv2d.pad (Conv2d.hparams self))
                 (Conv2d.stride (Conv2d.hparams self))) 0);
    [reflexivity|lia].
Qed.

(** A size of at least 1 means that the kernel fits the padded input. *)
Lemma floor_dim_fits (n f pad stride : nat) :
  (1 <= stride)%nat -> (1 <= floor_dim n f pad stride)%Z ->
  (f <= n + 2 * pad)%nat.
Proof.
  intros Hs Hd. unfold floor_dim in Hd.
  destruct (Z_lt_le_dec (Z.of_nat n - Z.of_nat f + 2 * Z.of_nat pad) 0)
    as [Hneg|Hpos]; [|lia].
  assert ((Z.of_nat n - Z.of_nat f + 2 * Z.of_nat pad) / Z.of_nat stride < 0)%Z
    by (apply Z.div_lt_upper_bound; lia).
  lia.
Qed.

(** Sizes that are not negative are allocated as they are; when the output
    has no cell, no iteration reaches the convolution or [ReLU], and the
    empty volumes are returned, whatever the names in scope. *)
Lemma Conv2d_forward_no_cell (G : globals) (self : Conv2d.t)
  (A_prev : array4) (m H Wd C f n_C : nat) :
  shape4 A_prev = (m, H, Wd, C) ->
  shape4 (Conv2d.W self) = (f, f, C, n_C) ->
  (1 <= Conv2d.stride (Conv2d.hparams self))%nat ->
  let n_H := floor_dim H f (Conv2d.pad (Conv2d.hparams self))
                       (Conv2d.stride (Conv2d.hparams self)) in
  let n_W := floor_dim Wd f (Conv2d.pad (Conv2d.hparams self))
                       (Conv2d.stride (Conv2d.hparams self)) in
  (0 <= n_H)%Z -> (0 <= n_W)%Z ->
  m = 0%nat \/ n_H = 0%Z \/ n_W = 0%Z \/ n_C = 0%nat ->
  Conv2d.forward G self A_prev
  = Ok (zeros4 (m, Z.to_nat n_H, Z.to_nat n_W, n_C),
        ((A_prev, Conv2d.W self, Conv2d.b self, Conv2d.hparams self),
         zeros4 (m, Z.to_nat n_H, Z.to_nat n_W, n_C))).
Proof.
  intros HA HW Hs n_H n_W HnH HnW Hempty.
  unfold Conv2d.forward. rewrite HA, HW.
  rewrite !Conv2d_out_dim_floor by assumption. cbn [Py.bind].
  fold n_H n_W. rewrite !np_zeros4_ok by assumption.
  cbn [Py.bind Conv2d.call_zero_pad].
  rewrite for_range_idle; [reflexivity|].
  intros i Hi.
  rewrite (@getitem0_zero_pad self A_prev m H Wd C _ HA eq_refl i Hi).
  cbn [Py.bind].
  apply for_range_idle. intros h Hh.
  apply for_range_idle. intros w Hw.
  apply for_range_idle. intros c Hc.
  destruct Hempty as [->|[E|[E| ->]]]; [lia| | |lia].
  - rewrite E in Hh. cbn in Hh. lia.
  - rewrite E in Hw. cbn in Hw. lia.
Qed.

(** C4, as stated, fails: a 3x3 window moved by 2 over a 6x6 input has the
    quotient 3/2, which is not an integer, and [Pooling.forward] returns a
    2x2 output without raising anything. *)
Lemma Pooling_forward_floors_silently :
  ((6 - 3) mod 2 <> 0)%Z
  /\ exists A cache,
       Pooling.forward pool_3x3_by_2 (ones4 (1, 6, 6, 1)%nat) = Ok (A, cache)
       /\ shape4 A = (1, 2, 2, 1)%nat.
Proof.
  split; [discriminate|].
  do 2 eexists. split; [vm_compute; reflexivity|reflexivity].
Qed.

(** C4, amended.  For a stride of at least 1, [Conv2d.forward] computes
    each output size as [floor((n - f + 2 * pad) / stride) + 1] and
    allocates its volumes with the two sizes.  When one of them is negative
    it raises [ValueError].  When neither is, it returns a volume of these
    sizes, [0] included, in every namespace in which the name [ReLU]
    resolves to a function, and in any namespace at all when the volume has
    no cell: an empty batch, no output channel, or a size of [0]; with the
    names the module itself binds and one cell at least it raises
    [NameError].  [Pooling.forward], for a window that fits the input,
    returns a volume of sizes [floor((n - f) / stride) + 1].  The quotient
    need not be an integer: it is floored and nothing is raised. *)
Theorem forward_output_dimensions :
  (forall (G : globals) (self : Conv2d.t) (A_prev : array4)
      (m H Wd C f n_C : nat),
     shape4 A_prev = (m, H, Wd, C) ->
     shape4 (Conv2d.W self) = (f, f, C, n_C) ->
     shape4 (Conv2d.b self) = (1, 1, 1, n_C)%nat ->
     (1 <= Conv2d.stride (Conv2d.hparams self))%nat ->
     let stride := Conv2d.stride (Conv2d.hparams self) in
     let pad := Conv2d.pad (Conv2d.hparams self) in
     let n_H := floor_dim H f pad stride in
     let n_W := floor_dim Wd f pad stride in
     Conv2d.out_dim H f pad stride = Ok n_H
     /\ Conv2d.out_dim Wd f pad stride = Ok n_W
     /\ ((n_H < 0 \/ n_W < 0)%Z ->
         Conv2d.forward G self A_prev = Raise ValueError)
     /\ ((0 <= n_H)%Z -> (0 <= n_W)%Z ->
         (m = 0%nat \/ n_H = 0%Z \/ n_W = 0%Z \/ n_C = 0%nat ->
          exists A cache,
            Conv2d.forward G self A_prev = Ok (A, cache)
            /\ shape4 A = (m, Z.to_nat n_H, Z.to_nat n_W, n_C))
         /\ (forall relu : Q -> Q,
               load_global G "ReLU" = Ok (GFunction relu) ->
               exists A cache,
                 Conv2d.forward G self A_prev = Ok (A, cache)
                 /\ shape4 A = (m, Z.to_nat n_H, Z.to_nat n_W, n_C))
         /\ ((1 <= m)%nat -> (1 <= n_H)%Z -> (1 <= n_W)%Z -> (1 <= n_C)%nat ->
             Conv2d.forward module_globals self A_prev = Raise NameError)))
  /\
  (forall (self : Pooling.t) (A_prev : array4) (m H W C : nat),
     shape4 A_prev = (m, H, W, C) ->
     let stride := Pooling.stride (Pooling.hparams self) in
     let f := Pooling.f (Pooling.hparams self) in
     (1 <= stride)%nat -> (1 <= f)%nat -> (f <= H)%nat -> (f <= W)%nat ->
     Pooling.out_dim H f stride = Ok (floor_dim H f 0 stride)
     /\ Pooling.out_dim W f stride = Ok (floor_dim W f 0 stride)
     /\ exists A cache,
          Pooling.forward self A_prev = Ok (A, cache)
          /\ shape4 A = (m, Z.to_nat (floor_dim H f 0 stride),
                         Z.to_nat (floor_dim W f 0 stride), C)).
Proof.
  split.
  - intros G self A_prev m H Wd C f n_C HA HW Hb Hs stride pad n_H n_W.
    split; [apply Conv2d_out_dim_floor; assumption|].
    split; [apply Conv2d_out_dim_floor; assumption|]. split.
    + intros Hneg.
      exact (@Conv2d_forward_negative_dim G self A_prev m H Wd C f f C n_C
               HA HW Hs Hneg).
    + intros HnH HnW.
      assert (Hno : m = 0%nat \/ n_H = 0%Z \/ n_W = 0%Z \/ n_C = 0%nat ->
                exists A cache,
                  Conv2d.forward G self A_prev = Ok (A, cache)
                  /\ shape4 A = (m, Z.to_nat n_H, Z.to_nat n_W, n_C)).
      { intros Hempty. do 2 eexists. split.
        - exact (@Conv2d_forward_no_cell G self A_prev m H Wd C f n_C
                   HA HW Hs HnH HnW Hempty).
        - reflexivity. }
      split; [exact Hno|]. split.
      * intros relu HG.
        destruct (Z.eq_dec n_H 0) as [E0|HH0]; [apply Hno; tauto|].
        destruct (Z.eq_dec n_W 0) as [E0|HW0]; [apply Hno; tauto|].
        assert (HfH : (f <= H + 2 * pad)%nat)
          by (apply (@floor_dim_fits H f pad stride Hs); fold n_H; lia).
        assert (HfW : (f <= Wd + 2 * pad)%nat)
          by (apply (@floor_dim_fits Wd f pad stride Hs); fold n_W; lia).
        destruct (@forward_shape self A_prev m H Wd C f n_C stride pad HA HW
                    Hb eq_refl eq_refl Hs HfH HfW G relu HG)
          as [A [Z [E [HsA _]]]].
        exists A. eexists. split; [exact E|exact HsA].
      * intros Hm H1 W1 HnC.
        assert (HfH : (f <= H + 2 * pad)%nat)
          by (apply (@floor_dim_fits H f pad stride Hs); exact H1).
        assert (HfW : (f <= Wd + 2 * pad)%nat)
          by (apply (@floor_dim_fits Wd f pad stride Hs); exact W1).
        exact (@forward_raises_NameError self A_prev m H Wd C f n_C stride
                 pad HA HW Hb eq_refl eq_refl Hs HfH HfW Hm HnC).
  - intros self A_prev m H W C HA stride f Hs Hf HfH HfW.
    assert (Efl : forall n, floor_dim n f 0 stride
                  = ((Z.of_nat n - Z.of_nat f) / Z.of_nat stride + 1)%Z).
    { intros n. unfold floor_dim. f_equal. f_equal. lia. }
    rewrite !Efl.
    split; [apply Pooling_out_dim_floor; assumption|].
    split; [apply Pooling_out_dim_floor; assumption|].
    destruct (@Pooling_forward_shape self A_prev m H W C HA Hs Hf HfH HfW)
      as [A [E HsA]].
    exists A. eexists. split; [exact E|exact HsA].
Qed.

Lemma forward_output_dimensions_witness :
  (exists A cache,
     Conv2d.forward module_globals conv_3x3_ones (ones4 (1, 2, 2, 1)%nat)
     = Ok (A, cache)
     /\ shape4 A = (1%nat, Z.to_nat (floor_dim 2 3 0 1),
                    Z.to_nat (floor_dim 2 3 0 1), 1%nat))
  /\ (exists A cache,
        Conv2d.forward globals_with_ReLU conv_3x3_ones
          (ones4 (1, 6, 6, 1)%nat)
        = Ok (A, cache)
        /\ shape4 A = (1%nat, Z.to_nat (floor_dim 6 3 0 1),
                       Z.to_nat (floor_dim 6 3 0 1), 1%nat))
  /\ Conv2d.forward module_globals conv_3x3_ones (ones4 (1, 1, 1, 1)%nat)
     = Raise ValueError
  /\ exists A cache,
       Pooling.forward pool_3x3_by_2 (ones4 (1, 6, 6, 1)%nat) = Ok (A, cache)
       /\ shape4 A = (1%nat, Z.to_nat (floor_dim 6 3 0 2),
                      Z.to_nat (floor_dim 6 3 0 2), 1%nat).
Proof.
  split; [|split; [|split]].
  - destruct (proj1 forward_output_dimensions module_globals conv_3x3_ones
                (ones4 (1, 2, 2, 1)%nat) 1 2 2 1 3 1
                eq_refl eq_refl eq_refl (le_n 1))%nat
      as [_ [_ [_ Hret]]].
    destruct Hret as [Hno _]; [discriminate|discriminate|].
    apply Hno. right. left. reflexivity.
  - destruct (proj1 forward_output_dimensions globals_with_ReLU conv_3x3_ones
                (ones4 (1, 6, 6, 1)%nat) 1 6 6 1 3 1
                eq_refl eq_refl eq_refl (le_n 1))%nat
      as [_ [_ [_ Hret]]].
    destruct Hret as [_ [Hrelu _]]; [discriminate|discriminate|].
    exact (Hrelu Conv2d.ReLU eq_refl).
  - destruct (proj1 forward_output_dimensions module_globals conv_3x3_ones
                (ones4 (1, 1, 1, 1)%nat) 1 1 1 1 3 1
                eq_refl eq_refl eq_refl (le_n 1))%nat
      as [_ [_ [Hneg _]]].
    apply Hneg. left. reflexivity.
  - destruct (proj2 forward_output_dimensions pool_3x3_by_2
                (ones4 (1, 6, 6, 1)%nat) 1 6 6 1)%nat as [_ [_ Hex]];
      try reflexivity; try (cbn; lia).
    exact Hex.
Defined.

(* ================================================================== *)
(** * FullyConnected.backward *)
(* ================================================================== *)

Lemma zip2_same_shape {A : Type} (op : A -> A -> A) (x y : array2 A)
  (r c : nat) :
  shape2 x = (r, c) -> shape2 y = (r, c) ->
  zip2 op x y
  = Ok (mk2 (r, c) (fun i j => op (at2 x (bidx r i) (bidx c j))
                                  (at2 y (bidx r i) (bidx c j)))).
Proof.
  intros Hx Hy. unfold zip2. rewrite Hx, Hy, !bdim_refl. reflexivity.
Qed.

(** C7.  On probabilities and labels of shape [(n_y, m)], a cached input
    of shape [(n_x, m)] and a cached weight snapshot of shape [(n_y, n_x)],
    for a batch that is not empty, [backward] returns [dInput = W.T . dZ],
    [dW = dZ . X.T / m] and [db = rowsum(dZ) / m], where [dZ = AL - Y].
    For probabilities [[0.7, 0.3]] and the label [[1, 0]], [dZ] is
    [[-0.3, 0.3]], and so is [db] for this batch of one. *)
Theorem FullyConnected_backward_gradients :
  (forall (self : FullyConnected.t) (AL Y X W b Z : array2 Q)
      (learning_rate : Q) (n_y n_x m : nat),
     shape2 AL = (n_y, m) -> shape2 Y = (n_y, m) ->
     shape2 X = (n_x, m) -> shape2 W = (n_y, n_x) -> (1 <= m)%nat ->
     exists dA_prev dW db,
       fst (FullyConnected.backward AL Y ((X, W, b), Z) learning_rate self)
       = Ok (dA_prev, dW, db)
       /\ shape2 dA_prev = (n_x, m)
       /\ shape2 dW = (n_y, n_x)
       /\ shape2 db = (n_y, 1%nat)
       /\ (forall k e, (k < n_x)%nat -> (e < m)%nat ->
             at2 dA_prev k e
             == sum_n n_y (fun j => at2 W j k * (at2 AL j e - at2 Y j e)))
       /\ (forall j k, (j < n_y)%nat -> (k < n_x)%nat ->
             at2 dW j k
             == sum_n m (fun e => (at2 AL j e - at2 Y j e) * at2 X k e)
                / Qnat m)
       /\ (forall j, (j < n_y)%nat ->
             at2 db j 0
             == sum_n m (fun e => at2 AL j e - at2 Y j e) / Qnat m))
  /\
  (exists dZ,
     zip2 Qminus probs_07_03 label_1_0 = Ok dZ
     /\ at2 dZ 0 0 == - (3 # 10) /\ at2 dZ 1 0 == 3 # 10)
  /\
  (exists dA_prev dW db,
     fst (FullyConnected.backward probs_07_03 label_1_0
            ((input_123, weights_2x3, bias_2), probs_07_03) (1 # 100) fc_3_2)
     = Ok (dA_prev, dW, db)
     /\ at2 db 0 0 == - (3 # 10) /\ at2 db 1 0 == 3 # 10).
Proof.
  split; [|split].
  - intros self AL Y X W b Z learning_rate n_y n_x m HAL HY HX HW Hm.
    unfold FullyConnected.backward, FullyConnected.bindM, FullyConnected.lift,
      FullyConnected.ret.
    rewrite (zip2_same_shape Qminus AL Y HAL HY).
    unfold dot2, transpose2, sum_axis1, div_scalar, map2.
    rewrite HAL, HX, HW. cbn [shape2 at2 fst snd]. rewrite !Nat.eqb_refl.
    cbn [fst]. do 3 eexists. split; [reflexivity|].
    cbn [shape2 at2].
    split; [reflexivity|]. split; [reflexivity|]. split; [reflexivity|].
    split; [|split].
    + intros k e Hk He. apply sum_n_ext. intros j Hj.
      rewrite (bidx_lt Hj), (bidx_lt He). reflexivity.
    + intros j k Hj Hk.
      apply Qmult_comp; [|reflexivity]. apply sum_n_ext. intros e He.
      rewrite (bidx_lt Hj), (bidx_lt He). reflexivity.
    + intros j Hj.
      apply Qmult_comp; [|reflexivity]. apply sum_n_ext. intros e He.
      rewrite (bidx_lt Hj), (bidx_lt He). reflexivity.
  - eexists. split; [reflexivity|]. split; vm_compute; reflexivity.
  - do 3 eexists. split; [reflexivity|]. split; vm_compute; reflexivity.
Qed.

Lemma FullyConnected_backward_gradients_witness :
  shape2 probs_07_03 = (2, 1)%nat /\ shape2 label_1_0 = (2, 1)%nat
  /\ shape2 input_123 = (3, 1)%nat /\ shape2 weights_2x3 = (2, 3)%nat
  /\ exists dA_prev dW db,
       fst (FullyConnected.backward probs_07_03 label_1_0
              ((input_123, weights_2x3, bias_2), probs_07_03) (1 # 100) fc_3_2)
       = Ok (dA_prev, dW, db)
       /\ shape2 dW = (2, 3)%nat
       /\ at2 db 1 0
          == sum_n 1 (fun e => at2 probs_07_03 1 e - at2 label_1_0 1 e)
             / Qnat 1.
Proof.
  repeat (split; [reflexivity|]).
  destruct (proj1 FullyConnected_backward_gradients fc_3_2 probs_07_03
              label_1_0 input_123 weights_2x3 bias_2 probs_07_03 (1 # 100)
              2 3 1)%nat
    as [dA_prev [dW [db [E [_ [HdW [_ [_ [_ Hdb]]]]]]]]];
    try reflexivity; try lia.
  exists dA_prev, dW, db. split; [exact E|]. split; [exact HdW|].
  apply Hdb. lia.
Defined.

(** C9.  [backward] hands the layer object back as it received it, weights
    and bias included, whatever its arguments; and neither the learning
    rate nor the layer's current attributes enter its result, which is
    computed from the arguments and the caches alone. *)
Theorem FullyConnected_backward_frame
  (self : FullyConnected.t) (AL Y : array2 Q)
  (caches : FullyConnected.linear_cache * array2 Q) (learning_rate : Q) :
  snd (FullyConnected.backward AL Y caches learning_rate self) = self
  /\ FullyConnected.W
       (snd (FullyConnected.backward AL Y caches learning_rate self))
     = FullyConnected.W self
  /\ FullyConnected.b
       (snd (FullyConnected.backward AL Y caches learning_rate self))
     = FullyConnected.b self
  /\ forall (learning_rate' : Q) (self' : FullyConnected.t),
       fst (FullyConnected.backward AL Y caches learning_rate' self')
       = fst (FullyConnected.backward AL Y caches learning_rate self).
Proof.
  destruct caches as [[[X W] b] Z].
  assert (Hsnd : forall lr s,
            snd (FullyConnected.backward AL Y ((X, W, b), Z) lr s) = s).
  { intros lr s.
    unfold FullyConnected.backward, FullyConnected.bindM, FullyConnected.lift,
      FullyConnected.ret.
    destruct (zip2 Qminus AL Y) as [dAL|e]; [|reflexivity].
    destruct (dot2 dAL (transpose2 X)) as [p|e]; [|reflexivity].
    destruct (dot2 (transpose2 W) dAL) as [d|e]; reflexivity. }
  split; [apply Hsnd|]. split; [rewrite Hsnd; reflexivity|].
  split; [rewrite Hsnd; reflexivity|].
  intros lr' s'.
  unfold FullyConnected.backward, FullyConnected.bindM, FullyConnected.lift,
    FullyConnected.ret.
  destruct (zip2 Qminus AL Y) as [dAL|e]; [|reflexivity].
  destruct (dot2 dAL (transpose2 X)) as [p|e]; [|reflexivity].
  destruct (dot2 (transpose2 W) dAL) as [d|e]; reflexivity.
Qed.

Lemma set_W_writes (W' : array2 Q) (self : FullyConnected.t) :
  FullyConnected.W (snd (FullyConnected.set_W W' self)) = W'.
Proof. reflexivity. Qed.

(* ================================================================== *)
(** * FullyConnected.softmax *)
(* ================================================================== *)

Local Close Scope Q_scope.
Local Open Scope R_scope.

Lemma max_upto_upper (n : nat) (f : nat -> R) (i : nat) :
  (i <= n)%nat -> f i <= max_upto n f.
Proof.
  induction n as [|n IH]; intros Hi; simpl.
  - replace i with O by lia. apply Rle_refl.
  - destruct (Nat.eq_dec i (S n)) as [->|Hne].
    + apply Rmax_r.
    + eapply Rle_trans; [apply IH; lia|apply Rmax_l].
Qed.

Lemma max_upto_attained (n : nat) (f : nat -> R) :
  exists i, (i <= n)%nat /\ f i = max_upto n f.
Proof.
  induction n as [|n [i [Hi E]]]; simpl.
  - exists O. split; [lia|reflexivity].
  - destruct (Rmax_case (max_upto n f) (f (S n))
                (fun r => r = max_upto n f \/ r = f (S n))) as [H|H];
      [left; reflexivity|right; reflexivity| |].
    + exists i. split; [lia|]. rewrite H. exact E.
    + exists (S n). split; [lia|]. rewrite H. reflexivity.
Qed.

Lemma sumR_n_ext (n : nat) (f g : nat -> R) :
  (forall x, (x < n)%nat -> f x = g x) -> sumR_n n f = sumR_n n g.
Proof.
  induction n as [|n IH]; intros H; simpl; [reflexivity|].
  rewrite IH, (H n) by (intros; try apply H; lia). reflexivity.
Qed.

Lemma sumR_n_div (n : nat) (f : nat -> R) (c : R) :
  sumR_n n (fun x => f x / c) = sumR_n n f / c.
Proof.
  induction n as [|n IH]; simpl; [unfold Rdiv; ring|].
  rewrite IH. unfold Rdiv. ring.
Qed.

Lemma sumR_n_nonneg (n : nat) (f : nat -> R) :
  (forall x, (x < n)%nat -> 0 <= f x) -> 0 <= sumR_n n f.
Proof.
  induction n as [|n IH]; intros H; simpl; [apply Rle_refl|].
  apply Rplus_le_le_0_compat; [apply IH; intros; apply H; lia|apply H; lia].
Qed.

Lemma sumR_n_ge_term (n : nat) (f : nat -> R) (i : nat) :
  (i < n)%nat -> (forall x, (x < n)%nat -> 0 <= f x) -> f i <= sumR_n n f.
Proof.
  induction n as [|n IH]; intros Hi H; [lia|]. simpl.
  destruct (Nat.eq_dec i n) as [->|Hne].
  - assert (0 <= sumR_n n f) by (apply sumR_n_nonneg; intros; apply H; lia).
    lra.
  - assert (f i <= sumR_n n f) by (apply IH; [lia|intros; apply H; lia]).
    assert (0 <= f n) by (apply H; lia). lra.
Qed.

Lemma exp_nonpos_le_1 (x : R) : x <= 0 -> exp x <= 1.
Proof.
  intros [Hlt|Heq]; [|rewrite Heq, exp_0; apply Rle_refl].
  rewrite <- exp_0. left. apply exp_increasing. assumption.
Qed.

Lemma sumR_n_le_const (n : nat) (f : nat -> R) (c : R) :
  (forall x, (x < n)%nat -> f x <= c) -> sumR_n n f <= INR n * c.
Proof.
  induction n as [|n IH]; intros H.
  - simpl. lra.
  - rewrite S_INR. simpl.
    assert (sumR_n n f <= INR n * c) by (apply IH; intros; apply H; lia).
    assert (f n <= c) by (apply H; lia). lra.
Qed.

(** ** The range of float64 *)

Lemma pow2_pos (k : nat) : 0 < 2 ^ k.
Proof. apply pow_lt. lra. Qed.

Lemma pow2_ge_1 (k : nat) : 1 <= 2 ^ k.
Proof. apply pow_R1_Rle. lra. Qed.

Lemma inv_pow2_le_1 (k : nat) : 0 < / 2 ^ k <= 1.
Proof.
  split; [apply Rinv_0_lt_compat, pow2_pos|].
  rewrite <- Rinv_1. apply Rinv_le_contravar; [lra|apply pow2_ge_1].
Qed.

Lemma DBL_MAX_lower : 2 ^ 1023 <= DBL_MAX.
Proof.
  unfold DBL_MAX. pose proof (inv_pow2_le_1 52) as [Ha Hb].
  pose proof (pow2_pos 1023) as Hp.
  set (a := / 2 ^ 52) in *. set (p := 2 ^ 1023) in *. nra.
Qed.

Lemma DBL_MAX_upper : DBL_MAX < 2 ^ S 1023.
Proof.
  rewrite <- tech_pow_Rmult. unfold DBL_MAX.
  pose proof (inv_pow2_le_1 52) as [Ha Hb].
  pose proof (pow2_pos 1023) as Hp.
  set (a := / 2 ^ 52) in *. set (p := 2 ^ 1023) in *. nra.
Qed.

Lemma DBL_MAX_ge_1 : 1 <= DBL_MAX.
Proof.
  apply Rle_trans with (2 ^ 1023); [apply pow2_ge_1|apply DBL_MAX_lower].
Qed.

Lemma DBL_TRUE_MIN_half : 0 < DBL_TRUE_MIN / 2 <= 1.
Proof.
  unfold DBL_TRUE_MIN. pose proof (inv_pow2_le_1 1074) as [Ha Hb].
  set (a := / 2 ^ 1074) in *. lra.
Qed.

(** An array has fewer rows than a signed 64-bit index can count, and so
    many ones can be added up without overflow. *)
Lemma rows_le_DBL_MAX (n : nat) : (Z.of_nat n < 2 ^ 63)%Z -> INR n <= DBL_MAX.
Proof.
  intros Hn. apply Rle_trans with (2 ^ 63).
  - rewrite INR_IZR_INZ. change 2 with (IZR 2). rewrite pow_IZR.
    apply IZR_le. change (Z.of_nat 63) with 63%Z. lia.
  - apply Rle_trans with (2 ^ 1023); [|apply DBL_MAX_lower].
    apply Rle_pow; [lra|lia].
Qed.

Lemma exp_INR_mult (n : nat) (x : R) : exp (INR n * x) = exp x ^ n.
Proof.
  induction n as [|n IH].
  - simpl. rewrite Rmult_0_l. apply exp_0.
  - rewrite S_INR, Rmult_plus_distr_r, Rmult_1_l, exp_plus, IH.
    simpl. ring.
Qed.

Lemma exp_6_lower : 2 ^ 7 <= exp 6.
Proof.
  replace 6 with (INR 12 * / 2) by (rewrite INR_IZR_INZ; simpl; lra).
  rewrite exp_INR_mult.
  apply Rle_trans with ((3 / 2) ^ 12); [simpl; lra|].
  apply pow_incr. split; [lra|].
  pose proof (exp_ineq1_le (/ 2)). lra.
Qed.

Lemma exp_996_lower : 2 ^ (7 * 166) <= exp 996.
Proof.
  replace 996 with (INR 166 * 6) by (rewrite INR_IZR_INZ; simpl; lra).
  rewrite exp_INR_mult, pow_mult.
  apply pow_incr. split; [left; apply pow2_pos|apply exp_6_lower].
Qed.

Lemma exp_le (x y : R) : x <= y -> exp x <= exp y.
Proof.
  intros [Hlt|Heq]; [left; apply exp_increasing; exact Hlt|].
  rewrite Heq. apply Rle_refl.
Qed.

(** [np.exp] overflows from [1000] on. *)
Lemma np_exp_overflow (x : R) : 1000 <= x -> np_exp x = Inf.
Proof.
  intros Hx. unfold np_exp. destruct (Rlt_dec DBL_MAX (exp x)) as [_|Hn];
    [reflexivity|]. exfalso. apply Hn.
  apply Rlt_le_trans with (2 ^ S 1023); [apply DBL_MAX_upper|].
  apply Rle_trans with (2 ^ (7 * 166)); [apply Rle_pow; [lra|lia]|].
  apply Rle_trans with (exp 996); [apply exp_996_lower|].
  apply exp_le. lra.
Qed.

(** On an argument that is not positive it neither overflows nor exceeds 1;
    it is the exponential, or [0.0] where the exponential is too small. *)
Lemma np_exp_nonpos (x : R) :
  x <= 0 ->
  exists e, np_exp x = Fin e /\ 0 <= e <= 1
            /\ (e = 0 /\ exp x < DBL_TRUE_MIN / 2
                \/ e = exp x /\ DBL_TRUE_MIN / 2 <= exp x).
Proof.
  intros Hx. pose proof (exp_nonpos_le_1 Hx) as H1.
  pose proof DBL_MAX_ge_1 as HM. pose proof (exp_pos x) as Hp.
  unfold np_exp. destruct (Rlt_dec DBL_MAX (exp x)) as [Hov|_]; [lra|].
  destruct (Rlt_dec (exp x) (DBL_TRUE_MIN / 2)) as [Hu|Hu].
  - exists 0. split; [reflexivity|]. split; [lra|]. left. split;
      [reflexivity|exact Hu].
  - exists (exp x). split; [reflexivity|]. split; [lra|]. right. split;
      [reflexivity|lra].
Qed.

Lemma np_exp_0 : np_exp 0 = Fin 1.
Proof.
  pose proof DBL_MAX_ge_1 as HM. pose proof DBL_TRUE_MIN_half as [_ Hh].
  unfold np_exp. rewrite exp_0.
  destruct (Rlt_dec DBL_MAX 1) as [Hov|_]; [lra|].
  destruct (Rlt_dec 1 (DBL_TRUE_MIN / 2)) as [Hu|_]; [lra|reflexivity].
Qed.

(** [np.exp] underflows to [0.0] from [-1000] down. *)
Lemma np_exp_underflow (x : R) : x <= - 1000 -> np_exp x = Fin 0.
Proof.
  intros Hx.
  destruct (@np_exp_nonpos x) as [e [E [_ [[-> _]|[_ Hge]]]]]; [lra|exact E|].
  exfalso.
  assert (Hup : exp x <= / 2 ^ (7 * 166)).
  { apply Rle_trans with (/ exp 996).
    - rewrite <- exp_Ropp. apply exp_le. lra.
    - apply Rinv_le_contravar; [apply pow2_pos|apply exp_996_lower]. }
  assert (Hlt : / 2 ^ (7 * 166) < DBL_TRUE_MIN / 2).
  { unfold DBL_TRUE_MIN, Rdiv. rewrite <- Rinv_mult.
    rewrite (Rmult_comm (2 ^ 1074) 2), tech_pow_Rmult.
    apply Rinv_lt_contravar.
    - apply Rmult_lt_0_compat; apply pow2_pos.
    - apply Rlt_pow; [lra|lia]. }
  lra.
Qed.

(** Below [0], [np.exp] keeps the order, not strictly. *)
Lemma np_exp_monotone (x y a b : R) :
  x <= y -> y <= 0 -> np_exp x = Fin a -> np_exp y = Fin b -> a <= b.
Proof.
  intros Hxy Hy Ea Eb. pose proof (exp_le Hxy) as Hle.
  destruct (@np_exp_nonpos x) as [a' [Ea' [_ Hcx]]]; [lra|].
  destruct (@np_exp_nonpos y Hy) as [b' [Eb' [[Hb0 _] Hcy]]].
  rewrite Ea' in Ea. rewrite Eb' in Eb.
  injection Ea as <-. injection Eb as <-.
  destruct Hcx as [[-> _]|[-> Hx]]; [exact Hb0|].
  destruct Hcy as [[-> Hyu]|[-> _]]; lra.
Qed.

(** Numbers between 0 and 1, fewer than the floats can count, add up
    without overflow. *)
Lemma fsum_n_fin (n : nat) (f : nat -> float) (g : nat -> R) (N : nat) :
  (n <= N)%nat -> INR N <= DBL_MAX ->
  (forall i, (i < n)%nat -> f i = Fin (g i) /\ 0 <= g i <= 1) ->
  fsum_n n f = Fin (sumR_n n g) /\ sumR_n n g <= INR n.
Proof.
  intros HnN HN. induction n as [|n IH]; intros Hf.
  - simpl. split; [reflexivity|apply Rle_refl].
  - destruct IH as [E Hle]; [lia|intros; apply Hf; lia|].
    destruct (Hf n) as [En [Hg0 Hg1]]; [lia|].
    cbn [fsum_n sumR_n]. rewrite E, En, S_INR. unfold fadd.
    assert (INR (S n) <= INR N) by (apply le_INR; exact HnN).
    rewrite S_INR in *.
    destruct (Rlt_dec DBL_MAX (sumR_n n g + g n)) as [Hov|_]; [lra|].
    split; [reflexivity|lra].
Qed.

Lemma fsum_n_ext (n : nat) (f g : nat -> float) :
  (forall x, (x < n)%nat -> f x = g x) -> fsum_n n f = fsum_n n g.
Proof.
  induction n as [|n IH]; intros H; simpl; [reflexivity|].
  rewrite IH, (H n) by (intros; try apply H; lia). reflexivity.
Qed.

(** ** What [softmax] computes *)

(** The shape and the entries of what [softmax] returns: each is the
    quotient of the float exponential of the entry less its column's
    maximum by the float sum of these exponentials over the column. *)
Lemma softmax_entries (X : array2 R) (n m : nat) :
  shape2 X = (n, m) -> (1 <= n)%nat ->
  exists S,
    FullyConnected.softmax X = Ok S
    /\ shape2 S = (n, m)
    /\ forall i j, (i < n)%nat -> (j < m)%nat ->
         at2 S i j
         = fdiv (np_exp (at2 X i j - column_max X n j))
                (fsum_n n (fun k => np_exp (at2 X k j - column_max X n j))).
Proof.
  intros HX Hn. unfold FullyConnected.softmax, max_axis0. rewrite HX.
  destruct n as [|n']; [lia|]. cbn [Py.bind].
  unfold zip2 at 1. rewrite HX. cbn [shape2 at2].
  rewrite bdim_1_r, bdim_refl. cbn [Py.bind].
  unfold zip2, map2, sum_axis0. cbn [shape2 at2].
  rewrite bdim_1_r, bdim_refl. cbn [Py.bind].
  eexists. split; [reflexivity|]. split; [reflexivity|].
  intros i j Hi Hj. cbn [at2]. unfold column_max.
  replace (S n' - 1)%nat with n' by lia.
  rewrite !(bidx_lt Hi), !(bidx_lt Hj). cbn [bidx Nat.eqb].
  f_equal. apply fsum_n_ext. intros k Hk.
  rewrite !(bidx_lt Hk). reflexivity.
Qed.

(** One column of [softmax]: the exponents, the exponentials, the
    normaliser and the quotients. *)
Lemma softmax_column (X : array2 R) (n m : nat) :
  shape2 X = (n, m) -> (1 <= n)%nat -> (Z.of_nat n < 2 ^ 63)%Z ->
  exists S,
    FullyConnected.softmax X = Ok S
    /\ shape2 S = (n, m)
    /\ forall j, (j < m)%nat ->
         exists (e : nat -> R) (s : R),
           (forall i, (i < n)%nat -> at2 X i j <= column_max X n j)
           /\ (exists i, (i < n)%nat /\ at2 X i j = column_max X n j)
           /\ (forall i, (i < n)%nat ->
                 np_exp (at2 X i j - column_max X n j) = Fin (e i)
                 /\ 0 <= e i <= 1)
           /\ (forall i, (i < n)%nat -> at2 X i j = column_max X n j ->
                 e i = 1)
           /\ fsum_n n (fun k => np_exp (at2 X k j - column_max X n j))
              = Fin s
           /\ s = sumR_n n e
           /\ 1 <= s <= INR n
           /\ (forall i, (i < n)%nat -> at2 S i j = Fin (e i / s)).
Proof.
  intros HX Hn Hrows.
  destruct (softmax_entries X HX Hn) as [S [E [HS Hent]]].
  exists S. split; [exact E|]. split; [exact HS|]. intros j Hj.
  set (M := column_max X n j).
  assert (Hup : forall i, (i < n)%nat -> at2 X i j <= M).
  { intros i Hi. unfold M, column_max.
    apply (@max_upto_upper (n - 1)%nat (fun i => at2 X i j) i). lia. }
  assert (Hatt : exists i, (i < n)%nat /\ at2 X i j = M).
  { destruct (max_upto_attained (n - 1)%nat (fun i => at2 X i j))
      as [i [Hi Ei]].
    exists i. split; [lia|exact Ei]. }
  set (e := fun i => finite_value (np_exp (at2 X i j - M))).
  assert (He : forall i, (i < n)%nat ->
            np_exp (at2 X i j - M) = Fin (e i) /\ 0 <= e i <= 1).
  { intros i Hi. pose proof (Hup i Hi).
    destruct (@np_exp_nonpos (at2 X i j - M)) as [v [Ev [Hv _]]]; [lra|].
    unfold e. rewrite Ev. split; [reflexivity|exact Hv]. }
  assert (Hmax : forall i, (i < n)%nat -> at2 X i j = M -> e i = 1).
  { intros i Hi Ei. unfold e. rewrite Ei.
    replace (M - M) with 0 by ring. rewrite np_exp_0. reflexivity. }
  pose proof (@rows_le_DBL_MAX n Hrows) as HN.
  destruct (@fsum_n_fin n (fun k => np_exp (at2 X k j - M)) e n (le_n n) HN He)
    as [Es Hsn].
  assert (Hs1 : 1 <= sumR_n n e).
  { destruct Hatt as [i0 [Hi0 E0]]. rewrite <- (Hmax i0 Hi0 E0).
    apply (sumR_n_ge_term e Hi0). intros x Hx. apply He. exact Hx. }
  exists e, (sumR_n n e).
  split; [exact Hup|]. split; [exact Hatt|]. split; [exact He|].
  split; [exact Hmax|]. split; [exact Es|]. split; [reflexivity|].
  split; [split; assumption|].
  intros i Hi. rewrite (Hent i j Hi Hj). fold M. rewrite Es.
  destruct (He i Hi) as [-> [He0 He1]]. unfold fdiv.
  destruct (Req_dec_T (sumR_n n e) 0) as [H0|_]; [lra|].
  assert (Hq : e i / sumR_n n e <= 1).
  { apply (Rmult_le_reg_r (sumR_n n e)); [lra|].
    unfold Rdiv. rewrite Rmult_assoc, Rinv_l by lra.
    assert (e i <= sumR_n n e)
      by (apply (sumR_n_ge_term e Hi); intros x Hx; apply He; exact Hx).
    lra. }
  pose proof DBL_MAX_ge_1.
  destruct (Rlt_dec DBL_MAX (e i / sumR_n n e)) as [Hov|_]; [lra|].
  reflexivity.
Qed.

(** C8.  On finite logits with at least one row, [softmax] subtracts from
    every entry the maximum of its column before it exponentiates, so that
    every exponent is at most [0] and [0] for the maximum itself: what
    [np.exp] returns is a finite number in [0, 1], never [inf]; every
    column's normaliser is finite and lies between [1] and the number of
    rows, and every output is the finite quotient of the two, in [0, 1],
    never [nan]; every output column sums to [1].  Exponentiating the
    logits [[1000, 1000, 1000]] themselves gives [inf], and [inf / inf]
    is [nan]; [softmax] returns [[1/3, 1/3, 1/3]] for them. *)
Theorem softmax_stable :
  (forall (X : array2 R) (n m : nat),
     shape2 X = (n, m) -> (1 <= n)%nat -> (Z.of_nat n < 2 ^ 63)%Z ->
     exists S,
       FullyConnected.softmax X = Ok S
       /\ shape2 S = (n, m)
       /\ forall j, (j < m)%nat ->
            exists (e : nat -> R) (s : R),
              (forall i, (i < n)%nat ->
                 at2 X i j - column_max X n j <= 0
                 /\ np_exp (at2 X i j - column_max X n j) = Fin (e i)
                 /\ 0 <= e i <= 1)
              /\ (exists i, (i < n)%nat
                    /\ at2 X i j - column_max X n j = 0 /\ e i = 1)
              /\ fsum_n n (fun k => np_exp (at2 X k j - column_max X n j))
                 = Fin s
              /\ 1 <= s <= INR n
              /\ (forall i, (i < n)%nat ->
                    at2 S i j = Fin (e i / s) /\ 0 <= e i / s <= 1)
              /\ sumR_n n (fun i => finite_value (at2 S i j)) = 1)
  /\
  (np_exp 1000 = Inf
   /\ fdiv (np_exp 1000) (fsum_n 3 (fun _ => np_exp 1000)) = NaN)
  /\
  (exists S,
     FullyConnected.softmax logits_1000 = Ok S
     /\ at2 S 0 0 = Fin (1 / 3) /\ at2 S 1 0 = Fin (1 / 3)
     /\ at2 S 2 0 = Fin (1 / 3)).
Proof.
  split; [|split].
  - intros X n m HX Hn Hrows.
    destruct (softmax_column X HX Hn Hrows) as [S [E [HS Hcol]]].
    exists S. split; [exact E|]. split; [exact HS|]. intros j Hj.
    destruct (Hcol j Hj)
      as [e [s [Hup [Hatt [He [Hmax [Es [Esum [Hs Hout]]]]]]]]].
    exists e, s. split; [|split; [|split; [|split; [|split]]]].
    + intros i Hi. pose proof (Hup i Hi).
      destruct (He i Hi) as [Ei Hi01]. split; [lra|]. split; assumption.
    + destruct Hatt as [i [Hi Ei]]. exists i. split; [exact Hi|].
      split; [lra|apply Hmax; assumption].
    + exact Es.
    + exact Hs.
    + intros i Hi. split; [apply Hout; exact Hi|].
      destruct (He i Hi) as [_ [He0 He1]].
      assert (Hle : e i <= s).
      { rewrite Esum. apply (sumR_n_ge_term e Hi).
        intros x Hx. apply He. exact Hx. }
      split.
      * apply Rmult_le_pos; [exact He0|].
        left. apply Rinv_0_lt_compat. lra.
      * apply (Rmult_le_reg_r s); [lra|].
        unfold Rdiv. rewrite Rmult_assoc, Rinv_l by lra. lra.
    + rewrite (sumR_n_ext _ (fun i => e i / s)).
      * rewrite sumR_n_div, <- Esum. unfold Rdiv. apply Rinv_r. lra.
      * intros i Hi. rewrite (Hout i Hi). reflexivity.
  - assert (E : np_exp 1000 = Inf) by (apply np_exp_overflow; lra).
    split; [exact E|]. cbn [fsum_n]. rewrite E. reflexivity.
  - destruct (@softmax_column logits_1000 3 1 eq_refl) as [S [E [_ Hcol]]];
      [lia|lia|].
    exists S. split; [exact E|].
    destruct (Hcol O) as [e [s [_ [_ [_ [Hmax [_ [Esum [_ Hout]]]]]]]]]; [lia|].
    assert (HM : column_max logits_1000 3 0 = 1000).
    { unfold column_max, logits_1000. cbn [at2 max_upto Nat.sub].
      rewrite !(Rmax_left 1000 1000) by lra. reflexivity. }
    assert (He : forall i, (i < 3)%nat -> e i = 1).
    { intros i Hi. apply Hmax; [exact Hi|]. rewrite HM. reflexivity. }
    assert (Hs : s = 3).
    { rewrite Esum. cbn [sumR_n]. rewrite !He by lia. lra. }
    assert (Hval : forall i, (i < 3)%nat -> at2 S i 0 = Fin (1 / 3)).
    { intros i Hi. rewrite (Hout i Hi), (He i Hi), Hs. reflexivity. }
    repeat split; apply Hval; lia.
Qed.

Lemma softmax_stable_witness :
  shape2 logits_1000 = (3, 1)%nat
  /\ exists S,
       FullyConnected.softmax logits_1000 = Ok S
       /\ shape2 S = (3, 1)%nat
       /\ sumR_n 3 (fun i => finite_value (at2 S i 0)) = 1.
Proof.
  split; [reflexivity|].
  destruct (proj1 softmax_stable logits_1000 3 1 eq_refl)%nat
    as [S [E [HS Hcol]]]; [lia|lia|].
  exists S. split; [exact E|]. split; [exact HS|].
  destruct (Hcol O) as [e [s [_ [_ [_ [_ [_ Hsum]]]]]]]; [lia|]. exact Hsum.
Defined.

Local Close Scope R_scope.
Local Open Scope Q_scope.

(* ================================================================== *)
(** * Loops that write each cell once *)
(* ================================================================== *)

Section WriteOnce.

Variable St : Type.
Variable I : cells -> St -> St -> Prop.

Hypothesis I_refl : forall s, I (fun _ _ _ _ => False) s s.
Hypothesis I_trans : forall (P Q : cells) s s1 s2,
  I P s s1 -> I Q s1 s2 -> I (fun i h w c => P i h w c \/ Q i h w c) s s2.
Hypothesis I_sub : forall (P Q : cells) s s',
  (forall i h w c, Q i h w c -> P i h w c) -> I P s s' -> I Q s s'.

Lemma for_range_fills (n : nat) body (P : nat -> cells) (s0 : St) :
  (forall x s (Q : cells), (x < n)%nat -> I Q s0 s ->
     exists s', body x s = Ok s' /\ I (P x) s s') ->
  exists s', for_ (range n) s0 body = Ok s'
             /\ I (fun i h w c => exists x, (x < n)%nat /\ P x i h w c) s0 s'.
Proof.
  intros Hstep.
  apply (@for_range_inv St
           (fun k s => I (fun i h w c => exists x, (x < k)%nat /\ P x i h w c)
                         s0 s)).
  - apply (@I_sub (fun _ _ _ _ => False)); [|apply I_refl].
    intros i h w c [x [Hx _]]. lia.
  - intros x s Hx HI. destruct (Hstep x s _ Hx HI) as [s' [E HI']].
    exists s'. split; [exact E|].
    eapply I_sub; [|exact (I_trans HI HI')].
    intros i h w c [y [Hy HP]]. cbv beta.
    destruct (Nat.eq_dec y x) as [->|Hne]; [right; exact HP|].
    left. exists y. split; [lia|exact HP].
Qed.

End WriteOnce.

Lemma fills_refl (v : idx4) (T : array4) : fills v (fun _ _ _ _ => False) T T.
Proof.
  split; [reflexivity|]. split; [intros i h w c []|].
  intros; left; reflexivity.
Qed.

Lemma fills_trans (v : idx4) (P Q : cells) (T T1 T2 : array4) :
  fills v P T T1 -> fills v Q T1 T2 ->
  fills v (fun i h w c => P i h w c \/ Q i h w c) T T2.
Proof.
  intros [S1 [V1 K1]] [S2 [V2 K2]]. split; [congruence|]. split.
  - intros i h w c [HP|HQ]; [|apply V2; exact HQ].
    destruct (K2 i h w c) as [E|E]; [|exact E].
    rewrite E. apply V1. exact HP.
  - intros i h w c. destruct (K2 i h w c) as [E|E]; [|right; exact E].
    rewrite E. apply K1.
Qed.

Lemma fills_sub (v : idx4) (P Q : cells) (T T' : array4) :
  (forall i h w c, Q i h w c -> P i h w c) -> fills v P T T' -> fills v Q T T'.
Proof.
  intros Hsub [S1 [V1 K1]]. split; [exact S1|]. split; [|exact K1].
  intros i h w c HQ. apply V1, Hsub, HQ.
Qed.

Lemma set4_fills (v : idx4) (T : array4) (m H W C i h w c : nat) :
  shape4 T = (m, H, W, C) ->
  (i < m)%nat -> (h < H)%nat -> (w < W)%nat -> (c < C)%nat ->
  exists T', set4 T i h w c (v i h w c) = Ok T'
             /\ fills v (cell_is i h w c) T T'.
Proof.
  intros HT Hi Hh Hw Hc. unfold set4. rewrite HT.
  ltb_true Hi. ltb_true Hh. ltb_true Hw. ltb_true Hc. cbn [andb].
  eexists. split; [reflexivity|]. split; [cbn; congruence|]. split.
  - intros i' h' w' c' [-> [-> [-> ->]]]. cbn [at4].
    rewrite !Nat.eqb_refl. reflexivity.
  - intros i' h' w' c'. cbn [at4].
    destruct (Nat.eqb_spec i' i) as [->|]; cbn [andb]; [|left; reflexivity].
    destruct (Nat.eqb_spec h' h) as [->|]; cbn [andb]; [|left; reflexivity].
    destruct (Nat.eqb_spec w' w) as [->|]; cbn [andb]; [|left; reflexivity].
    destruct (Nat.eqb_spec c' c) as [->|]; [right|left]; reflexivity.
Qed.

(* ================================================================== *)
(** * Pooling.forward: the values *)
(* ================================================================== *)

Section PoolingForward.

Variables (self : Pooling.t) (A_prev : array4).
Variables (m H W C f stride : nat).

Local Abbreviation nH := (Z.to_nat (floor_dim H f 0 stride)).
Local Abbreviation nW := (Z.to_nat (floor_dim W f 0 stride)).

Hypothesis HA : shape4 A_prev = (m, H, W, C).
Hypothesis Hf_eq : Pooling.f (Pooling.hparams self) = f.
Hypothesis Hs_eq : Pooling.stride (Pooling.hparams self) = stride.
Hypothesis Hs : (1 <= stride)%nat.
Hypothesis Hf : (1 <= f)%nat.
Hypothesis HfH : (f <= H)%nat.
Hypothesis HfW : (f <= W)%nat.

Lemma floor_dim_0 (n : nat) :
  floor_dim n f 0 stride
  = ((Z.of_nat n - Z.of_nat f) / Z.of_nat stride + 1)%Z.
Proof. unfold floor_dim. f_equal. f_equal. lia. Qed.

Lemma pool_window_fits_H (h : nat) : (h < nH)%nat -> (h * stride + f <= H)%nat.
Proof. rewrite floor_dim_0. apply window_fits; assumption. Qed.

Lemma pool_window_fits_W (w : nat) : (w < nW)%nat -> (w * stride + f <= W)%nat.
Proof. rewrite floor_dim_0. apply window_fits; assumption. Qed.

(** The slice read by iteration [(i, h, w, c)]. *)
Lemma forward_slice (i h w c : nat) :
  (i < m)%nat -> (h < nH)%nat -> (w < nW)%nat -> (c < C)%nat ->
  slice4c A_prev i (h * stride) (h * stride + f) (w * stride) (w * stride + f) c
  = Ok (mk2 (f, f)
            (fun r q => at4 A_prev i (h * stride + r) (w * stride + q) c)).
Proof.
  intros Hi Hh Hw Hc. unfold slice4c, getitem0. rewrite HA. ltb_true Hi.
  cbn [Py.bind]. unfold slice3c. cbn [shape3 at3]. ltb_true Hc.
  rewrite !slen_full by (apply pool_window_fits_H || apply pool_window_fits_W;
                         assumption).
  reflexivity.
Qed.

(** The four nested loops of [forward], for a mode that writes [v]. *)
Lemma forward_loops (v : idx4) :
  (forall i h w c A,
     Py.bind (Ok (mk2 (f, f)
                (fun r q => at4 A_prev i (h * stride + r) (w * stride + q) c)))
       (fun a_prev_slice =>
          if String.eqb (Pooling.mode self) "max"
          then Py.bind (max2 a_prev_slice) (fun v0 => set4 A i h w c v0)
          else if String.eqb (Pooling.mode self) "average"
               then set4 A i h w c (mean2 a_prev_slice)
               else Ok A)
     = set4 A i h w c (v i h w c)) ->
  exists A,
    Pooling.forward self A_prev = Ok (A, (A_prev, Pooling.hparams self))
    /\ shape4 A = (m, nH, nW, C)
    /\ forall i h w c,
         (i < m)%nat -> (h < nH)%nat -> (w < nW)%nat -> (c < C)%nat ->
         at4 A i h w c = v i h w c.
Proof.
  intros Hbody. unfold Pooling.forward. rewrite HA, Hf_eq, Hs_eq.
  rewrite !Pooling_out_dim_floor by assumption. cbn [Py.bind].
  pose proof (floor_dim_pos Hs HfH) as HnH.
  pose proof (floor_dim_pos Hs HfW) as HnW.
  rewrite np_zeros4_ok by lia. cbn [Py.bind].
  rewrite <- !floor_dim_0.
  edestruct (@for_range_fills array4 (fills v) (fills_refl v)
               (@fills_trans v) (@fills_sub v) m) as [A [E HF]];
    [|rewrite E].
  - intros i A0 Q0 Hi [HS0 _]. cbv beta.
    apply (@for_range_fills array4 (fills v) (fills_refl v)
             (@fills_trans v) (@fills_sub v) nH
             _ (fun h i' h' w' c' =>
                  exists w, (w < nW)%nat /\
                  exists c, (c < C)%nat /\ cell_is i h w c i' h' w' c')).
    intros h A1 Q1 Hh [HS1 _]. cbv beta.
    apply (@for_range_fills array4 (fills v) (fills_refl v)
             (@fills_trans v) (@fills_sub v) nW
             _ (fun w i' h' w' c' =>
                  exists c, (c < C)%nat /\ cell_is i h w c i' h' w' c')).
    intros w A2 Q2 Hw [HS2 _]. cbv beta.
    apply (@for_range_fills array4 (fills v) (fills_refl v)
             (@fills_trans v) (@fills_sub v) C
             _ (fun c => cell_is i h w c)).
    intros c A3 Q3 Hc [HS3 _]. cbv beta.
    rewrite forward_slice by assumption. rewrite Hbody.
    eapply set4_fills; try eassumption.
    rewrite HS3, HS2, HS1, HS0. reflexivity.
  - cbn [Py.bind]. exists A. split; [reflexivity|].
    destruct HF as [HS [HV _]]. split; [exact HS|].
    intros i h w c Hi Hh Hw Hc. apply HV.
    exists i. split; [exact Hi|]. exists h. split; [exact Hh|].
    exists w. split; [exact Hw|]. exists c. split; [exact Hc|].
    repeat split.
Qed.

End PoolingForward.

Lemma window_max_cell (A_prev : array4) (f stride i h w c : nat) :
  (1 <= f)%nat ->
  exists r q, in_window f stride h w r q = true
              /\ at4 A_prev i r q c = window_max A_prev f stride i h w c.
Proof.
  intros Hf.
  pose proof (list_max_attained
                (window_cells_nonempty A_prev stride i h w c Hf)) as Hin.
  fold (window_max A_prev f stride i h w c) in Hin.
  unfold window_cells in Hin. apply in_flat_map in Hin as [r [Hr Hin]].
  apply in_map_iff in Hin as [q [E Hq]]. apply in_seq in Hr, Hq.
  exists (h * stride + r)%nat, (w * stride + q)%nat. split; [|exact E].
  apply in_window_offsets; lia.
Qed.

(** X1.  In max mode, for a window that fits the input and a stride of at
    least 1, [Pooling.forward] returns the input with its hyperparameters as
    cache and an output of shape
    [(m, floor((H - f) / stride) + 1, floor((W - f) / stride) + 1, C)]
    whose every cell is the maximum of its window: it bounds every cell of
    the window and is the value of one of them. *)
Theorem Pooling_forward_max_values
  (self : Pooling.t) (A_prev : array4) (m H W C : nat) :
  Pooling.mode self = "max"%string ->
  shape4 A_prev = (m, H, W, C) ->
  (1 <= Pooling.stride (Pooling.hparams self))%nat ->
  (1 <= Pooling.f (Pooling.hparams self))%nat ->
  (Pooling.f (Pooling.hparams self) <= H)%nat ->
  (Pooling.f (Pooling.hparams self) <= W)%nat ->
  let f := Pooling.f (Pooling.hparams self) in
  let stride := Pooling.stride (Pooling.hparams self) in
  exists A,
    Pooling.forward self A_prev = Ok (A, (A_prev, Pooling.hparams self))
    /\ shape4 A = (m, Z.to_nat (floor_dim H f 0 stride),
                   Z.to_nat (floor_dim W f 0 stride), C)
    /\ forall i h w c,
         (i < m)%nat -> (h < Z.to_nat (floor_dim H f 0 stride))%nat ->
         (w < Z.to_nat (floor_dim W f 0 stride))%nat -> (c < C)%nat ->
         at4 A i h w c = window_max A_prev f stride i h w c
         /\ (forall r q, in_window f stride h w r q = true ->
               at4 A_prev i r q c <= at4 A i h w c)
         /\ (exists r q, in_window f stride h w r q = true
                         /\ at4 A_prev i r q c = at4 A i h w c).
Proof.
  intros Hmode HA Hs Hf HfH HfW f stride.
  destruct (@forward_loops self A_prev m H W C f stride HA eq_refl eq_refl
              Hs Hf HfH HfW (window_max A_prev f stride)) as [A [E [HS HV]]].
  { intros i h w c A0. rewrite Hmode. cbn [Py.bind].
    rewrite String.eqb_refl. rewrite max2_window by assumption. reflexivity. }
  exists A. split; [exact E|]. split; [exact HS|].
  intros i h w c Hi Hh Hw Hc.
  rewrite (HV i h w c Hi Hh Hw Hc). split; [reflexivity|]. split.
  - intros r q Hin. apply list_max_upper, in_window_cells, Hin.
  - apply window_max_cell. exact Hf.
Qed.

Lemma Pooling_forward_max_values_witness :
  Pooling.mode (pool_2x2 "max") = "max"%string
  /\ shape4 window_5512 = (1, 2, 2, 1)%nat
  /\ exists A,
       Pooling.forward (pool_2x2 "max") window_5512
       = Ok (A, (window_5512, Pooling.hparams (pool_2x2 "max")))
       /\ shape4 A = (1, 1, 1, 1)%nat
       /\ at4 A 0 0 0 0 = window_max window_5512 2 2 0 0 0 0.
Proof.
  split; [reflexivity|]. split; [reflexivity|].
  destruct (@Pooling_forward_max_values (pool_2x2 "max") window_5512 1 2 2 1)
    as [A [E [HS HV]]]; try reflexivity; try (cbn; lia).
  exists A. split; [exact E|]. split; [exact HS|].
  apply (HV 0 0 0 0)%nat; cbn; lia.
Defined.

(** X2.  In average mode, under the same conditions, every output cell of
    [Pooling.forward] is the sum of its window divided by [f * f]. *)
Theorem Pooling_forward_average_values
  (self : Pooling.t) (A_prev : array4) (m H W C : nat) :
  Pooling.mode self = "average"%string ->
  shape4 A_prev = (m, H, W, C) ->
  (1 <= Pooling.stride (Pooling.hparams self))%nat ->
  (1 <= Pooling.f (Pooling.hparams self))%nat ->
  (Pooling.f (Pooling.hparams self) <= H)%nat ->
  (Pooling.f (Pooling.hparams self) <= W)%nat ->
  let f := Pooling.f (Pooling.hparams self) in
  let stride := Pooling.stride (Pooling.hparams self) in
  exists A,
    Pooling.forward self A_prev = Ok (A, (A_prev, Pooling.hparams self))
    /\ forall i h w c,
         (i < m)%nat -> (h < Z.to_nat (floor_dim H f 0 stride))%nat ->
         (w < Z.to_nat (floor_dim W f 0 stride))%nat -> (c < C)%nat ->
         at4 A i h w c == window_sum A_prev f stride i h w c / Qnat (f * f).
Proof.
  intros Hmode HA Hs Hf HfH HfW f stride.
  destruct (@forward_loops self A_prev m H W C f stride HA eq_refl eq_refl
              Hs Hf HfH HfW
              (fun i h w c => window_sum A_prev f stride i h w c
                              / Qnat (f * f))) as [A [E [_ HV]]].
  { intros i h w c A0. rewrite Hmode. cbn [Py.bind].
    change (String.eqb "average" "max") with false.
    rewrite String.eqb_refl. reflexivity. }
  exists A. split; [exact E|]. intros i h w c Hi Hh Hw Hc.
  rewrite (HV i h w c Hi Hh Hw Hc). reflexivity.
Qed.

Lemma Pooling_forward_average_values_witness :
  Pooling.mode (pool_2x2 "average") = "average"%string
  /\ shape4 window_1234 = (1, 2, 2, 1)%nat
  /\ exists A,
       Pooling.forward (pool_2x2 "average") window_1234
       = Ok (A, (window_1234, Pooling.hparams (pool_2x2 "average")))
       /\ at4 A 0 0 0 0 == window_sum window_1234 2 2 0 0 0 0 / Qnat (2 * 2).
Proof.
  split; [reflexivity|]. split; [reflexivity|].
  destruct (@Pooling_forward_average_values (pool_2x2 "average") window_1234
              1 2 2 1) as [A [E HV]]; try reflexivity; try (cbn; lia).
  exists A. split; [exact E|].
  apply (HV 0 0 0 0)%nat; cbn; lia.
Defined.

(* ================================================================== *)
(** * Pooling: forward then backward, and what backward conserves *)
(* ================================================================== *)

Lemma pool_fits (n f stride h : nat) :
  (1 <= stride)%nat -> (f <= n)%nat ->
  (h < Z.to_nat (floor_dim n f 0 stride))%nat -> (h * stride + f <= n)%nat.
Proof.
  intros Hs Hfn Hh. apply window_fits; [assumption|assumption|].
  unfold floor_dim in Hh.
  replace (Z.of_nat n - Z.of_nat f)%Z
    with (Z.of_nat n - Z.of_nat f + 2 * Z.of_nat 0)%Z by lia.
  exact Hh.
Qed.

(** X3.  In max mode, [backward] run on the cache of a [forward] call and an
    upstream gradient shaped like that call's output succeeds and returns a
    gradient shaped like the input; an input cell receives the upstream
    value of each window holding it whose forward output it equals. *)
Theorem Pooling_backward_after_forward_max
  (self : Pooling.t) (A_prev dA A : array4) (cache : Pooling.cache)
  (m H W C : nat) :
  Pooling.mode self = "max"%string ->
  shape4 A_prev = (m, H, W, C) ->
  (1 <= Pooling.stride (Pooling.hparams self))%nat ->
  (1 <= Pooling.f (Pooling.hparams self))%nat ->
  (Pooling.f (Pooling.hparams self) <= H)%nat ->
  (Pooling.f (Pooling.hparams self) <= W)%nat ->
  Pooling.forward self A_prev = Ok (A, cache) ->
  shape4 dA = shape4 A ->
  let f := Pooling.f (Pooling.hparams self) in
  let stride := Pooling.stride (Pooling.hparams self) in
  exists dA_prev,
    Pooling.backward self dA cache = Ok dA_prev
    /\ shape4 dA_prev = shape4 A_prev
    /\ forall i r q c, (i < m)%nat -> (c < C)%nat ->
         at4 dA_prev i r q c
         == sum_n (Z.to_nat (floor_dim H f 0 stride)) (fun h =>
              sum_n (Z.to_nat (floor_dim W f 0 stride)) (fun w =>
                if in_window f stride h w r q
                   && Qeq_bool (at4 A_prev i r q c) (at4 A i h w c)
                then at4 dA i h w c else 0)).
Proof.
  intros Hmode HA Hs Hf HfH HfW Hfw HdA f stride.
  destruct (@forward_loops self A_prev m H W C f stride HA eq_refl eq_refl
              Hs Hf HfH HfW (window_max A_prev f stride))
    as [A' [E [HSA HV]]].
  { intros i h w c A0. rewrite Hmode. cbn [Py.bind].
    rewrite String.eqb_refl. rewrite max2_window by assumption. reflexivity. }
  rewrite E in Hfw. injection Hfw as <- <-. rewrite HSA in HdA.
  destruct (@backward_loops self A_prev dA m H W C
              (Z.to_nat (floor_dim H f 0 stride))
              (Z.to_nat (floor_dim W f 0 stride)) f stride HA HdA
              (max_share A_prev dA f stride)) as [T [Eb [HsT Hsum]]].
  { intros i h w c T Hi Hh Hw Hc HT.
    apply (@backward_step_max self A_prev dA m H W C
             (Z.to_nat (floor_dim H f 0 stride))
             (Z.to_nat (floor_dim W f 0 stride)) f stride HdA Hf);
      try assumption.
    - intros h' Hh'. exact (@pool_fits H f stride h' Hs HfH Hh').
    - intros w' Hw'. exact (@pool_fits W f stride w' Hs HfW Hw'). }
  exists T. destruct (Pooling.hparams self) as [f0 s0] eqn:Ehp.
  cbn [Pooling.f Pooling.stride] in *. subst f stride.
  split; [exact Eb|]. split; [congruence|].
  intros i r q c Hi Hc. rewrite (Hsum i r q c Hi Hc).
  apply sum_n_ext; intros h Hh. apply sum_n_ext; intros w Hw.
  unfold max_share. rewrite (HV i h w c Hi Hh Hw Hc). reflexivity.
Qed.

Lemma Pooling_backward_after_forward_max_witness :
  exists A cache dA_prev,
    Pooling.forward (pool_2x2 "max") window_5512 = Ok (A, cache)
    /\ shape4 (upstream 3) = shape4 A
    /\ Pooling.backward (pool_2x2 "max") (upstream 3) cache = Ok dA_prev
    /\ shape4 dA_prev = shape4 window_5512.
Proof.
  destruct (Pooling.forward (pool_2x2 "max") window_5512)
    as [[A cache]|e] eqn:E; [|vm_compute in E; discriminate].
  assert (HS : shape4 (upstream 3) = shape4 A).
  { vm_compute in E. injection E as <- <-. reflexivity. }
  destruct (@Pooling_backward_after_forward_max (pool_2x2 "max") window_5512
              (upstream 3) A cache 1 2 2 1 eq_refl eq_refl)
    as [dA_prev [Eb [Hs _]]]; try (cbn; lia); try assumption.
  exists A, cache, dA_prev. repeat split; assumption.
Defined.

Lemma sum_n_swap (a b : nat) (F : nat -> nat -> Q) :
  sum_n a (fun x => sum_n b (fun y => F x y))
  == sum_n b (fun y => sum_n a (fun x => F x y)).
Proof.
  induction a as [|a IH]; cbn [sum_n].
  - symmetry. apply sum_n_zero. reflexivity.
  - rewrite IH, <- sum_n_plus. reflexivity.
Qed.

Lemma Qnat_S (n : nat) : Qnat (S n) == Qnat n + 1.
Proof.
  unfold Qnat. rewrite Nat2Z.inj_succ. unfold Z.succ.
  rewrite inject_Z_plus. reflexivity.
Qed.

(** The number of indices below [n] inside a slice, times [v]. *)
Lemma sum_n_within (n vs f : nat) (v : Q) :
  sum_n n (fun r => if within vs f r then v else 0)
  == Qnat (Nat.min n (vs + f) - Nat.min n vs) * v.
Proof.
  induction n as [|n IH]; cbn [sum_n].
  - unfold Qnat. cbn. ring.
  - rewrite IH. unfold within.
    destruct (Nat.leb_spec vs n); destruct (Nat.ltb_spec n (vs + f));
      cbn [andb].
    + replace (Nat.min (S n) (vs + f) - Nat.min (S n) vs)%nat
        with (S (Nat.min n (vs + f) - Nat.min n vs)) by lia.
      rewrite Qnat_S. ring.
    + replace (Nat.min (S n) (vs + f) - Nat.min (S n) vs)%nat
        with (Nat.min n (vs + f) - Nat.min n vs)%nat by lia.
      ring.
    + replace (Nat.min (S n) (vs + f) - Nat.min (S n) vs)%nat
        with (Nat.min n (vs + f) - Nat.min n vs)%nat by lia.
      ring.
    + replace (Nat.min (S n) (vs + f) - Nat.min (S n) vs)%nat
        with (Nat.min n (vs + f) - Nat.min n vs)%nat by lia.
      ring.
Qed.

(** Over the whole input, the shares of one window add up to its upstream
    value. *)
Lemma average_share_over_input (dA : array4) (H W f stride i h w c : nat) :
  (1 <= f)%nat -> (h * stride + f <= H)%nat -> (w * stride + f <= W)%nat ->
  sum_n H (fun r => sum_n W (fun q => average_share dA f stride i h w r q c))
  == at4 dA i h w c.
Proof.
  intros Hf HH HW. unfold average_share, in_window.
  rewrite (sum_n_ext _ (fun r =>
    if within (h * stride) f r
    then Qnat f * (at4 dA i h w c / Qnat (f * f)) else 0)).
  - rewrite sum_n_within.
    replace (Nat.min H (h * stride + f) - Nat.min H (h * stride))%nat
      with f by lia.
    rewrite Qnat_mul. pose proof (Qnat_pos Hf) as Hpos. field.
    intros E. rewrite E in Hpos. apply (Qlt_irrefl 0). assumption.
  - intros r Hr. destruct (within (h * stride) f r); cbn [andb].
    + rewrite sum_n_within.
      replace (Nat.min W (w * stride + f) - Nat.min W (w * stride))%nat
        with f by lia.
      reflexivity.
    + apply sum_n_zero. reflexivity.
Qed.

(** X4.  In average mode, on a cache and an upstream gradient of matching
    shapes whose windows lie inside the input, [backward] conserves the
    gradient: for every sample and channel, the returned input gradient
    summed over the input plane equals the upstream gradient summed over the
    output plane. *)
Theorem Pooling_backward_average_conserves
  (self : Pooling.t) (A_prev dA : array4) (m H W C n_H n_W f stride : nat) :
  Pooling.mode self = "average"%string ->
  shape4 A_prev = (m, H, W, C) ->
  shape4 dA = (m, n_H, n_W, C) ->
  (1 <= f)%nat ->
  (forall h, (h < n_H)%nat -> (h * stride + f <= H)%nat) ->
  (forall w, (w < n_W)%nat -> (w * stride + f <= W)%nat) ->
  exists dA_prev,
    Pooling.backward self dA (A_prev, Pooling.mk_hparameters f stride)
    = Ok dA_prev
    /\ forall i c, (i < m)%nat -> (c < C)%nat ->
         sum_n H (fun r => sum_n W (fun q => at4 dA_prev i r q c))
         == sum_n n_H (fun h => sum_n n_W (fun w => at4 dA i h w c)).
Proof.
  intros Hmode HA HdA Hf HH HW.
  destruct (@backward_loops self A_prev dA m H W C n_H n_W f stride HA HdA
              (average_share dA f stride)) as [T [E [_ Hsum]]].
  { intros. eapply backward_step_average; eassumption. }
  exists T. split; [exact E|]. intros i c Hi Hc.
  rewrite (sum_n_ext _ (fun r => sum_n n_H (fun h => sum_n W (fun q =>
             sum_n n_W (fun w => average_share dA f stride i h w r q c))))).
  2: { intros r _.
       rewrite (sum_n_ext _ (fun q => sum_n n_H (fun h => sum_n n_W (fun w =>
                  average_share dA f stride i h w r q c)))).
       - apply sum_n_swap.
       - intros q _. apply Hsum; assumption. }
  rewrite sum_n_swap. apply sum_n_ext; intros h Hh.
  rewrite (sum_n_ext _ (fun r => sum_n n_W (fun w => sum_n W (fun q =>
             average_share dA f stride i h w r q c)))).
  2: { intros r _. apply sum_n_swap. }
  rewrite sum_n_swap. apply sum_n_ext; intros w Hw.
  apply average_share_over_input; auto.
Qed.

Lemma Pooling_backward_average_conserves_witness :
  Pooling.mode pool_2x2_by_1 = "average"%string
  /\ shape4 (zeros4 (1, 2, 3, 1)%nat) = (1, 2, 3, 1)%nat
  /\ shape4 upstream_4_8 = (1, 1, 2, 1)%nat
  /\ exists dA_prev,
       Pooling.backward pool_2x2_by_1 upstream_4_8
         (zeros4 (1, 2, 3, 1)%nat, Pooling.mk_hparameters 2 1) = Ok dA_prev
       /\ sum_n 2 (fun r => sum_n 3 (fun q => at4 dA_prev 0 r q 0))
          == sum_n 1 (fun h => sum_n 2 (fun w => at4 upstream_4_8 0 h w 0)).
Proof.
  split; [reflexivity|]. split; [reflexivity|]. split; [reflexivity|].
  destruct (@Pooling_backward_average_conserves pool_2x2_by_1
              (zeros4 (1, 2, 3, 1)%nat) upstream_4_8 1 2 3 1 1 2 2 1)
    as [T [E Hsum]]; try reflexivity; try (intros; lia).
  exists T. split; [exact E|]. apply Hsum; lia.
Defined.

(** X5.  In either mode, under the same conditions, an input cell that no
    window holds receives a zero gradient. *)
Theorem Pooling_backward_uncovered_zero
  (self : Pooling.t) (A_prev dA : array4) (m H W C n_H n_W f stride : nat) :
  Pooling.mode self = "max"%string \/ Pooling.mode self = "average"%string ->
  shape4 A_prev = (m, H, W, C) ->
  shape4 dA = (m, n_H, n_W, C) ->
  (1 <= f)%nat ->
  (forall h, (h < n_H)%nat -> (h * stride + f <= H)%nat) ->
  (forall w, (w < n_W)%nat -> (w * stride + f <= W)%nat) ->
  exists dA_prev,
    Pooling.backward self dA (A_prev, Pooling.mk_hparameters f stride)
    = Ok dA_prev
    /\ forall i r q c, (i < m)%nat -> (c < C)%nat ->
         (forall h w, (h < n_H)%nat -> (w < n_W)%nat ->
            in_window f stride h w r q = false) ->
         at4 dA_prev i r q c == 0.
Proof.
  intros [Hmode|Hmode] HA HdA Hf HH HW.
  - destruct (@backward_loops self A_prev dA m H W C n_H n_W f stride HA HdA
                (max_share A_prev dA f stride)) as [T [E [_ Hsum]]].
    { intros. eapply backward_step_max; eassumption. }
    exists T. split; [exact E|]. intros i r q c Hi Hc Hout.
    rewrite (Hsum i r q c Hi Hc). apply sum_n_zero; intros h Hh.
    apply sum_n_zero; intros w Hw. unfold max_share.
    rewrite (Hout h w Hh Hw). reflexivity.
  - destruct (@backward_loops self A_prev dA m H W C n_H n_W f stride HA HdA
                (average_share dA f stride)) as [T [E [_ Hsum]]].
    { intros. eapply backward_step_average; eassumption. }
    exists T. split; [exact E|]. intros i r q c Hi Hc Hout.
    rewrite (Hsum i r q c Hi Hc). apply sum_n_zero; intros h Hh.
    apply sum_n_zero; intros w Hw. unfold average_share.
    rewrite (Hout h w Hh Hw). reflexivity.
Qed.

Lemma Pooling_backward_uncovered_zero_witness :
  Pooling.mode (pool_2x2 "max") = "max"%string
  /\ shape4 (ones4 (1, 3, 3, 1)%nat) = (1, 3, 3, 1)%nat
  /\ shape4 (upstream 3) = (1, 1, 1, 1)%nat
  /\ exists dA_prev,
       Pooling.backward (pool_2x2 "max") (upstream 3)
         (ones4 (1, 3, 3, 1)%nat, Pooling.mk_hparameters 2 2) = Ok dA_prev
       /\ at4 dA_prev 0 2 2 0 == 0.
Proof.
  split; [reflexivity|]. split; [reflexivity|]. split; [reflexivity|].
  destruct (@Pooling_backward_uncovered_zero (pool_2x2 "max")
              (ones4 (1, 3, 3, 1)%nat) (upstream 3) 1 3 3 1 1 1 2 2)
    as [T [E Hz]]; try reflexivity; try (intros; lia);
    [left; reflexivity|].
  exists T. split; [exact E|]. apply Hz; try lia.
  intros h w Hh Hw. replace h with O by lia. replace w with O by lia.
  reflexivity.
Defined.

(* ================================================================== *)
(** * Degenerate configurations of the forward passes *)
(* ================================================================== *)

(** X6.  A stride of 0 stops both forward passes with [ZeroDivisionError],
    whatever the input and before anything is allocated. *)
Theorem forward_zero_stride :
  (forall (G : globals) (self : Conv2d.t) (A_prev : array4),
     Conv2d.stride (Conv2d.hparams self) = 0%nat ->
     Conv2d.forward G self A_prev = Raise ZeroDivisionError)
  /\ (forall (self : Pooling.t) (A_prev : array4),
        Pooling.stride (Pooling.hparams self) = 0%nat ->
        Pooling.forward self A_prev = Raise ZeroDivisionError).
Proof.
  split.
  - intros G self A_prev Hs. unfold Conv2d.forward.
    destruct (shape4 A_prev) as [[[m H] W] C].
    destruct (shape4 (Conv2d.W self)) as [[[f0 f] C'] n_C].
    rewrite Hs. reflexivity.
  - intros self A_prev Hs. unfold Pooling.forward.
    destruct (shape4 A_prev) as [[[m H] W] C].
    rewrite Hs. reflexivity.
Qed.

Lemma forward_zero_stride_witness :
  Pooling.stride (Pooling.hparams (Pooling.mk (Pooling.mk_hparameters 2 0) "max"))
  = 0%nat
  /\ Pooling.forward (Pooling.mk (Pooling.mk_hparameters 2 0) "max") window_5512
     = Raise ZeroDivisionError.
Proof.
  split; [reflexivity|].
  apply (proj2 forward_zero_stride). reflexivity.
Defined.

(** [int(p / s)] for integers [p] and [s > 0] is the quotient rounded
    towards zero. *)
Lemma Pooling_int_quot (p s : Z) :
  (0 < s)%Z -> Pooling.int (inject_Z p / inject_Z s) = Z.quot p s.
Proof.
  intros Hs. unfold Pooling.int.
  destruct (Z.le_gt_cases 0 p) as [Hp|Hp].
  - assert (Hnn : 0 <= inject_Z p / inject_Z s).
    { apply Qle_trans with (inject_Z (Qfloor (inject_Z p / inject_Z s)));
        [|apply Qfloor_le].
      rewrite <- Zdiv_Qdiv. change 0 with (inject_Z 0). rewrite <- Zle_Qle.
      apply Z.div_pos; lia. }
    apply Qle_bool_iff in Hnn. rewrite Hnn.
    rewrite <- Zdiv_Qdiv. symmetry. apply Z.quot_div_nonneg; lia.
  - assert (Hneg : inject_Z p / inject_Z s < 0).
    { apply Qlt_shift_div_r.
      - change 0 with (inject_Z 0). rewrite <- Zlt_Qlt. exact Hs.
      - rewrite Qmult_0_l. change 0 with (inject_Z 0). rewrite <- Zlt_Qlt.
        exact Hp. }
    destruct (Qle_bool 0 (inject_Z p / inject_Z s)) eqn:Eb.
    + apply Qle_bool_iff in Eb. exfalso.
      apply (Qlt_irrefl 0). eapply Qle_lt_trans; eassumption.
    + unfold Qceiling.
      assert (E : - (inject_Z p / inject_Z s) == inject_Z (- p) / inject_Z s).
      { rewrite inject_Z_opp. field. intros E0.
        unfold Qeq in E0. simpl in E0. lia. }
      rewrite E, <- Zdiv_Qdiv.
      rewrite <- (Z.quot_div_nonneg (- p) s) by lia.
      rewrite Z.quot_opp_l by lia. lia.
Qed.

Lemma Pooling_out_dim_quot (n f stride : nat) :
  (1 <= stride)%nat ->
  Pooling.out_dim n f stride
  = Ok (Z.quot (Z.of_nat stride + (Z.of_nat n - Z.of_nat f))
               (Z.of_nat stride)).
Proof.
  intros Hs. unfold Pooling.out_dim.
  destruct (Nat.eqb_spec stride 0); [lia|]. f_equal.
  rewrite <- Pooling_int_quot by lia.
  assert (E : 1 + inject_Z (Z.of_nat n - Z.of_nat f) / inject_Z (Z.of_nat stride)
              == inject_Z (Z.of_nat stride + (Z.of_nat n - Z.of_nat f))
                 / inject_Z (Z.of_nat stride)).
  { rewrite inject_Z_plus. field. apply inject_Z_pos_neq. assumption. }
  unfold Pooling.int.
  rewrite (Qfloor_comp _ _ E), (Qceiling_comp _ _ E).
  destruct (Qle_bool 0 (1 + _)) eqn:B1;
    destruct (Qle_bool 0 (inject_Z (Z.of_nat stride + _) / _)) eqn:B2;
    try reflexivity.
  - apply Qle_bool_iff in B1. rewrite E in B1. apply Qle_bool_iff in B1.
    congruence.
  - apply Qle_bool_iff in B2. rewrite <- E in B2. apply Qle_bool_iff in B2.
    congruence.
Qed.

Lemma quot_near_zero (p s : Z) : (- s < p < s)%Z -> Z.quot p s = 0%Z.
Proof.
  intros Hp. destruct (Z.le_gt_cases 0 p).
  - apply Z.quot_small. lia.
  - replace p with (- - p)%Z by lia. rewrite Z.quot_opp_l by lia.
    rewrite Z.quot_small by lia. reflexivity.
Qed.

Lemma quot_nonneg_above (p s : Z) : (- s < p)%Z -> (0 < s)%Z -> (0 <= Z.quot p s)%Z.
Proof.
  intros Hp Hs. destruct (Z.le_gt_cases 0 p).
  - apply Z.quot_pos; lia.
  - rewrite quot_near_zero by lia. lia.
Qed.

Lemma quot_negative (p s : Z) : (0 < s)%Z -> (p <= - s)%Z -> (Z.quot p s < 0)%Z.
Proof.
  intros Hs Hp. replace p with (- - p)%Z by lia.
  rewrite Z.quot_opp_l by lia.
  assert (0 < Z.quot (- p) s)%Z by (apply Z.quot_str_pos; lia). lia.
Qed.

(** X7.  A pooling window taller than the input is not rejected as such.
    When it exceeds the input by less than two strides, [int] rounds the
    computed size up to 0 and [Pooling.forward] returns an output with no
    row, running no iteration; only from two strides on is the size negative
    and refused by [np.zeros] with [ValueError]. *)
Theorem Pooling_forward_oversized_window
  (self : Pooling.t) (A_prev : array4) (m H W C : nat) :
  shape4 A_prev = (m, H, W, C) ->
  (1 <= Pooling.stride (Pooling.hparams self))%nat ->
  (H < Pooling.f (Pooling.hparams self))%nat ->
  let f := Pooling.f (Pooling.hparams self) in
  let stride := Pooling.stride (Pooling.hparams self) in
  ((f < H + 2 * stride)%nat -> (f < W + 2 * stride)%nat ->
   exists A n_W,
     Pooling.forward self A_prev = Ok (A, (A_prev, Pooling.hparams self))
     /\ shape4 A = (m, 0%nat, n_W, C))
  /\ ((H + 2 * stride <= f)%nat ->
      Pooling.forward self A_prev = Raise ValueError).
Proof.
  intros HA Hs HHf f stride. fold f in HHf. fold stride in Hs. split.
  - intros Hlt HltW. unfold Pooling.forward. rewrite HA. fold f stride.
    rewrite !Pooling_out_dim_quot by assumption. cbn [Py.bind].
    rewrite (@quot_near_zero (Z.of_nat stride + (Z.of_nat H - Z.of_nat f)))
      by lia.
    assert (HnW : (0 <= Z.quot (Z.of_nat stride + (Z.of_nat W - Z.of_nat f))
                             (Z.of_nat stride))%Z)
      by (apply quot_nonneg_above; lia).
    rewrite np_zeros4_ok by lia. cbn [Py.bind].
    set (A0 := zeros4 _).
    edestruct (@for_range_inv array4 (fun _ A => A = A0) m) as [A [E HP]];
      [reflexivity| |rewrite E].
    + intros i A1 _ ->. exists A0. split; reflexivity.
    + subst A. cbn [Py.bind]. do 2 eexists. split; reflexivity.
  - intros Hge. unfold Pooling.forward. rewrite HA. fold f stride.
    rewrite !Pooling_out_dim_quot by assumption. cbn [Py.bind].
    unfold np_zeros4.
    assert (Hneg : (Z.quot (Z.of_nat stride + (Z.of_nat H - Z.of_nat f))
                           (Z.of_nat stride) < 0)%Z)
      by (apply quot_negative; lia).
    apply Z.ltb_lt in Hneg. rewrite Hneg. reflexivity.
Qed.

Lemma Pooling_forward_oversized_window_witness :
  shape4 window_5512 = (1, 2, 2, 1)%nat
  /\ (2 < Pooling.f (Pooling.hparams pool_3x3_by_2))%nat
  /\ exists A n_W,
       Pooling.forward pool_3x3_by_2 window_5512
       = Ok (A, (window_5512, Pooling.hparams pool_3x3_by_2))
       /\ shape4 A = (1, 0, n_W, 1)%nat.
Proof.
  split; [reflexivity|]. split; [cbn; lia|].
  apply (@Pooling_forward_oversized_window pool_3x3_by_2 window_5512 1 2 2 1);
    try reflexivity; cbn; lia.
Defined.

(** X8.  In average mode [backward] needs whole windows: when the first
    window is taller than the cached input and [f] is at least 2,
    [np.full((f, f), ...)] cannot be added to the shorter slice and the
    first iteration raises [ValueError]. *)
Theorem Pooling_backward_average_truncated_window
  (self : Pooling.t) (A_prev dA : array4) (m H W C n_H n_W f stride : nat) :
  Pooling.mode self = "average"%string ->
  shape4 A_prev = (m, H, W, C) ->
  shape4 dA = (m, n_H, n_W, C) ->
  (1 <= m)%nat -> (1 <= n_H)%nat -> (1 <= n_W)%nat -> (1 <= C)%nat ->
  (2 <= f)%nat -> (H < f)%nat ->
  Pooling.backward self dA (A_prev, Pooling.mk_hparameters f stride)
  = Raise ValueError.
Proof.
  intros Hmode HA HdA Hm HnH HnW HC Hf HHf.
  unfold Pooling.backward. cbn [Pooling.f Pooling.stride]. rewrite HdA.
  apply for_range_raise; [lia|].
  unfold getitem0. rewrite HA. ltb_true Hm. cbn [Py.bind].
  apply for_range_raise; [lia|]. apply for_range_raise; [lia|].
  apply for_range_raise; [lia|].
  unfold Pooling.backward_step. rewrite Hmode.
  change (String.eqb "average" "max") with false.
  rewrite String.eqb_refl. cbn iota.
  unfold get4. rewrite HdA. ltb_true Hm. ltb_true HnH. ltb_true HnW.
  ltb_true HC. cbn [andb Py.bind].
  unfold iadd_slice4c. cbn [zeros4 shape4 full2 shape2]. ltb_true Hm. ltb_true HC. cbn [andb negb Nat.mul].
  unfold slen, bto.
  replace (Nat.min (0 + f) H - Nat.min 0 H)%nat with H by lia.
  destruct (Nat.eqb_spec f H); [lia|]. destruct (Nat.eqb_spec f 1); [lia|].
  reflexivity.
Qed.

Lemma Pooling_backward_average_truncated_window_witness :
  Pooling.mode (pool_2x2 "average") = "average"%string
  /\ shape4 (ones4 (1, 1, 2, 1)%nat) = (1, 1, 2, 1)%nat
  /\ shape4 (upstream 4) = (1, 1, 1, 1)%nat
  /\ Pooling.backward (pool_2x2 "average") (upstream 4)
       (ones4 (1, 1, 2, 1)%nat, Pooling.mk_hparameters 2 2)
     = Raise ValueError.
Proof.
  split; [reflexivity|]. split; [reflexivity|]. split; [reflexivity|].
  apply (@Pooling_backward_average_truncated_window (pool_2x2 "average")
           (ones4 (1, 1, 2, 1)%nat) (upstream 4) 1 1 2 1 1 1 2 2);
    try reflexivity; lia.
Defined.

(* ================================================================== *)
(** * Conv2d.zero_pad and the removal of the padding *)
(* ================================================================== *)

Lemma sum_n_suffix_zero (n k : nat) (F : nat -> Q) :
  (forall r, (n <= r)%nat -> F r == 0) -> sum_n (n + k) F == sum_n n F.
Proof.
  intros HF. induction k as [|k IH].
  - rewrite Nat.add_0_r. reflexivity.
  - rewrite Nat.add_succ_r. cbn [sum_n]. rewrite IH, HF by lia. ring.
Qed.

Lemma sum_n_prefix_zero (p n : nat) (F : nat -> Q) :
  (forall r, (r < p)%nat -> F r == 0) ->
  sum_n (p + n) F == sum_n n (fun r => F (p + r)%nat).
Proof.
  intros HF. induction n as [|n IH].
  - rewrite Nat.add_0_r. cbn [sum_n]. apply sum_n_zero. exact HF.
  - rewrite Nat.add_succ_r. cbn [sum_n]. rewrite IH. reflexivity.
Qed.

(** A line of [n] numbers between two runs of [p] zeros adds up to the
    line. *)
Lemma sum_n_padded (n p : nat) (g F : nat -> Q) :
  (forall r, F r == if within p n r then g (r - p)%nat else 0) ->
  sum_n (n + 2 * p) F == sum_n n g.
Proof.
  intros HF. replace (n + 2 * p)%nat with (p + n + p)%nat by lia.
  rewrite sum_n_suffix_zero.
  - rewrite sum_n_prefix_zero.
    + apply sum_n_ext. intros r Hr. rewrite HF. unfold within.
      destruct (Nat.leb_spec p (p + r)); [|lia].
      destruct (Nat.ltb_spec (p + r) (p + n)); [|lia].
      cbn [andb]. replace (p + r - p)%nat with r by lia. reflexivity.
    + intros r Hr. rewrite HF. unfold within.
      destruct (Nat.leb_spec p r); [lia|]. reflexivity.
  - intros r Hr. rewrite HF. unfold within.
    destruct (Nat.ltb_spec r (p + n)); [lia|].
    rewrite Bool.andb_false_r. reflexivity.
Qed.

(** X9.  [zero_pad] widens both spatial axes by twice the layer's [pad]
    and adds nothing to the totals: every plane of the padded volume sums
    to what the plane of the input sums to. *)
Theorem zero_pad_keeps_plane_sums
  (self : Conv2d.t) (X : array4) (m H W C i c : nat) :
  shape4 X = (m, H, W, C) ->
  let p := Conv2d.pad (Conv2d.hparams self) in
  shape4 (Conv2d.zero_pad self X) = (m, H + 2 * p, W + 2 * p, C)%nat
  /\ plane_sum (Conv2d.zero_pad self X) (H + 2 * p) (W + 2 * p) i c
     == plane_sum X H W i c.
Proof.
  intros HX p. unfold Conv2d.zero_pad. rewrite HX. fold p.
  split; [reflexivity|]. unfold plane_sum. cbn [at4].
  apply (@sum_n_padded H p (fun r => sum_n W (fun q => at4 X i r q c))).
  intros r. destruct (within p H r) eqn:Hr; cbn [andb].
  - apply (@sum_n_padded W p (fun q => at4 X i (r - p) q c)).
    intros q. reflexivity.
  - apply sum_n_zero. intros q _. reflexivity.
Qed.

Lemma zero_pad_keeps_plane_sums_witness :
  shape4 window_1234 = (1, 2, 2, 1)%nat
  /\ shape4 (Conv2d.zero_pad conv_3x3_pad_1 window_1234) = (1, 4, 4, 1)%nat
  /\ plane_sum (Conv2d.zero_pad conv_3x3_pad_1 window_1234) 4 4 0 0 == 10.
Proof.
  split; [reflexivity|].
  destruct (@zero_pad_keeps_plane_sums conv_3x3_pad_1 window_1234 1 2 2 1 0 0
              eq_refl) as [HS Hsum].
  split; [exact HS|].
  change (2 + 2 * Conv2d.pad (Conv2d.hparams conv_3x3_pad_1))%nat with 4%nat
    in Hsum.
  rewrite Hsum. vm_compute. reflexivity.
Defined.

(* ================================================================== *)
(** * Conv2d.forward: the values *)
(* ================================================================== *)

Lemma fills_pair_refl (vZ vA : idx4) (s : array4 * array4) :
  fills_pair vZ vA (fun _ _ _ _ => False) s s.
Proof. split; apply fills_refl. Qed.

Lemma fills_pair_trans (vZ vA : idx4) (P Q : cells) (s s1 s2 : array4 * array4) :
  fills_pair vZ vA P s s1 -> fills_pair vZ vA Q s1 s2 ->
  fills_pair vZ vA (fun i h w c => P i h w c \/ Q i h w c) s s2.
Proof.
  intros [Z1 A1] [Z2 A2]. split; eapply fills_trans; eassumption.
Qed.

Lemma fills_pair_sub (vZ vA : idx4) (P Q : cells) (s s' : array4 * array4) :
  (forall i h w c, Q i h w c -> P i h w c) ->
  fills_pair vZ vA P s s' -> fills_pair vZ vA Q s s'.
Proof.
  intros Hsub [HZ HA]. split; eapply fills_sub; eassumption.
Qed.

Section Conv2dForwardValues.

Variables (self : Conv2d.t) (A_prev : array4).
Variables (m H Wd C f n_C stride pad : nat).
Variables (G : globals) (relu : Q -> Q).

Local Abbreviation nH := (Z.to_nat (floor_dim H f pad stride)).
Local Abbreviation nW := (Z.to_nat (floor_dim Wd f pad stride)).
Local Abbreviation vZ :=
  (conv_value self A_prev (H + 2 * pad) (Wd + 2 * pad) C f stride).
Local Abbreviation vA := (fun i h w c => relu (vZ i h w c)).

Hypothesis HA : shape4 A_prev = (m, H, Wd, C).
Hypothesis HW : shape4 (Conv2d.W self) = (f, f, C, n_C).
Hypothesis Hb : shape4 (Conv2d.b self) = (1, 1, 1, n_C)%nat.
Hypothesis Hstride : Conv2d.stride (Conv2d.hparams self) = stride.
Hypothesis Hpad : Conv2d.pad (Conv2d.hparams self) = pad.
Hypothesis Hs : (1 <= stride)%nat.
Hypothesis HfH : (f <= H + 2 * pad)%nat.
Hypothesis HfW : (f <= Wd + 2 * pad)%nat.
Hypothesis HG : load_global G "ReLU" = Ok (GFunction relu).

(** One iteration of the innermost loop writes the cell's two values. *)
Lemma forward_cell (i h w c : nat) (Z A : array4) :
  (i < m)%nat -> (h < nH)%nat -> (w < nW)%nat -> (c < n_C)%nat ->
  shape4 Z = (m, nH, nW, n_C) -> shape4 A = (m, nH, nW, n_C) ->
  exists Z' A',
    Py.bind (lastaxis (Conv2d.W self) c) (fun weights =>
    Py.bind (lastaxis (Conv2d.b self) c) (fun biases =>
    Py.bind (Conv2d.conv_single_step
               (slice3 (mk3 (H + 2 * pad, Wd + 2 * pad, C)%nat
                            (at4 (Conv2d.zero_pad self A_prev) i))
                       (h * stride) (h * stride + f)
                       (w * stride) (w * stride + f))
               weights biases) (fun z =>
    Py.bind (set4 Z i h w c z) (fun Z0 =>
    Py.bind (load_global G "ReLU") (fun relu0 =>
    Py.bind (get4 Z0 i h w c) (fun z0 =>
    Py.bind (call1 relu0 z0) (fun a =>
    Py.bind (set4 A i h w c a) (fun A0 => Ok (Z0, A0)))))))))
    = Ok (Z', A')
    /\ fills_pair vZ vA (cell_is i h w c) (Z, A) (Z', A').
Proof.
  intros Hi Hh Hw Hc HZ HAs.
  destruct (@forward_pre_activation self A_prev m H Wd C f n_C stride pad
              HW Hb Hs HfH HfW i h w c Z Hi Hh Hw Hc HZ)
    as [weights [biases [z [Z' [E1 [E2 [E3 [E4 [HZ' E5]]]]]]]]].
  assert (Ez : z = vZ i h w c).
  { unfold conv_value. rewrite E1, E2, E3. reflexivity. }
  rewrite E1, E2. cbn [Py.bind]. rewrite E3. cbn [Py.bind].
  rewrite E4. cbn [Py.bind]. rewrite HG. cbn [Py.bind].
  rewrite E5. cbn [Py.bind call1].
  destruct (@set4_fills vZ Z m nH nW n_C i h w c HZ Hi Hh Hw Hc)
    as [Z1 [EZ1 FZ]].
  destruct (@set4_fills vA A m nH nW n_C i h w c HAs Hi Hh Hw Hc)
    as [A1 [EA1 FA]].
  rewrite <- Ez in EZ1. rewrite E4 in EZ1. injection EZ1 as <-.
  cbv beta in EA1. rewrite <- Ez in EA1. rewrite EA1. cbn [Py.bind].
  exists Z', A1. split; [reflexivity|]. split; assumption.
Qed.

Lemma forward_values :
  exists A Z,
    Conv2d.forward G self A_prev
    = Ok (A, ((A_prev, Conv2d.W self, Conv2d.b self, Conv2d.hparams self), Z))
    /\ forall i h w c,
         (i < m)%nat -> (h < nH)%nat -> (w < nW)%nat -> (c < n_C)%nat ->
         at4 Z i h w c = vZ i h w c /\ at4 A i h w c = relu (at4 Z i h w c).
Proof.
  unfold Conv2d.forward. rewrite HA, HW, Hstride, Hpad.
  rewrite !Conv2d_out_dim_floor by assumption. cbn [Py.bind].
  pose proof (@floor_dim_pad_pos H f pad stride Hs HfH) as HnH.
  pose proof (@floor_dim_pad_pos Wd f pad stride Hs HfW) as HnW.
  rewrite !np_zeros4_ok by lia. cbn [Py.bind Conv2d.call_zero_pad].
  edestruct (@for_range_fills (array4 * array4) (fills_pair vZ vA)
               (fills_pair_refl vZ vA) (@fills_pair_trans vZ vA)
               (@fills_pair_sub vZ vA) m) as [[Z A] [E HF]];
    [|rewrite E].
  - intros i s0 Q0 Hi [[HZ0 _] [HA0 _]]. cbv beta.
    rewrite (@getitem0_zero_pad self A_prev m H Wd C pad HA Hpad i Hi).
    cbn [Py.bind].
    apply (@for_range_fills (array4 * array4) (fills_pair vZ vA)
             (fills_pair_refl vZ vA) (@fills_pair_trans vZ vA)
             (@fills_pair_sub vZ vA) nH
             _ (fun h i' h' w' c' =>
                  exists w, (w < nW)%nat /\
                  exists c, (c < n_C)%nat /\ cell_is i h w c i' h' w' c')).
    intros h s1 Q1 Hh [[HZ1 _] [HA1 _]]. cbv beta.
    apply (@for_range_fills (array4 * array4) (fills_pair vZ vA)
             (fills_pair_refl vZ vA) (@fills_pair_trans vZ vA)
             (@fills_pair_sub vZ vA) nW
             _ (fun w i' h' w' c' =>
                  exists c, (c < n_C)%nat /\ cell_is i h w c i' h' w' c')).
    intros w s2 Q2 Hw [[HZ2 _] [HA2 _]]. cbv beta.
    apply (@for_range_fills (array4 * array4) (fills_pair vZ vA)
             (fills_pair_refl vZ vA) (@fills_pair_trans vZ vA)
             (@fills_pair_sub vZ vA) n_C
             _ (fun c => cell_is i h w c)).
    intros c [Z3 A3] Q3 Hc [[HZ3 _] [HA3 _]]. cbv beta iota.
    cbn [fst snd zeros4 shape4] in *.
    destruct (@forward_cell i h w c Z3 A3 Hi Hh Hw Hc) as [Z' [A' [E F]]];
      [congruence|congruence|].
    exists (Z', A'). split; [exact E|exact F].
  - cbn [Py.bind]. exists A, Z. split; [reflexivity|].
    destruct HF as [[_ [HVZ _]] [_ [HVA _]]]. cbn [fst snd] in HVZ, HVA.
    intros i h w c Hi Hh Hw Hc.
    assert (HP : exists x, (x < m)%nat /\
                 exists h0, (h0 < nH)%nat /\
                 exists w0, (w0 < nW)%nat /\
                 exists c0, (c0 < n_C)%nat /\ cell_is x h0 w0 c0 i h w c).
    { exists i. split; [exact Hi|]. exists h. split; [exact Hh|].
      exists w. split; [exact Hw|]. exists c. split; [exact Hc|].
      repeat split. }
    rewrite (HVZ i h w c HP), (HVA i h w c HP). split; reflexivity.
Qed.

(** The value of a cell, written out. *)
Lemma conv_value_formula (i h w c : nat) :
  (h < nH)%nat -> (w < nW)%nat -> (c < n_C)%nat ->
  vZ i h w c
  == sum_n f (fun r => sum_n f (fun q => sum_n C (fun k =>
       at4 (Conv2d.zero_pad self A_prev) i (h * stride + r) (w * stride + q) k
       * at4 (Conv2d.W self) r q k c)))
     + Qnat (f * f * C) * at4 (Conv2d.b self) 0 0 0 c.
Proof.
  intros Hh Hw Hc. unfold conv_value, lastaxis. rewrite HW, Hb. ltb_true Hc.
  pose proof (@window_fits_pad H f pad stride h Hs HfH Hh) as HwH.
  pose proof (@window_fits_pad Wd f pad stride w Hs HfW Hw) as HwW.
  edestruct (@conv_single_step_bias) as [z [Ez Hz]]; [| | |rewrite Ez, Hz].
  - unfold slice3. cbn [shape3]. rewrite !slen_full by assumption. reflexivity.
  - reflexivity.
  - reflexivity.
  - unfold dot3, slice3. cbn [shape3 at3]. reflexivity.
Qed.

End Conv2dForwardValues.

(** X10.  Once the name [ReLU] resolves to a function, [Conv2d.forward] on
    a kernel that fits the padded input returns its input, weights, bias
    and hyperparameters as cache together with the pre-activation volume,
    whose every cell is the dot product of the padded window with the
    channel's filter plus the channel's bias counted [f * f * n_C_prev]
    times; the output volume is the function applied cell by cell. *)
Theorem Conv2d_forward_values
  (G : globals) (relu : Q -> Q) (self : Conv2d.t) (A_prev : array4)
  (m H Wd C f n_C : nat) :
  shape4 A_prev = (m, H, Wd, C) ->
  shape4 (Conv2d.W self) = (f, f, C, n_C) ->
  shape4 (Conv2d.b self) = (1, 1, 1, n_C)%nat ->
  (1 <= Conv2d.stride (Conv2d.hparams self))%nat ->
  (f <= H + 2 * Conv2d.pad (Conv2d.hparams self))%nat ->
  (f <= Wd + 2 * Conv2d.pad (Conv2d.hparams self))%nat ->
  load_global G "ReLU" = Ok (GFunction relu) ->
  let stride := Conv2d.stride (Conv2d.hparams self) in
  let pad := Conv2d.pad (Conv2d.hparams self) in
  exists A Z,
    Conv2d.forward G self A_prev
    = Ok (A, ((A_prev, Conv2d.W self, Conv2d.b self, Conv2d.hparams self), Z))
    /\ forall i h w c,
         (i < m)%nat -> (h < Z.to_nat (floor_dim H f pad stride))%nat ->
         (w < Z.to_nat (floor_dim Wd f pad stride))%nat -> (c < n_C)%nat ->
         at4 Z i h w c
         == sum_n f (fun r => sum_n f (fun q => sum_n C (fun k =>
              at4 (Conv2d.zero_pad self A_prev) i
                  (h * stride + r) (w * stride + q) k
              * at4 (Conv2d.W self) r q k c)))
            + Qnat (f * f * C) * at4 (Conv2d.b self) 0 0 0 c
         /\ at4 A i h w c = relu (at4 Z i h w c).
Proof.
  intros HA HW Hb Hs HfH HfW HG stride pad.
  destruct (@forward_values self A_prev m H Wd C f n_C stride pad G relu
              HA HW Hb eq_refl eq_refl Hs HfH HfW HG) as [A [Z [E HV]]].
  exists A, Z. split; [exact E|]. intros i h w c Hi Hh Hw Hc.
  destruct (HV i h w c Hi Hh Hw Hc) as [EZ EA]. split; [|exact EA].
  rewrite EZ.
  apply (@conv_value_formula self A_prev H Wd C f n_C stride pad HW Hb Hs
           HfH HfW i h w c Hh Hw Hc).
Qed.

Lemma Conv2d_forward_values_witness :
  shape4 (ones4 (1, 5, 5, 1)%nat) = (1, 5, 5, 1)%nat
  /\ shape4 (Conv2d.W conv_3x3_ones) = (3, 3, 1, 1)%nat
  /\ load_global globals_with_ReLU "ReLU" = Ok (GFunction Conv2d.ReLU)
  /\ exists A Z cache,
       Conv2d.forward globals_with_ReLU conv_3x3_ones (ones4 (1, 5, 5, 1)%nat)
       = Ok (A, (cache, Z))
       /\ at4 Z 0 1 1 0 == 9 /\ at4 A 0 1 1 0 == 9.
Proof.
  split; [reflexivity|]. split; [reflexivity|]. split; [reflexivity|].
  destruct (@Conv2d_forward_values globals_with_ReLU Conv2d.ReLU conv_3x3_ones
              (ones4 (1, 5, 5, 1)%nat) 1 5 5 1 3 1)
    as [A [Z [E HV]]]; try reflexivity; try (cbn; lia).
  exists A, Z. eexists. split; [exact E|].
  destruct (HV 0 1 1 0)%nat as [EZ EA]; try (vm_compute; lia).
  assert (HZ9 : at4 Z 0 1 1 0 == 9).
  { rewrite EZ. vm_compute. reflexivity. }
  split; [exact HZ9|]. rewrite EA.
  unfold Conv2d.ReLU. rewrite HZ9. vm_compute. reflexivity.
Defined.

(** X11.  With the names the module itself binds, [Conv2d.forward] on a
    kernel that fits the padded input returns only when there is nothing to
    compute: for an empty batch or a layer without output channel it
    returns zero-sized volumes, and as soon as there is one sample and one
    output channel it raises [NameError] at the call of [ReLU]. *)
Theorem Conv2d_forward_returns_only_empty
  (self : Conv2d.t) (A_prev : array4) (m H Wd C f n_C : nat) :
  shape4 A_prev = (m, H, Wd, C) ->
  shape4 (Conv2d.W self) = (f, f, C, n_C) ->
  shape4 (Conv2d.b self) = (1, 1, 1, n_C)%nat ->
  (1 <= Conv2d.stride (Conv2d.hparams self))%nat ->
  (f <= H + 2 * Conv2d.pad (Conv2d.hparams self))%nat ->
  (f <= Wd + 2 * Conv2d.pad (Conv2d.hparams self))%nat ->
  let stride := Conv2d.stride (Conv2d.hparams self) in
  let pad := Conv2d.pad (Conv2d.hparams self) in
  (m = 0%nat \/ n_C = 0%nat ->
   exists A Z,
     Conv2d.forward module_globals self A_prev
     = Ok (A, ((A_prev, Conv2d.W self, Conv2d.b self, Conv2d.hparams self), Z))
     /\ shape4 A = (m, Z.to_nat (floor_dim H f pad stride),
                    Z.to_nat (floor_dim Wd f pad stride), n_C))
  /\ ((1 <= m)%nat -> (1 <= n_C)%nat ->
      Conv2d.forward module_globals self A_prev = Raise NameError).
Proof.
  intros HA HW Hb Hs HfH HfW stride pad. split.
  - intros Hempty. unfold Conv2d.forward. rewrite HA, HW. fold stride pad.
    rewrite !Conv2d_out_dim_floor by assumption. cbn [Py.bind].
    pose proof (@floor_dim_pad_pos H f pad stride Hs HfH) as HnH.
    pose proof (@floor_dim_pad_pos Wd f pad stride Hs HfW) as HnW.
    rewrite !np_zeros4_ok by lia. cbn [Py.bind Conv2d.call_zero_pad].
    rewrite for_range_idle.
    + cbn [Py.bind]. do 2 eexists. split; reflexivity.
    + intros i Hi.
      rewrite (@getitem0_zero_pad self A_prev m H Wd C pad HA eq_refl i Hi).
      cbn [Py.bind]. destruct Hempty as [->| ->]; [lia|].
      apply for_range_idle. intros h _. apply for_range_idle. intros w _.
      reflexivity.
  - intros Hm HnC.
    exact (@forward_raises_NameError self A_prev m H Wd C f n_C stride pad
             HA HW Hb eq_refl eq_refl Hs HfH HfW Hm HnC).
Qed.

Lemma Conv2d_forward_returns_only_empty_witness :
  shape4 (ones4 (0, 5, 5, 1)%nat) = (0, 5, 5, 1)%nat
  /\ exists A Z,
       Conv2d.forward module_globals conv_3x3_ones (ones4 (0, 5, 5, 1)%nat)
       = Ok (A, ((ones4 (0, 5, 5, 1)%nat, Conv2d.W conv_3x3_ones,
                  Conv2d.b conv_3x3_ones, Conv2d.hparams conv_3x3_ones), Z))
       /\ shape4 A = (0%nat, Z.to_nat (floor_dim 5 3 0 1),
                      Z.to_nat (floor_dim 5 3 0 1), 1%nat).
Proof.
  split; [reflexivity|].
  apply (@Conv2d_forward_returns_only_empty conv_3x3_ones
           (ones4 (0, 5, 5, 1)%nat) 0 5 5 1 3 1);
    try reflexivity; try (cbn; lia).
Defined.

(** X12.  A layer built by [Conv2d.__init__] has a [(k, k, in, out)] filter
    bank, one bias per output channel and the given stride and padding,
    whatever [padding_mode] is.  For a stride of at least 1, on any batch
    with one sample at least, [in] channels and planes that the kernel
    fits, its [forward] raises [NameError] when the layer has one output
    channel at least, and returns a volume without channel when it has
    none. *)
Theorem Conv2d_init_then_forward
  (in_channels out_channels kernel_size stride padding : nat)
  (padding_mode : Conv2d.arg) (g : Conv2d.RandomState)
  (A_prev : array4) (m H Wd : nat) :
  let self := fst (Conv2d.__init__ in_channels out_channels kernel_size
                     stride padding_mode padding g) in
  shape4 A_prev = (m, H, Wd, in_channels) ->
  (1 <= m)%nat -> (1 <= stride)%nat ->
  (kernel_size <= H + 2 * padding)%nat ->
  (kernel_size <= Wd + 2 * padding)%nat ->
  shape4 (Conv2d.W self)
  = (kernel_size, kernel_size, in_channels, out_channels)
  /\ shape4 (Conv2d.b self) = (1, 1, 1, out_channels)%nat
  /\ Conv2d.hparams self = Conv2d.mk_hparameters stride padding
  /\ (forall padding_mode',
        Conv2d.__init__ in_channels out_channels kernel_size stride
          padding_mode' padding g
        = Conv2d.__init__ in_channels out_channels kernel_size stride
            padding_mode padding g)
  /\ ((1 <= out_channels)%nat ->
      Conv2d.forward module_globals self A_prev = Raise NameError)
  /\ (out_channels = 0%nat ->
      exists A cache,
        Conv2d.forward module_globals self A_prev = Ok (A, cache)
        /\ shape4 A
           = (m, Z.to_nat (floor_dim H kernel_size padding stride),
              Z.to_nat (floor_dim Wd kernel_size padding stride), 0%nat)).
Proof.
  intros self HA Hm Hs HfH HfW.
  split; [reflexivity|]. split; [reflexivity|]. split; [reflexivity|].
  split; [reflexivity|]. split.
  - intros Hout.
    apply (@forward_raises_NameError self A_prev m H Wd in_channels
             kernel_size out_channels stride padding HA eq_refl eq_refl
             eq_refl eq_refl Hs HfH HfW Hm Hout).
  - intros ->.
    pose proof (@floor_dim_pad_pos H kernel_size padding stride Hs HfH) as HnH.
    pose proof (@floor_dim_pad_pos Wd kernel_size padding stride Hs HfW)
      as HnW.
    do 2 eexists. split.
    + apply (@Conv2d_forward_no_cell module_globals self A_prev m H Wd
               in_channels kernel_size 0 HA eq_refl Hs); cbn; lia.
    + reflexivity.
Qed.

Lemma Conv2d_init_then_forward_witness :
  shape4 (ones4 (1, 5, 5, 1)%nat) = (1, 5, 5, 1)%nat
  /\ Conv2d.forward module_globals
       (fst (Conv2d.__init__ 1 8 3 1 (Conv2d.AStr "zeros") 0 zero_samples))
       (ones4 (1, 5, 5, 1)%nat) = Raise NameError
  /\ exists A cache,
       Conv2d.forward module_globals
         (fst (Conv2d.__init__ 1 0 3 1 (Conv2d.AStr "zeros") 0 zero_samples))
         (ones4 (1, 5, 5, 1)%nat) = Ok (A, cache)
       /\ shape4 A = (1%nat, Z.to_nat (floor_dim 5 3 0 1),
                      Z.to_nat (floor_dim 5 3 0 1), 0%nat).
Proof.
  assert (Hfit : (3 <= 5 + 2 * 0)%nat) by lia.
  split; [reflexivity|]. split.
  - destruct (@Conv2d_init_then_forward 1 8 3 1 0 (Conv2d.AStr "zeros")
                zero_samples (ones4 (1, 5, 5, 1)%nat) 1 5 5
                eq_refl (le_n 1) (le_n 1) Hfit Hfit)
      as [_ [_ [_ [_ [Hraise _]]]]].
    apply Hraise. lia.
  - destruct (@Conv2d_init_then_forward 1 0 3 1 0 (Conv2d.AStr "zeros")
                zero_samples (ones4 (1, 5, 5, 1)%nat) 1 5 5
                eq_refl (le_n 1) (le_n 1) Hfit Hfit)
      as [_ [_ [_ [_ [_ Hret]]]]].
    apply Hret. reflexivity.
Defined.

(* ================================================================== *)
(** * ConvNet2D.__init__: the layers of the loop *)
(* ================================================================== *)

Local Close Scope Q_scope.

Lemma getitem_Ok {A : Type} (xs : list A) (i : nat) (x : A) :
  getitem xs i = Ok x -> nth_error xs i = Some x.
Proof.
  unfold getitem. destruct (nth_error xs i); [|discriminate].
  intros E. injection E as ->. reflexivity.
Qed.

(** A successful iteration appends one convolution layer and nothing else. *)
Lemma add_layer_Ok (num_filters filter_sizes strides paddings : list nat)
  (pooling : option (list bool)) (pool_size : option (list nat))
  (i inc : nat) (convs : list Conv2d.t) (pools : list Pooling.t)
  (g : Conv2d.RandomState) (st : ConvNet2D.loop_state) :
  ConvNet2D.add_layer num_filters filter_sizes strides paddings pooling
    pool_size i (inc, convs, pools, g) = Ok st ->
  exists nf fs sd pd,
    nth_error num_filters i = Some nf /\ nth_error filter_sizes i = Some fs
    /\ nth_error strides i = Some sd /\ nth_error paddings i = Some pd
    /\ st = (nf,
             convs ++ [fst (Conv2d.__init__ inc nf fs sd (Conv2d.AInt pd) 0 g)],
             pools,
             snd (Conv2d.__init__ inc nf fs sd (Conv2d.AInt pd) 0 g)).
Proof.
  unfold ConvNet2D.add_layer.
  destruct (getitem num_filters i) as [nf|] eqn:Enf; [|discriminate].
  destruct (getitem filter_sizes i) as [fs|] eqn:Efs; [|discriminate].
  destruct (getitem strides i) as [sd|] eqn:Esd; [|discriminate].
  destruct (getitem paddings i) as [pd|] eqn:Epd; [|discriminate].
  cbn [Py.bind].
  destruct (Conv2d.__init__ inc nf fs sd (Conv2d.AInt pd) 0 g)
    as [layer g'] eqn:Ei.
  cbn [fst snd Py.bind]. intros E.
  exists nf, fs, sd, pd. repeat (split; [apply getitem_Ok; assumption|]).
  rewrite Ei. cbn [fst snd].
  destruct pooling as [flags|].
  - destruct (getitem flags i) as [[|]|]; cbn [Py.bind] in E;
      [|injection E as <-; reflexivity|discriminate].
    destruct pool_size as [sizes|]; [|discriminate].
    destruct (getitem sizes i); discriminate.
  - cbn [Py.bind] in E. injection E as <-. reflexivity.
Qed.

(** X13.  When the layer loop of [ConvNet2D.__init__] completes, it has
    built one [Conv2d] per entry of [num_filters] and no pooling layer;
    layer [i] has the listed filters, kernel size and stride, takes the
    previous layer's filters as input channels, and has padding 0 whatever
    [paddings] holds: the constructor passes [paddings[i]] where [Conv2d]
    expects [padding_mode]. *)
Theorem ConvNet2D_init_layers
  (in_channels : nat) (num_filters filter_sizes strides paddings : list nat)
  (pooling : option (list bool)) (pool_size : option (list nat))
  (g g' : Conv2d.RandomState) (inc : nat) (convs : list Conv2d.t)
  (pools : list Pooling.t) :
  for_ (range (List.length num_filters)) (in_channels, [], [], g)
    (ConvNet2D.add_layer num_filters filter_sizes strides paddings pooling
       pool_size)
  = Ok (inc, convs, pools, g') ->
  List.length convs = List.length num_filters
  /\ pools = []
  /\ inc = channels_into in_channels num_filters (List.length num_filters)
  /\ forall i l, nth_error convs i = Some l ->
       layer_as_listed in_channels num_filters filter_sizes strides i l.
Proof.
  set (add := ConvNet2D.add_layer num_filters filter_sizes strides paddings
                pooling pool_size).
  set (Inv := fun (k : nat) (st : ConvNet2D.loop_state) =>
    let '(inc, convs, pools, _) := st in
    List.length convs = k /\ pools = []
    /\ inc = channels_into in_channels num_filters k
    /\ forall i l, nth_error convs i = Some l ->
         layer_as_listed in_channels num_filters filter_sizes strides i l).
  assert (Hpre : forall k st,
            for_ (range k) (in_channels, [], [], g) add = Ok st -> Inv k st).
  { induction k as [|k IH]; intros st E.
    - cbn in E. injection E as <-. cbn.
      split; [reflexivity|]. split; [reflexivity|]. split; [reflexivity|].
      intros i l Hnth. destruct i; discriminate.
    - rewrite range_S, for_app in E.
      destruct (for_ (range k) (in_channels, [], [], g) add)
        as [[[[inc1 convs1] pools1] g1]|] eqn:E1; [|discriminate].
      cbn [Py.bind for_] in E.
      destruct (add k (inc1, convs1, pools1, g1)) as [st2|] eqn:E2;
        [|discriminate].
      cbn [Py.bind] in E. injection E as <-.
      destruct (IH _ eq_refl) as [Hlen [Hpools [Hinc Hl]]].
      apply add_layer_Ok in E2
        as [nf [fs [sd [pd [Hnf [Hfs [Hsd [Hpd ->]]]]]]]].
      cbn. split; [rewrite length_app; cbn; lia|].
      split; [exact Hpools|].
      split; [symmetry; apply nth_error_nth; exact Hnf|].
      intros i l Hnth.
      destruct (Nat.lt_ge_cases i (List.length convs1)) as [Hlt|Hge].
      + rewrite nth_error_app1 in Hnth by exact Hlt. apply Hl. exact Hnth.
      + rewrite nth_error_app2 in Hnth by exact Hge.
        destruct (i - List.length convs1) as [|j] eqn:Ei;
          [|destruct j; discriminate].
        cbn in Hnth. injection Hnth as <-.
        assert (i = k) by lia. subst i.
        unfold layer_as_listed. cbn.
        rewrite (nth_error_nth _ _ O Hnf), (nth_error_nth _ _ O Hfs),
          (nth_error_nth _ _ O Hsd), <- Hinc.
        repeat split. }
  intros E. exact (Hpre _ _ E).
Qed.

Lemma ConvNet2D_init_layers_witness :
  exists inc convs pools g',
    for_ (range (List.length [8; 16])) (1, [], [], zero_samples)
      (ConvNet2D.add_layer [8; 16] [3; 5] [1; 2] [4; 4] None None)
    = Ok (inc, convs, pools, g')
    /\ List.length convs = 2 /\ inc = 16
    /\ forall i l, nth_error convs i = Some l ->
         layer_as_listed 1 [8; 16] [3; 5] [1; 2] i l.
Proof.
  destruct (for_ (range (List.length [8; 16])) (1, [], [], zero_samples)
              (ConvNet2D.add_layer [8; 16] [3; 5] [1; 2] [4; 4] None None))
    as [[[[inc convs] pools] g']|e] eqn:E; [|cbv in E; discriminate].
  destruct (@ConvNet2D_init_layers 1 [8; 16] [3; 5] [1; 2] [4; 4] None None
              zero_samples g' inc convs pools E) as [Hlen [_ [Hinc Hl]]].
  exists inc, convs, pools, g'.
  split; [reflexivity|]. split; [exact Hlen|]. split; [exact Hinc|exact Hl].
Defined.

Local Open Scope Q_scope.

(* ================================================================== *)
(** * FullyConnected: the linear map, and forward with backward *)
(* ================================================================== *)

Lemma sum_n_scale (n : nat) (f : nat -> Q) (k : Q) :
  sum_n n (fun x => f x * k) == sum_n n f * k.
Proof.
  induction n as [|n IH]; cbn [sum_n]; [ring|]. rewrite IH. ring.
Qed.

Lemma FullyConnected_forward_linear_shape
  (self : FullyConnected.t) (X : array2 Q) (n_y n_x m : nat) :
  shape2 (FullyConnected.W self) = (n_y, n_x) ->
  shape2 (FullyConnected.b self) = (n_y, 1%nat) ->
  shape2 X = (n_x, m) ->
  exists Z,
    FullyConnected.forward_linear X self
    = (Ok (Z, (X, FullyConnected.W self, FullyConnected.b self)), self)
    /\ shape2 Z = (n_y, m).
Proof.
  intros HW Hb HX.
  unfold FullyConnected.forward_linear, FullyConnected.bindM,
    FullyConnected.lift, FullyConnected.ret, FullyConnected.get_W,
    FullyConnected.get_b, dot2.
  rewrite HW, HX, Nat.eqb_refl. unfold zip2. cbn [shape2]. rewrite Hb.
  rewrite bdim_refl, bdim_1_r. cbn [Py.bind].
  eexists. split; reflexivity.
Qed.

(** X14.  On an input whose rows match the columns of [W],
    [forward_linear] returns [W . X + b], the bias column being added to
    every example, and as cache the input with the layer's current weights
    and bias; the layer is left as it was. *)
Theorem FullyConnected_forward_linear
  (self : FullyConnected.t) (X : array2 Q) (n_y n_x m : nat) :
  shape2 (FullyConnected.W self) = (n_y, n_x) ->
  shape2 (FullyConnected.b self) = (n_y, 1%nat) ->
  shape2 X = (n_x, m) ->
  exists Z,
    FullyConnected.forward_linear X self
    = (Ok (Z, (X, FullyConnected.W self, FullyConnected.b self)), self)
    /\ shape2 Z = (n_y, m)
    /\ forall j e, (j < n_y)%nat -> (e < m)%nat ->
         at2 Z j e
         == sum_n n_x (fun k => at2 (FullyConnected.W self) j k * at2 X k e)
            + at2 (FullyConnected.b self) j 0.
Proof.
  intros HW Hb HX.
  unfold FullyConnected.forward_linear, FullyConnected.bindM,
    FullyConnected.lift, FullyConnected.ret, FullyConnected.get_W,
    FullyConnected.get_b, dot2.
  rewrite HW, HX, Nat.eqb_refl. unfold zip2. cbn [shape2]. rewrite Hb.
  rewrite bdim_refl, bdim_1_r. cbn [Py.bind].
  eexists. split; [reflexivity|]. split; [reflexivity|].
  intros j e Hj He. cbn [at2]. rewrite !(bidx_lt Hj), !(bidx_lt He).
  cbn [bidx Nat.eqb]. reflexivity.
Qed.

Lemma FullyConnected_forward_linear_witness :
  shape2 (FullyConnected.W fc_3_2) = (2, 3)%nat
  /\ shape2 (FullyConnected.b fc_3_2) = (2, 1)%nat
  /\ shape2 input_123 = (3, 1)%nat
  /\ exists Z,
       FullyConnected.forward_linear input_123 fc_3_2
       = (Ok (Z, (input_123, FullyConnected.W fc_3_2, FullyConnected.b fc_3_2)),
          fc_3_2)
       /\ shape2 Z = (2, 1)%nat.
Proof.
  repeat (split; [reflexivity|]).
  destruct (@FullyConnected_forward_linear fc_3_2 input_123 2 3 1
              eq_refl eq_refl eq_refl) as [Z [E [HS _]]].
  exists Z. split; [exact E|exact HS].
Defined.

(** X15.  [FullyConnected.forward] never returns: it raises [ValueError]
    when the rows of the input differ from the columns of [W], and
    otherwise, the linear map done, [NameError] at the call of the unbound
    name [softmax]; either way the layer is left as it was. *)
Theorem FullyConnected_forward_never_returns
  (self : FullyConnected.t) (A_prev : array2 Q) (n_y n_x n m : nat) :
  shape2 (FullyConnected.W self) = (n_y, n_x) ->
  shape2 (FullyConnected.b self) = (n_y, 1%nat) ->
  shape2 A_prev = (n, m) ->
  snd (FullyConnected.forward module_globals A_prev self) = self
  /\ (n <> n_x ->
      fst (FullyConnected.forward module_globals A_prev self)
      = Raise ValueError)
  /\ (n = n_x ->
      fst (FullyConnected.forward module_globals A_prev self)
      = Raise NameError).
Proof.
  intros HW Hb HX.
  unfold FullyConnected.forward, FullyConnected.forward_linear,
    FullyConnected.forward_activation, FullyConnected.bindM,
    FullyConnected.lift, FullyConnected.ret, FullyConnected.get_W,
    FullyConnected.get_b, dot2.
  rewrite HW, HX.
  destruct (Nat.eqb_spec n_x n) as [->|Hne].
  - unfold zip2. cbn [shape2]. rewrite Hb, bdim_refl, bdim_1_r.
    cbn [Py.bind]. split; [reflexivity|]. split; [congruence|reflexivity].
  - split; [reflexivity|]. split; [reflexivity|congruence].
Qed.

Lemma FullyConnected_forward_never_returns_witness :
  shape2 (FullyConnected.W fc_3_2) = (2, 3)%nat
  /\ shape2 (FullyConnected.b fc_3_2) = (2, 1)%nat
  /\ shape2 input_123 = (3, 1)%nat
  /\ fst (FullyConnected.forward module_globals input_123 fc_3_2)
     = Raise NameError.
Proof.
  repeat (split; [reflexivity|]).
  apply (@FullyConnected_forward_never_returns fc_3_2 input_123 2 3 3 1
           eq_refl eq_refl eq_refl).
  reflexivity.
Defined.

(** X16.  [backward] run on the cache of a [forward_linear] call, with
    probabilities and labels shaped like that call's output, returns
    gradients shaped like what they are gradients of: [dW] like the
    weights, [db] like the bias and [dA_prev] like the input. *)
Theorem FullyConnected_backward_after_forward_linear
  (self : FullyConnected.t) (X AL Y Z : array2 Q)
  (cache : FullyConnected.linear_cache) (learning_rate : Q) (n_y n_x m : nat) :
  shape2 (FullyConnected.W self) = (n_y, n_x) ->
  shape2 (FullyConnected.b self) = (n_y, 1%nat) ->
  shape2 X = (n_x, m) ->
  fst (FullyConnected.forward_linear X self) = Ok (Z, cache) ->
  shape2 AL = shape2 Z -> shape2 Y = shape2 Z ->
  exists dA_prev dW db,
    fst (FullyConnected.backward AL Y (cache, Z) learning_rate self)
    = Ok (dA_prev, dW, db)
    /\ shape2 dW = shape2 (FullyConnected.W self)
    /\ shape2 db = shape2 (FullyConnected.b self)
    /\ shape2 dA_prev = shape2 X.
Proof.
  intros HW Hb HX Hfwd HAL HY.
  destruct (@FullyConnected_forward_linear_shape self X n_y n_x m HW Hb HX)
    as [Z' [E HZ]].
  rewrite E in Hfwd. cbn [fst] in Hfwd. injection Hfwd as <- <-.
  rewrite HZ in HAL, HY.
  unfold FullyConnected.backward, FullyConnected.bindM, FullyConnected.lift,
    FullyConnected.ret.
  rewrite (zip2_same_shape Qminus AL Y HAL HY).
  unfold dot2, transpose2, sum_axis1, div_scalar, map2.
  rewrite HAL, HX, HW. cbn [shape2 at2 fst snd]. rewrite !Nat.eqb_refl.
  cbn [fst]. do 3 eexists. split; [reflexivity|].
  cbn [shape2]. rewrite Hb. repeat split.
Qed.

Lemma FullyConnected_backward_after_forward_linear_witness :
  exists Z cache dA_prev dW db,
    fst (FullyConnected.forward_linear input_123 fc_3_2) = Ok (Z, cache)
    /\ fst (FullyConnected.backward probs_07_03 label_1_0 (cache, Z)
              (1 # 100) fc_3_2)
       = Ok (dA_prev, dW, db)
    /\ shape2 dW = (2, 3)%nat /\ shape2 dA_prev = (3, 1)%nat.
Proof.
  destruct (@FullyConnected_forward_linear_shape fc_3_2 input_123 2 3 1
              eq_refl eq_refl eq_refl) as [Z [E HZ]].
  assert (E' : fst (FullyConnected.forward_linear input_123 fc_3_2)
               = Ok (Z, (input_123, FullyConnected.W fc_3_2,
                         FullyConnected.b fc_3_2)))
    by (rewrite E; reflexivity).
  destruct (@FullyConnected_backward_after_forward_linear fc_3_2 input_123
              probs_07_03 label_1_0 Z _ (1 # 100) 2 3 1
              eq_refl eq_refl eq_refl E')
    as [dA_prev [dW [db [Eb [HdW [_ HdA]]]]]].
  - rewrite HZ. reflexivity.
  - rewrite HZ. reflexivity.
  - exists Z, (input_123, FullyConnected.W fc_3_2, FullyConnected.b fc_3_2),
      dA_prev, dW, db.
    split; [exact E'|]. split; [exact Eb|]. split; [exact HdW|exact HdA].
Defined.

Lemma sum_n_minus (n : nat) (f g : nat -> Q) :
  sum_n n (fun x => f x - g x) == sum_n n f - sum_n n g.
Proof.
  induction n as [|n IH]; cbn [sum_n]; [ring|]. rewrite IH. ring.
Qed.

(** The gradients of [backward], entry by entry. *)
Lemma backward_entries (self : FullyConnected.t) (AL Y X W b Z : array2 Q)
  (learning_rate : Q) (n_y n_x m : nat) :
  shape2 AL = (n_y, m) -> shape2 Y = (n_y, m) ->
  shape2 X = (n_x, m) -> shape2 W = (n_y, n_x) ->
  exists dA_prev dW db,
    fst (FullyConnected.backward AL Y ((X, W, b), Z) learning_rate self)
    = Ok (dA_prev, dW, db)
    /\ (forall j k, (j < n_y)%nat -> (k < n_x)%nat ->
          at2 dW j k
          == sum_n m (fun e => (at2 AL j e - at2 Y j e) * at2 X k e)
             / Qnat m)
    /\ (forall j, (j < n_y)%nat ->
          at2 db j 0
          == sum_n m (fun e => at2 AL j e - at2 Y j e) / Qnat m).
Proof.
  intros HAL HY HX HW.
  unfold FullyConnected.backward, FullyConnected.bindM, FullyConnected.lift,
    FullyConnected.ret.
  rewrite (zip2_same_shape Qminus AL Y HAL HY).
  unfold dot2, transpose2, sum_axis1, div_scalar, map2.
  rewrite HAL, HX, HW. cbn [shape2 at2 fst snd]. rewrite !Nat.eqb_refl.
  cbn [fst]. do 3 eexists. split; [reflexivity|].
  cbn [shape2 at2]. split.
  - intros j k Hj Hk.
    apply Qmult_comp; [|reflexivity]. apply sum_n_ext. intros e He.
    rewrite (bidx_lt Hj), (bidx_lt He). reflexivity.
  - intros j Hj.
    apply Qmult_comp; [|reflexivity]. apply sum_n_ext. intros e He.
    rewrite (bidx_lt Hj), (bidx_lt He). reflexivity.
Qed.

(** X17.  When every example's probabilities sum to what its labels sum
    to, as with a softmax output against one-hot labels, the gradients of
    [backward] are balanced over the output units: the entries of [db] sum
    to [0], and so does every column of [dW]. *)
Theorem FullyConnected_backward_gradients_balanced
  (self : FullyConnected.t) (AL Y X W b Z : array2 Q)
  (learning_rate : Q) (n_y n_x m : nat) :
  shape2 AL = (n_y, m) -> shape2 Y = (n_y, m) ->
  shape2 X = (n_x, m) -> shape2 W = (n_y, n_x) -> (1 <= m)%nat ->
  (forall e, (e < m)%nat ->
     sum_n n_y (fun j => at2 AL j e) == sum_n n_y (fun j => at2 Y j e)) ->
  exists dA_prev dW db,
    fst (FullyConnected.backward AL Y ((X, W, b), Z) learning_rate self)
    = Ok (dA_prev, dW, db)
    /\ sum_n n_y (fun j => at2 db j 0) == 0
    /\ forall k, (k < n_x)%nat -> sum_n n_y (fun j => at2 dW j k) == 0.
Proof.
  intros HAL HY HX HW Hm Hcol.
  destruct (@backward_entries self AL Y X W b Z learning_rate n_y n_x m
              HAL HY HX HW) as [dA_prev [dW [db [E [HdW Hdb]]]]].
  exists dA_prev, dW, db. split; [exact E|].
  assert (Hz : forall e, (e < m)%nat ->
            sum_n n_y (fun j => at2 AL j e - at2 Y j e) == 0).
  { intros e He. rewrite sum_n_minus, (Hcol e He). ring. }
  split.
  - rewrite (@sum_n_ext n_y _
               (fun j => sum_n m (fun e => at2 AL j e - at2 Y j e)
                         * / Qnat m)) by (intros j Hj; apply Hdb; exact Hj).
    rewrite sum_n_scale, sum_n_swap.
    rewrite (@sum_n_zero m) by exact Hz. ring.
  - intros k Hk.
    rewrite (@sum_n_ext n_y _
               (fun j => sum_n m (fun e => (at2 AL j e - at2 Y j e)
                                           * at2 X k e)
                         * / Qnat m))
      by (intros j Hj; apply HdW; assumption).
    rewrite sum_n_scale, sum_n_swap.
    rewrite (@sum_n_zero m); [ring|].
    intros e He. rewrite sum_n_scale, (Hz e He). ring.
Qed.

Lemma FullyConnected_backward_gradients_balanced_witness :
  exists dA_prev dW db,
    fst (FullyConnected.backward probs_07_03 label_1_0
           ((input_123, weights_2x3, bias_2), probs_07_03) (1 # 100) fc_3_2)
    = Ok (dA_prev, dW, db)
    /\ sum_n 2 (fun j => at2 db j 0) == 0.
Proof.
  destruct (@FullyConnected_backward_gradients_balanced fc_3_2 probs_07_03
              label_1_0 input_123 weights_2x3 bias_2 probs_07_03 (1 # 100)
              2 3 1 eq_refl eq_refl eq_refl eq_refl (le_n 1))
    as [dA_prev [dW [db [E [Hdb _]]]]].
  - intros e He. assert (e = 0%nat) as -> by lia. vm_compute. reflexivity.
  - exists dA_prev, dW, db. split; [exact E|exact Hdb].
Defined.

(** X18.  [backward] checks its caches only through the matrix products:
    a cached input whose batch size differs from that of the probabilities
    makes [dZ . X.T] raise [ValueError], and with a matching input a
    cached weight matrix whose number of rows differs from that of the
    probabilities makes [W.T . dZ] raise it. *)
Theorem FullyConnected_backward_mismatched_cache
  (self : FullyConnected.t) (AL Y X W b Z : array2 Q)
  (learning_rate : Q) (n_y m n_x m' n_y' n_x' : nat) :
  shape2 AL = (n_y, m) -> shape2 Y = (n_y, m) ->
  shape2 X = (n_x, m') -> shape2 W = (n_y', n_x') ->
  m' <> m \/ n_y' <> n_y ->
  fst (FullyConnected.backward AL Y ((X, W, b), Z) learning_rate self)
  = Raise ValueError.
Proof.
  intros HAL HY HX HW Hbad.
  unfold FullyConnected.backward, FullyConnected.bindM, FullyConnected.lift,
    FullyConnected.ret.
  rewrite (zip2_same_shape Qminus AL Y HAL HY).
  unfold dot2, transpose2. rewrite HX, HW. cbn [shape2 fst snd].
  destruct (Nat.eqb_spec m m') as [->|Hm]; [|reflexivity].
  destruct (Nat.eqb_spec n_y' n_y) as [->|Hn]; [|reflexivity].
  destruct Hbad as [H|H]; congruence.
Qed.

Lemma FullyConnected_backward_mismatched_cache_witness :
  fst (FullyConnected.backward probs_07_03 label_1_0
         ((weights_2x3, weights_2x3, bias_2), probs_07_03) (1 # 100) fc_3_2)
  = Raise ValueError.
Proof.
  apply (@FullyConnected_backward_mismatched_cache fc_3_2 probs_07_03
           label_1_0 weights_2x3 weights_2x3 bias_2 probs_07_03 (1 # 100)
           2 1 2 3 2 3 eq_refl eq_refl eq_refl eq_refl).
  left. discriminate.
Defined.

(* ================================================================== *)
(** * softmax and the cross-entropy cost *)
(* ================================================================== *)

Local Close Scope Q_scope.
Local Open Scope R_scope.

Lemma max_upto_ext (n : nat) (f g : nat -> R) :
  (forall i, (i <= n)%nat -> f i = g i) -> max_upto n f = max_upto n g.
Proof.
  induction n as [|n IH]; intros H; cbn [max_upto].
  - apply H. lia.
  - rewrite IH, (H (S n)) by (intros; try apply H; lia). reflexivity.
Qed.

Lemma max_upto_shift (n : nat) (f : nat -> R) (c : R) :
  max_upto n (fun i => f i + c) = max_upto n f + c.
Proof.
  induction n as [|n IH]; cbn [max_upto]; [reflexivity|].
  rewrite IH. unfold Rmax.
  destruct (Rle_dec (max_upto n f + c) (f (S n) + c));
    destruct (Rle_dec (max_upto n f) (f (S n))); lra.
Qed.

(** X19.  [softmax] does not see a constant added to a column of logits:
    two inputs that differ, column by column, by a constant give the same
    probabilities. *)
Theorem softmax_shift_invariant
  (X X' : array2 R) (n m : nat) (c : nat -> R) :
  shape2 X = (n, m) -> shape2 X' = (n, m) -> (1 <= n)%nat ->
  (forall i j, (i < n)%nat -> (j < m)%nat -> at2 X' i j = at2 X i j + c j) ->
  exists S S',
    FullyConnected.softmax X = Ok S /\ FullyConnected.softmax X' = Ok S'
    /\ forall i j, (i < n)%nat -> (j < m)%nat -> at2 S' i j = at2 S i j.
Proof.
  intros HX HX' Hn Hc.
  destruct (softmax_entries X HX Hn) as [S [E [_ HS]]].
  destruct (softmax_entries X' HX' Hn) as [S' [E' [_ HS']]].
  exists S, S'. split; [exact E|]. split; [exact E'|].
  intros i j Hi Hj. rewrite (HS' i j Hi Hj), (HS i j Hi Hj).
  assert (Hmax : column_max X' n j = column_max X n j + c j).
  { unfold column_max. rewrite <- max_upto_shift. apply max_upto_ext.
    intros k Hk. apply Hc; lia. }
  rewrite Hmax, (Hc i j Hi Hj).
  replace (at2 X i j + c j - (column_max X n j + c j))
    with (at2 X i j - column_max X n j) by ring.
  f_equal. apply fsum_n_ext. intros k Hk. rewrite (Hc k j Hk Hj).
  f_equal. ring.
Qed.

Lemma softmax_shift_invariant_witness :
  exists S S',
    FullyConnected.softmax logits_1000 = Ok S
    /\ FullyConnected.softmax logits_0 = Ok S'
    /\ at2 S' 0 0 = at2 S 0 0.
Proof.
  destruct (@softmax_shift_invariant logits_1000 logits_0 3 1
              (fun _ => - 1000) eq_refl eq_refl)
    as [S [S' [E [E' H]]]].
  - lia.
  - intros i j _ _. cbn. lra.
  - exists S, S'. split; [exact E|]. split; [exact E'|]. apply H; lia.
Defined.

(** X20.  Within a column [softmax] keeps the order of the logits, though
    not strictly: a logit that is not above another gets a probability that
    is not above the other's, and equal logits get equal probabilities; a
    logit [1000] or more below the maximum of its column gets the
    probability [0], [np.exp] having underflowed. *)
Theorem softmax_order_preserving
  (X : array2 R) (n m i k j : nat) :
  shape2 X = (n, m) -> (Z.of_nat n < 2 ^ 63)%Z ->
  (i < n)%nat -> (k < n)%nat -> (j < m)%nat ->
  exists S p_i p_k,
    FullyConnected.softmax X = Ok S
    /\ at2 S i j = Fin p_i /\ at2 S k j = Fin p_k
    /\ (at2 X i j <= at2 X k j -> p_i <= p_k)
    /\ (at2 X i j = at2 X k j -> p_i = p_k)
    /\ (at2 X i j <= column_max X n j - 1000 -> p_i = 0).
Proof.
  intros HX Hrows Hi Hk Hj.
  assert (Hn : (1 <= n)%nat) by lia.
  destruct (softmax_column X HX Hn Hrows) as [S [E [_ Hcol]]].
  destruct (Hcol j Hj) as [e [s [Hup [_ [He [_ [_ [_ [Hs Hout]]]]]]]]].
  exists S, (e i / s), (e k / s). split; [exact E|].
  split; [apply Hout; exact Hi|]. split; [apply Hout; exact Hk|].
  destruct (He i Hi) as [Ei _]. destruct (He k Hk) as [Ek _].
  pose proof (Hup k Hk) as Hk0.
  assert (Hinv : 0 < / s) by (apply Rinv_0_lt_compat; lra).
  split; [|split].
  - intros Hle. unfold Rdiv. apply Rmult_le_compat_r; [lra|].
    apply (@np_exp_monotone (at2 X i j - column_max X n j)
             (at2 X k j - column_max X n j) (e i) (e k)); try assumption; lra.
  - intros Heq. rewrite Heq in Ei. rewrite Ei in Ek.
    injection Ek as ->. reflexivity.
  - intros Hlow.
    rewrite (@np_exp_underflow (at2 X i j - column_max X n j)) in Ei by lra.
    injection Ei as <-. unfold Rdiv. ring.
Qed.

Lemma softmax_order_preserving_witness :
  exists S p_0 p_1,
    FullyConnected.softmax logits_0_minus_1000 = Ok S
    /\ at2 S 0 0 = Fin p_0 /\ at2 S 1 0 = Fin p_1
    /\ p_1 <= p_0 /\ p_1 = 0.
Proof.
  destruct (@softmax_order_preserving logits_0_minus_1000 2 1 1 0 0 eq_refl)
    as [S [p_1 [p_0 [E [E1 [E0 [Hle [_ Hzero]]]]]]]]; try lia.
  exists S, p_0, p_1. split; [exact E|]. split; [exact E0|].
  split; [exact E1|]. split.
  - apply Hle. cbn. lra.
  - apply Hzero. unfold column_max, logits_0_minus_1000.
    cbn [at2 max_upto Nat.sub Nat.eqb]. rewrite Rmax_left by lra. lra.
Defined.

(** X21.  On logits with no row, [softmax] raises [ValueError]: the
    maximum over an empty axis does not exist. *)
Theorem softmax_no_rows (X : array2 R) (m : nat) :
  shape2 X = (0%nat, m) -> FullyConnected.softmax X = Raise ValueError.
Proof.
  intros HX. unfold FullyConnected.softmax, max_axis0. rewrite HX.
  reflexivity.
Qed.

Lemma softmax_no_rows_witness :
  FullyConnected.softmax logits_none = Raise ValueError.
Proof.
  apply (@softmax_no_rows logits_none 4). reflexivity.
Defined.

Lemma sumR_n_le (n : nat) (f g : nat -> R) :
  (forall x, (x < n)%nat -> f x <= g x) -> sumR_n n f <= sumR_n n g.
Proof.
  induction n as [|n IH]; intros H; cbn [sumR_n]; [apply Rle_refl|].
  apply Rplus_le_compat; [apply IH; intros; apply H; lia|apply H; lia].
Qed.

Lemma sumR_n_scale (n : nat) (f : nat -> R) (c : R) :
  sumR_n n (fun x => f x * c) = sumR_n n f * c.
Proof.
  induction n as [|n IH]; cbn [sumR_n]; [ring|]. rewrite IH. ring.
Qed.

Lemma ln_monotone (x y : R) : 0 < x -> x <= y -> ln x <= ln y.
Proof.
  intros Hx [Hlt| ->]; [|apply Rle_refl]. left. apply ln_increasing; assumption.
Qed.

Lemma epsilon_bounds : 0 < ConvNet2D.epsilon < 1.
Proof. unfold ConvNet2D.epsilon. lra. Qed.

(** What [compute_cost] returns on probabilities and labels of one shape. *)
Lemma compute_cost_value (AL Y : array2 R) (n m : nat) :
  shape2 AL = (n, m) -> shape2 Y = (n, m) ->
  ConvNet2D.compute_cost AL Y
  = Ok (- sumR_n n (fun i => sumR_n m (fun j =>
            at2 Y i j * ln (at2 AL i j + ConvNet2D.epsilon))) / INR m).
Proof.
  intros HAL HY. unfold ConvNet2D.compute_cost.
  rewrite (@zip2_same_shape R Rmult Y
             (map2 (fun a => ln (a + ConvNet2D.epsilon)) AL) n m HY)
    by (unfold map2; cbn [shape2]; exact HAL).
  cbn [Py.bind]. rewrite HY. cbn [snd]. unfold sum2R, map2. cbn [shape2 at2].
  do 3 f_equal. apply sumR_n_ext. intros i Hi. apply sumR_n_ext. intros j Hj.
  rewrite (bidx_lt Hi), (bidx_lt Hj). reflexivity.
Qed.

(** X22.  For probabilities in [0, 1] and labels that are not negative,
    on a batch that is not empty, [compute_cost] returns a finite cost
    between [-(S / m) * ln (1 + 1e-9)] and [(S / m) * -ln 1e-9], [S] being
    the sum of the labels: the added [1e-9] keeps the logarithm of a zero
    probability finite, and lets the cost fall slightly below [0]. *)
Theorem compute_cost_bounds (AL Y : array2 R) (n m : nat) :
  shape2 AL = (n, m) -> shape2 Y = (n, m) -> (1 <= m)%nat ->
  (forall i j, (i < n)%nat -> (j < m)%nat -> 0 <= at2 AL i j <= 1) ->
  (forall i j, (i < n)%nat -> (j < m)%nat -> 0 <= at2 Y i j) ->
  exists cost,
    ConvNet2D.compute_cost AL Y = Ok cost
    /\ - (sum2R Y / INR m) * ln (1 + ConvNet2D.epsilon) <= cost
    /\ cost <= sum2R Y / INR m * - ln ConvNet2D.epsilon.
Proof.
  intros HAL HY Hm HA HYpos.
  rewrite (compute_cost_value AL Y HAL HY). eexists. split; [reflexivity|].
  pose proof epsilon_bounds as [He0 He1].
  assert (Hmpos : 0 < INR m) by (apply lt_0_INR; lia).
  assert (Hinv : 0 < / INR m) by (apply Rinv_0_lt_compat; exact Hmpos).
  set (T := sumR_n n (fun i => sumR_n m (fun j =>
              at2 Y i j * ln (at2 AL i j + ConvNet2D.epsilon)))).
  assert (HS : sum2R Y = sumR_n n (fun i => sumR_n m (fun j => at2 Y i j))).
  { unfold sum2R. rewrite HY. reflexivity. }
  assert (Hup : T <= sum2R Y * ln (1 + ConvNet2D.epsilon)).
  { rewrite HS, <- sumR_n_scale. apply sumR_n_le. intros i Hi.
    rewrite <- sumR_n_scale. apply sumR_n_le. intros j Hj.
    apply Rmult_le_compat_l; [apply HYpos; assumption|].
    destruct (HA i j Hi Hj). apply ln_monotone; lra. }
  assert (Hlo : sum2R Y * ln ConvNet2D.epsilon <= T).
  { rewrite HS, <- sumR_n_scale. apply sumR_n_le. intros i Hi.
    rewrite <- sumR_n_scale. apply sumR_n_le. intros j Hj.
    apply Rmult_le_compat_l; [apply HYpos; assumption|].
    destruct (HA i j Hi Hj). apply ln_monotone; lra. }
  unfold Rdiv. split.
  - replace (- (sum2R Y * / INR m) * ln (1 + ConvNet2D.epsilon))
      with (- (sum2R Y * ln (1 + ConvNet2D.epsilon)) * / INR m) by ring.
    apply Rmult_le_compat_r; lra.
  - replace (sum2R Y * / INR m * - ln ConvNet2D.epsilon)
      with (- (sum2R Y * ln ConvNet2D.epsilon) * / INR m) by ring.
    apply Rmult_le_compat_r; lra.
Qed.

Lemma compute_cost_bounds_witness :
  exists cost,
    ConvNet2D.compute_cost probs_0_1 one_hot_1_0 = Ok cost
    /\ cost <= sum2R one_hot_1_0 / INR 1 * - ln ConvNet2D.epsilon.
Proof.
  destruct (@compute_cost_bounds probs_0_1 one_hot_1_0 2 1 eq_refl eq_refl
              (le_n 1)) as [cost [E [_ H]]].
  - intros i j _ _. cbn. destruct (i =? 0)%nat; lra.
  - intros i j _ _. cbn. destruct (i =? 0)%nat; lra.
  - exists cost. split; [exact E|exact H].
Defined.

(** X23.  On a prediction that repeats its labels, every label being [0]
    or [1], [compute_cost] returns [-(S / m) * ln (1 + 1e-9)] for [S] the
    number of labels set: the cost of a perfect prediction is below [0]
    as soon as a label is set, not [0]. *)
Theorem compute_cost_perfect_prediction (Y : array2 R) (n m : nat) :
  shape2 Y = (n, m) -> (1 <= m)%nat ->
  (forall i j, (i < n)%nat -> (j < m)%nat -> at2 Y i j = 0 \/ at2 Y i j = 1) ->
  ConvNet2D.compute_cost Y Y
  = Ok (- (sum2R Y * ln (1 + ConvNet2D.epsilon)) / INR m)
  /\ (0 < sum2R Y ->
      exists cost, ConvNet2D.compute_cost Y Y = Ok cost /\ cost < 0).
Proof.
  intros HY Hm H01.
  pose proof epsilon_bounds as [He0 He1].
  assert (E : ConvNet2D.compute_cost Y Y
              = Ok (- (sum2R Y * ln (1 + ConvNet2D.epsilon)) / INR m)).
  { rewrite (compute_cost_value Y Y HY HY). do 3 f_equal.
    unfold sum2R. rewrite HY. rewrite <- sumR_n_scale.
    apply sumR_n_ext. intros i Hi. rewrite <- sumR_n_scale.
    apply sumR_n_ext. intros j Hj.
    destruct (H01 i j Hi Hj) as [-> | ->]; [ring|].
    reflexivity. }
  split; [exact E|]. intros Hpos. eexists. split; [exact E|].
  assert (Hmpos : 0 < INR m) by (apply lt_0_INR; lia).
  assert (Hinv : 0 < / INR m) by (apply Rinv_0_lt_compat; exact Hmpos).
  assert (Hln : 0 < ln (1 + ConvNet2D.epsilon)).
  { rewrite <- ln_1. apply ln_increasing; lra. }
  assert (0 < sum2R Y * ln (1 + ConvNet2D.epsilon))
    by (apply Rmult_lt_0_compat; assumption).
  unfold Rdiv.
  replace (- (sum2R Y * ln (1 + ConvNet2D.epsilon)) * / INR m)
    with (- ((sum2R Y * ln (1 + ConvNet2D.epsilon)) * / INR m)) by ring.
  assert (0 < sum2R Y * ln (1 + ConvNet2D.epsilon) * / INR m)
    by (apply Rmult_lt_0_compat; assumption).
  lra.
Qed.

Lemma compute_cost_perfect_prediction_witness :
  exists cost,
    ConvNet2D.compute_cost one_hot_1_0 one_hot_1_0 = Ok cost /\ cost < 0.
Proof.
  destruct (@compute_cost_perfect_prediction one_hot_1_0 2 1 eq_refl (le_n 1))
    as [_ H].
  - intros i j _ _. cbn. destruct (i =? 0)%nat; [right|left]; reflexivity.
  - apply H. cbn. lra.
Defined.

Local Close Scope R_scope.
Local Open Scope Q_scope.

(* ================================================================== *)
(** * ReLU, and a freshly built fully connected layer *)
(* ================================================================== *)

(** X24.  [ReLU] never returns a negative number nor one below its
    argument, leaves what is not negative as it is, and so changes nothing
    when applied a second time. *)
Theorem ReLU_clamps (z : Q) :
  0 <= Conv2d.ReLU z /\ z <= Conv2d.ReLU z
  /\ (0 <= z -> Conv2d.ReLU z == z)
  /\ Conv2d.ReLU (Conv2d.ReLU z) == Conv2d.ReLU z.
Proof.
  unfold Conv2d.ReLU.
  assert (H0 : 0 <= Qmax 0 z) by apply Q.le_max_l.
  split; [exact H0|]. split; [apply Q.le_max_r|].
  split; intros; apply Q.max_r; assumption.
Qed.

Lemma ReLU_clamps_witness :
  Conv2d.ReLU (3 # 2) == 3 # 2 /\ 0 <= Conv2d.ReLU (- (3 # 2)).
Proof.
  split.
  - apply (proj1 (proj2 (proj2 (ReLU_clamps (3 # 2))))). discriminate.
  - apply (proj1 (ReLU_clamps (- (3 # 2)))).
Defined.

(** X25.  A layer built by [FullyConnected.__init__] takes
    [output_dim * input_dim] samples from the generator, and its
    [forward_linear] accepts exactly the inputs with [input_dim] rows: on
    those it returns [W . X] of shape [(output_dim, m)], the bias being
    zero and every weight a sample scaled by [0.01]; on any other it
    raises [ValueError]. *)
Theorem FullyConnected_init_then_forward_linear
  (input_dim output_dim : nat) (g : Conv2d.RandomState)
  (X : array2 Q) (n m : nat) :
  shape2 X = (n, m) ->
  let self := fst (FullyConnected.__init__ input_dim output_dim g) in
  (forall k, snd (FullyConnected.__init__ input_dim output_dim g) k
             = g (output_dim * input_dim + k)%nat)
  /\ (n <> input_dim ->
      fst (FullyConnected.forward_linear X self) = Raise ValueError)
  /\ (n = input_dim ->
      exists Z cache,
        fst (FullyConnected.forward_linear X self) = Ok (Z, cache)
        /\ shape2 Z = (output_dim, m)
        /\ forall j e, (j < output_dim)%nat -> (e < m)%nat ->
             at2 Z j e
             == sum_n input_dim (fun k =>
                  g (j * input_dim + k)%nat * (1 # 100) * at2 X k e)).
Proof.
  intros HX self. split; [reflexivity|]. split.
  - intros Hne.
    unfold FullyConnected.forward_linear, FullyConnected.bindM,
      FullyConnected.lift, FullyConnected.get_W, dot2.
    subst self. cbn [FullyConnected.__init__ FullyConnected.randn fst
                     FullyConnected.W map2 shape2].
    rewrite HX. destruct (Nat.eqb_spec input_dim n); [congruence|reflexivity].
  - intros ->.
    destruct (@FullyConnected_forward_linear_shape self X output_dim input_dim
                m eq_refl eq_refl HX) as [Z [E HZ]].
    exists Z, (X, FullyConnected.W self, FullyConnected.b self).
    rewrite E. split; [reflexivity|]. split; [exact HZ|].
    intros j e Hj He.
    unfold FullyConnected.forward_linear, FullyConnected.bindM,
      FullyConnected.lift, FullyConnected.ret, FullyConnected.get_W,
      FullyConnected.get_b, dot2 in E.
    subst self.
    cbn [FullyConnected.__init__ FullyConnected.randn fst FullyConnected.W
         FullyConnected.b map2 shape2 at2] in E.
    rewrite HX, Nat.eqb_refl in E. unfold zip2 in E. cbn [shape2] in E.
    rewrite bdim_refl, bdim_1_r in E. cbn [Py.bind] in E.
    injection E as E. subst Z. cbn [at2].
    rewrite !(bidx_lt Hj), !(bidx_lt He). cbn [bidx Nat.eqb].
    rewrite Qplus_0_r. reflexivity.
Qed.

Lemma FullyConnected_init_then_forward_linear_witness :
  exists Z cache,
    fst (FullyConnected.forward_linear input_123
           (fst (FullyConnected.__init__ 3 2 samples_from_1)))
    = Ok (Z, cache)
    /\ shape2 Z = (2, 1)%nat.
Proof.
  destruct (@FullyConnected_init_then_forward_linear 3 2 samples_from_1
              input_123 3 1 eq_refl) as [_ [_ H]].
  destruct (H eq_refl) as [Z [cache [E [HS _]]]].
  exists Z, cache. split; [exact E|exact HS].
Defined.
